(** * Ranking engine of Challenge_1b: scoring, mean-of-top-K aggregation,
      global ranking and sub-section analysis.

    Shallow embedding of [core/ranking_engine.py], [data_structures.py] and
    the page lookup of [core/output_builder.py]; the parser, the chunking
    and embedding stage, the output builder and [process_single_pdf] of
    [main.py] follow in a part of their own.

    Modelling choices.
    - Scores are Python floats in the source.  They are embedded as exact
      rationals [Q]: the dot product, the mean and the comparisons below are
      the exact operations the floating-point ones approximate.
    - [Section] objects are mutated in place and handed around by reference
      (the same object sits in [doc.sections], in the flattened list and in
      the returned list), so sections live in a store indexed by reference
      and every list of sections is a list of references.
    - [Chunk] objects are only ever reached through the [chunks] list of
      their section; they are kept by value inside the section record and a
      write to [chunk.similarity_score] is an update of that list by index.
    - [Document] objects are never written by the ranking engine; a document
      is a value holding the references of its sections.
    - A Python exception leaves every write made before it in place, so the
      monad returns the store also when it fails. *)

From Stdlib Require Import ZArith QArith Qabs Qround Lia Lqa Ascii.
From stdpp Require Import base option list list_monad gmap strings sorting pretty.

Local Open Scope Z_scope.

(** ** Data model ([data_structures.py]) *)

Record Chunk := mkChunk {
  text : string;
  chunk_source_doc_name : string;
  source_section_title : string;
  embedding : option (list Q);
  similarity_score : option Q
}.

Record DocSection := mkSection {
  title : string;
  page_number : Z;
  source_doc_name : string;
  raw_text : string;
  chunks : list Chunk;
  aggregated_score : option Q;
  rank : option Z
}.

Record Document := mkDocument {
  filename : string;
  sections : list nat
}.

(** The object store: section reference -> section object. *)
Abbreviation Store := (gmap nat DocSection).

(** Attribute writes. *)
Definition set_similarity_score (v : Q) (c : Chunk) : Chunk :=
  mkChunk (text c) (chunk_source_doc_name c) (source_section_title c)
          (embedding c) (Some v).

Definition set_chunks (cs : list Chunk) (s : DocSection) : DocSection :=
  mkSection (title s) (page_number s) (source_doc_name s) (raw_text s)
            cs (aggregated_score s) (rank s).

Definition set_aggregated_score (v : Q) (s : DocSection) : DocSection :=
  mkSection (title s) (page_number s) (source_doc_name s) (raw_text s)
            (chunks s) (Some v) (rank s).

Definition set_rank (v : Z) (s : DocSection) : DocSection :=
  mkSection (title s) (page_number s) (source_doc_name s) (raw_text s)
            (chunks s) (aggregated_score s) (Some v).

(** ** Python and numpy primitives used by the engine *)

Inductive PyError :=
| ValueError    (* np.dot: shapes not aligned *)
| TypeError     (* arithmetic or comparison on None *)
| IndexError    (* list index out of range *)
| DanglingRef.  (* a reference outside the store; no Python run has one *)

(** [l[:n]] *)
Definition py_slice_to {A} (n : Z) (l : list A) : list A :=
  if 0 <=? n then take (Z.to_nat n) l
  else take (length l - Z.to_nat (- n))%nat l.

(** [enumerate(l, start)] and [enumerate(l)] *)
Fixpoint enumerate_from {A} (start : nat) (l : list A) : list (nat * A) :=
  match l with
  | [] => []
  | x :: l' => (start, x) :: enumerate_from (S start) l'
  end.

Definition enumerate {A} (l : list A) : list (nat * A) :=
  enumerate_from 0 l.

Definition Qsum (l : list Q) : Q := fold_left Qplus l 0%Q.

(** [np.dot] on two one-dimensional arrays. *)
Definition dot (u v : list Q) : Q :=
  Qsum (zip_with Qmult u v).

Definition np_dot (e : option (list Q)) (query : list Q) : PyError + Q :=
  match e with
  | None => inl TypeError
  | Some u =>
      if (length u =? length query)%nat then inr (dot u query)
      else inl ValueError
  end.

(** [np.mean] on a list of scores; a [None] among them is a TypeError.
    This is the exact mean, which [np.mean] rounds to a float: statements
    about it are statements about the operation performed, not about the
    last binary digit of the result. *)
Definition np_mean (l : list (option Q)) : PyError + Q :=
  match mapM id l with
  | Some qs => inr (Qsum qs / inject_Z (Z.of_nat (length qs)))%Q
  | None => inl TypeError
  end.

(** Stable descending sort on decorated items (key first).  An item is
    placed before the first item of the sorted tail whose key is not
    larger, so items with equal keys keep their order. *)
Fixpoint insert_desc {A} (x : Q * A) (l : list (Q * A)) : list (Q * A) :=
  match l with
  | [] => [x]
  | y :: l' =>
      if Qle_bool (fst y) (fst x) then x :: y :: l'
      else y :: insert_desc x l'
  end.

Fixpoint sort_desc {A} (l : list (Q * A)) : list (Q * A) :=
  match l with
  | [] => []
  | x :: l' => insert_desc x (sort_desc l')
  end.

Definition decorate {A} (key : A -> option Q) (x : A) : option (Q * A) :=
  match key x with
  | Some k => Some (k, x)
  | None => None
  end.

(** [sorted(l, key=key, reverse=True)].  With two or more items every item
    takes part in a comparison, and comparing with [None] raises; with at
    most one item nothing is compared. *)
Definition py_sorted_reverse {A} (key : A -> option Q) (l : list A)
  : PyError + list A :=
  match l with
  | [] | [_] => inr l
  | _ =>
      match mapM (decorate key) l with
      | Some kl => inr (map snd (sort_desc kl))
      | None => inl TypeError
      end
  end.

(** Nearest integer, ties to the even one. *)
Definition round_half_even (x : Q) : Z :=
  let n := Qnum x in
  let d := Z.pos (Qden x) in
  let fl := n / d in
  let r2 := 2 * (n mod d) in
  if r2 <? d then fl
  else if d <? r2 then fl + 1
  else if Z.even fl then fl else fl + 1.

(** [round(x, ndigits)] *)
Definition py_round (x : option Q) (ndigits : positive) : PyError + Q :=
  match x with
  | None => inl TypeError
  | Some q =>
      let scale := Pos.pow 10 ndigits in
      inr (round_half_even (q * inject_Z (Z.pos scale)) # scale)%Q
  end.

(** ** The state-and-exception monad of the engine *)

Definition M (A : Type) : Type := Store -> (PyError + A) * Store.

Definition ret {A} (a : A) : M A := fun st => (inr a, st).

Definition raise {A} (e : PyError) : M A := fun st => (inl e, st).

Definition bind {A B} (m : M A) (k : A -> M B) : M B :=
  fun st =>
    match m st with
    | (inl e, st') => (inl e, st')
    | (inr a, st') => k a st'
    end.

Notation "x <- m ;; k" := (bind m (fun x => k))
  (at level 100, m at next level, right associativity).
Notation "m ;;; k" := (bind m (fun _ => k))
  (at level 100, right associativity).

Definition lift {A} (r : PyError + A) : M A :=
  match r with
  | inl e => raise e
  | inr a => ret a
  end.

Definition get_store : M Store := fun st => (inr st, st).

Definition get_section (r : nat) : M DocSection :=
  fun st =>
    match st !! r with
    | Some s => (inr s, st)
    | None => (inl DanglingRef, st)
    end.

Definition update_section (r : nat) (f : DocSection -> DocSection) : M unit :=
  fun st =>
    match st !! r with
    | Some s => (inr tt, <[r := f s]> st)
    | None => (inl DanglingRef, st)
    end.

(** [for x in l: body(x)] *)
Fixpoint for_each {A} (l : list A) (body : A -> M unit) : M unit :=
  match l with
  | [] => ret tt
  | x :: l' => body x ;;; for_each l' body
  end.

(** ** The ranking engine ([core/ranking_engine.py]) *)

Record RankingEngine := mkRankingEngine {
  top_k_chunks : Z;
  top_n_sections_for_analysis : Z
}.

(** The dictionary appended by [perform_sub_section_analysis]. *)
Record AnalysisRecord := mkAnalysisRecord {
  source_document : string;
  section_title : string;
  importance_rank : option Z;
  refined_text_snippet : string;
  snippet_relevance_score : Q
}.

Definition _get_all_sections (all_docs : list Document) : list nat :=
  flat_map sections all_docs.

(** Body of the inner loop of [_score_all_chunks] for the chunk at
    position [fst ic] of section [r]. *)
Definition score_chunk (query_embedding : list Q) (r : nat)
    (ic : nat * Chunk) : M unit :=
  score <- lift (np_dot (embedding (snd ic)) query_embedding) ;;
  update_section r (fun s =>
    set_chunks (alter (set_similarity_score score) (fst ic) (chunks s)) s).

Definition _score_all_chunks (all_sections : list nat)
    (query_embedding : list Q) : M unit :=
  for_each all_sections (fun r =>
    section <- get_section r ;;
    for_each (enumerate (chunks section)) (score_chunk query_embedding r)).

(** Body of the loop of [_aggregate_section_scores]. *)
Definition aggregate_section (self : RankingEngine) (r : nat) : M unit :=
  section <- get_section r ;;
  match chunks section with
  | [] => update_section r (set_aggregated_score 0)
  | _ =>
      let chunk_scores := map similarity_score (chunks section) in
      let num_chunks_to_consider :=
        Z.min (top_k_chunks self) (Z.of_nat (length chunk_scores)) in
      sorted_scores <- lift (py_sorted_reverse id chunk_scores) ;;
      let top_k_scores := py_slice_to num_chunks_to_consider sorted_scores in
      match top_k_scores with
      | [] => update_section r (set_aggregated_score 0)
      | _ =>
          mean <- lift (np_mean top_k_scores) ;;
          update_section r (set_aggregated_score mean)
      end
  end.

Definition _aggregate_section_scores (self : RankingEngine)
    (all_sections : list nat) : M unit :=
  for_each all_sections (aggregate_section self).

(** [s.aggregated_score] read through the reference [r]. *)
Definition aggregated_score_of (st : Store) (r : nat) : option Q :=
  st !! r ≫= aggregated_score.

(** Body of the rank-assignment loop: [section.rank = i + 1]. *)
Definition assign_rank (isec : nat * nat) : M unit :=
  update_section (snd isec) (set_rank (Z.of_nat (fst isec) + 1)).

Definition rank_sections_globally (self : RankingEngine)
    (all_docs : list Document) (query_embedding : list Q) : M (list nat) :=
  let all_sections := _get_all_sections all_docs in
  _score_all_chunks all_sections query_embedding ;;;
  _aggregate_section_scores self all_sections ;;;
  st <- get_store ;;
  let scored_sections :=
    filter (fun r => is_Some (aggregated_score_of st r)) all_sections in
  sorted_sections <-
    lift (py_sorted_reverse (aggregated_score_of st) scored_sections) ;;
  for_each (enumerate sorted_sections) assign_rank ;;;
  ret sorted_sections.

(** The loop of [perform_sub_section_analysis]; the records are returned in
    the order in which the source appends them. *)
Fixpoint analysis_loop (sections_for_analysis : list nat)
  : M (list AnalysisRecord) :=
  match sections_for_analysis with
  | [] => ret []
  | r :: rest =>
      section <- get_section r ;;
      match chunks section with
      | [] => analysis_loop rest
      | _ =>
          sorted_chunks <-
            lift (py_sorted_reverse similarity_score (chunks section)) ;;
          match sorted_chunks with
          | [] => raise IndexError
          | top_chunk :: _ =>
              score <- lift (py_round (similarity_score top_chunk) 4) ;;
              analysis_results <- analysis_loop rest ;;
              ret (mkAnalysisRecord (source_doc_name section) (title section)
                     (rank section) (text top_chunk) score
                   :: analysis_results)
          end
      end
  end.

Definition perform_sub_section_analysis (self : RankingEngine)
    (ranked_sections : list nat) : M (list AnalysisRecord) :=
  analysis_loop
    (py_slice_to (top_n_sections_for_analysis self) ranked_sections).

(** ** The page lookup of [OutputBuilder.build] ([core/output_builder.py]) *)

(** [l[i]] *)
Definition py_getitem {A} (l : list A) (i : Z) : PyError + A :=
  let j := if 0 <=? i then i else Z.of_nat (length l) + i in
  if j <? 0 then inl IndexError
  else match l !! Z.to_nat j with
       | Some x => inr x
       | None => inl IndexError
       end.

(** [ranked_sections[analysis["importance_rank"] - 1].page_number] *)
Definition analysis_page_number (ranked_sections : list nat)
    (analysis : AnalysisRecord) : M Z :=
  match importance_rank analysis with
  | None => raise TypeError
  | Some k =>
      r <- lift (py_getitem ranked_sections (k - 1)) ;;
      section <- get_section r ;;
      ret (page_number section)
  end.

(** * Derived notions

    Summaries of what the loops of the engine compute, and the predicates
    in which the properties below are stated. *)

(** ** Order and keys of decorated items *)

(** [desc x y]: [x] may stand before [y] in a descending list. *)
Definition desc {A} (x y : Q * A) : Prop := (fst y <= fst x)%Q.

(** [key_is v x]: the key of the decorated item [x] is [v]. *)
Definition key_is {A} (v : Q) (x : Q * A) : bool := Qeq_bool (fst x) v.

(** ** What the scoring and aggregation loops compute *)

(** [apply_to f rs st]: the store in which every section referenced from
    [rs] has been rewritten by [f]. *)
Definition apply_to (f : DocSection → DocSection) (rs : list nat)
    (st : Store) : Store :=
  map_imap (λ r s, Some (if bool_decide (r ∈ rs) then f s else s)) st.

(** What [_score_all_chunks] leaves in a chunk and in a section when every
    dot product is defined. *)
Definition rescored (q : list Q) (c : Chunk) : Chunk :=
  match np_dot (embedding c) q with
  | inr v => set_similarity_score v c
  | inl _ => c
  end.

(** The section after the inner loop of [_score_all_chunks] has run over
    its chunks. *)
Definition rescore_section (q : list Q) (s : DocSection) : DocSection :=
  set_chunks (map (rescored q) (chunks s)) s.

(** [aligned q c]: the chunk carries a vector of the query's length. *)
Definition aligned (q : list Q) (c : Chunk) : Prop :=
  ∃ u, embedding c = Some u ∧ length u = length q.

(** Every chunk of the section carries a vector of the query's length. *)
Definition section_aligned (q : list Q) (s : DocSection) : Prop :=
  Forall (aligned q) (chunks s).

(** [sorted(chunk_scores, reverse=True)] on scores that are all assigned. *)
Definition sorted_scores (qs : list Q) : list Q :=
  map snd (sort_desc (map (λ q, (q, q)) qs)).

(** The value [aggregate_section] writes for a section whose chunk scores
    are [qs]. *)
Definition mean_top_k (K : Z) (qs : list Q) : Q :=
  match qs with
  | [] => 0%Q
  | _ =>
      let top :=
        py_slice_to (Z.min K (Z.of_nat (length qs))) (sorted_scores qs) in
      match top with
      | [] => 0%Q
      | _ => (Qsum top / inject_Z (Z.of_nat (length top)))%Q
      end
  end.

(** The assigned chunk scores of a section, in chunk order. *)
Definition scores_of (s : DocSection) : list Q :=
  omap similarity_score (chunks s).

(** Every chunk of the section has a similarity score. *)
Definition section_scored (s : DocSection) : Prop :=
  Forall (λ c, is_Some (similarity_score c)) (chunks s).

(** The section after [aggregate_section] has run on it. *)
Definition aggregated (self : RankingEngine) (s : DocSection) : DocSection :=
  set_aggregated_score (mean_top_k (top_k_chunks self) (scores_of s)) s.

(** ** Sorting by a key

    [sorted(l, key=f, reverse=True)] when every key is a number. *)

Definition sorted_by {A} (f : A → Q) (l : list A) : list A :=
  map snd (sort_desc (map (λ x, (f x, x)) l)).

(** A decorated list is coherent when each key is the key of its item. *)
Definition coherent {A} (f : A → Q) (kl : list (Q * A)) : Prop :=
  Forall (λ p, fst p = f (snd p)) kl.

(** ** The mean of the largest scores *)

Definition arithmetic_mean (l : list Q) : Q :=
  (fold_right Qplus 0 l / inject_Z (Z.of_nat (length l)))%Q.

(** [top] holds [n] largest elements of [qs]. *)
Definition largest (n : nat) (qs top : list Q) : Prop :=
  ∃ rest, qs ≡ₚ top ++ rest ∧ length top = n ∧
          ∀ x y, x ∈ top → y ∈ rest → (y <= x)%Q.

(** ** What the rank-assignment loop computes *)

(** Position of the last occurrence of [r] in [l]: the position whose
    write to [rank] is the one that stays. *)
Fixpoint last_index (r : nat) (l : list nat) : option nat :=
  match l with
  | [] => None
  | x :: l' =>
      match last_index r l' with
      | Some i => Some (S i)
      | None => if decide (x = r) then Some 0%nat else None
      end
  end.

(** The section behind [r] after the rank loop has run over
    [enumerate(l, start)]. *)
Definition ranked_at (start : nat) (l : list nat) (r : nat)
    (s : DocSection) : DocSection :=
  match last_index r l with
  | Some i => set_rank (Z.of_nat (start + i) + 1) s
  | None => s
  end.

Definition rank_store (start : nat) (l : list nat) (st : Store) : Store :=
  map_imap (λ r s, Some (ranked_at start l r s)) st.

(** ** Summary of a successful run of [rank_sections_globally] *)

(** Every referenced section exists and every chunk in it carries a vector
    of the query's length. *)
Definition inputs_ok (q : list Q) (rs : list nat) (st : Store) : Prop :=
  Forall (λ r, ∃ s, st !! r = Some s ∧ section_aligned q s) rs.

(** The sort key of a scored section. *)
Definition score_key (st : Store) (r : nat) : Q :=
  default 0%Q (aggregated_score_of st r).

(** The store after scoring and aggregation, the returned list, and the
    store returned with it. *)
Definition aggregated_store (self : RankingEngine) (q : list Q)
    (rs : list nat) (st : Store) : Store :=
  apply_to (aggregated self) rs (apply_to (rescore_section q) rs st).

Definition ranking (self : RankingEngine) (q : list Q) (rs : list nat)
    (st : Store) : list nat :=
  sorted_by (score_key (aggregated_store self q rs st)) rs.

Definition ranked_store (self : RankingEngine) (q : list Q) (rs : list nat)
    (st : Store) : Store :=
  rank_store 0 (ranking self q rs st) (aggregated_store self q rs st).

(** [score_is st v r]: the section behind [r] has aggregated score [v]. *)
Definition score_is (st : Store) (v : Q) (r : nat) : bool :=
  match aggregated_score_of st r with
  | Some a => Qeq_bool a v
  | None => false
  end.

(** [rank_of st r]: [section.rank] read through the reference [r]. *)
Definition rank_of (st : Store) (r : nat) : option Z := st !! r ≫= rank.

(** ** What the sub-section analysis computes, and what its records are *)

(** The sort key of a scored chunk. *)
Definition chunk_key (c : Chunk) : Q := default 0%Q (similarity_score c).

(** [round(x, 4)] on a number. *)
Definition round4 (x : Q) : Q :=
  (round_half_even (x * inject_Z 10000) # 10000)%Q.

Definition record_of (s : DocSection) (top_chunk : Chunk) : AnalysisRecord :=
  mkAnalysisRecord (source_doc_name s) (title s) (rank s) (text top_chunk)
    (round4 (chunk_key top_chunk)).

(** The record appended for the section behind [r], if any. *)
Definition analysis_record (st : Store) (r : nat) : option AnalysisRecord :=
  s ← st !! r;
  top_chunk ← head (sorted_by chunk_key (chunks s));
  Some (record_of s top_chunk).

Definition analysis_records (st : Store) (l : list nat)
  : list AnalysisRecord :=
  omap (analysis_record st) l.

(** Every listed section exists and all its chunks are scored. *)
Definition sections_scored (l : list nat) (st : Store) : Prop :=
  Forall (λ r, ∃ s, st !! r = Some s ∧ section_scored s) l.

(** [r] is [x] rounded to four decimal places. *)
Definition rounded_to_4dp (x r : Q) : Prop :=
  (∃ z : Z, r = (z # 10000)%Q) ∧ (Qabs (r - x) <= 1 # 20000)%Q.

(** The section behind [r] has at least one chunk. *)
Definition has_chunks (st : Store) (r : nat) : bool :=
  match st !! r with
  | Some s => match chunks s with [] => false | _ => true end
  | None => false
  end.

(** [c] is the highest-scoring chunk of [cs], the earliest one among
    those with the highest score. *)
Definition best_chunk (cs : list Chunk) (c : Chunk) : Prop :=
  ∃ j v, cs !! j = Some c ∧ similarity_score c = Some v ∧
    (∀ k c', cs !! k = Some c' →
       ∃ v', similarity_score c' = Some v' ∧ (v' <= v)%Q) ∧
    (∀ k c', (k < j)%nat → cs !! k = Some c' →
       ∃ v', similarity_score c' = Some v' ∧ (v' < v)%Q).

(** [rec] is the analysis record of the section behind [r]. *)
Definition record_for (st : Store) (r : nat) (rec : AnalysisRecord) : Prop :=
  ∃ s c v, st !! r = Some s ∧ best_chunk (chunks s) c ∧
    similarity_score c = Some v ∧
    source_document rec = source_doc_name s ∧
    section_title rec = title s ∧
    importance_rank rec = rank s ∧
    refined_text_snippet rec = text c ∧
    rounded_to_4dp v (snippet_relevance_score rec).

(** The rank in record [a] is smaller than the rank in record [b]. *)
Definition rank_before (a b : AnalysisRecord) : Prop :=
  ∃ ka kb, importance_rank a = Some ka ∧ importance_rank b = Some kb ∧ ka < kb.

(** ** The fields a run may write *)

(** A chunk with its score blanked, a section with the scores of its
    chunks blanked, and a section with all three mutable fields blanked. *)
Definition blank_chunk (c : Chunk) : Chunk :=
  mkChunk (text c) (chunk_source_doc_name c) (source_section_title c)
          (embedding c) None.

Definition unscore_chunks (s : DocSection) : DocSection :=
  set_chunks (map blank_chunk (chunks s)) s.

Definition blank_section (s : DocSection) : DocSection :=
  mkSection (title s) (page_number s) (source_doc_name s) (raw_text s)
            (map blank_chunk (chunks s)) None None.

(** [preserves E m]: whatever [m] does, and whether or not it fails, the
    store seen through [E] is the same afterwards. *)
Definition preserves (E : DocSection → DocSection) {A} (m : M A) : Prop :=
  ∀ st : Store, E <$> snd (m st) = E <$> st.

(** [c'] differs from [c] at most in [similarity_score]. *)
Definition chunk_frame (c c' : Chunk) : Prop :=
  text c' = text c ∧ embedding c' = embedding c ∧
  chunk_source_doc_name c' = chunk_source_doc_name c ∧
  source_section_title c' = source_section_title c.

(** [s'] differs from [s] at most in [aggregated_score], in [rank] and in
    the [similarity_score] of its chunks; its chunk list has the same
    chunks in the same order. *)
Definition section_frame (s s' : DocSection) : Prop :=
  title s' = title s ∧ page_number s' = page_number s ∧
  source_doc_name s' = source_doc_name s ∧ raw_text s' = raw_text s ∧
  Forall2 chunk_frame (chunks s) (chunks s').

Definition store_frame (st st' : Store) : Prop :=
  ∀ r, match st !! r, st' !! r with
       | Some s, Some s' => section_frame s s'
       | None, None => True
       | _, _ => False
       end.

(** ** A query of the wrong length *)

Definition has_vector (c : Chunk) : Prop := is_Some (embedding c).

#[local] Instance aligned_dec q c : Decision (aligned q c).
Proof.
  unfold aligned. destruct (embedding c) as [u|].
  - destruct (decide (length u = length q)) as [Hl|Hl].
    + left. by exists u.
    + right. intros (u' & [= <-] & ?). done.
  - right. by intros (u' & ? & ?).
Defined.

(** Every listed section exists and every chunk in it carries a vector. *)
Definition sections_have_vectors (rs : list nat) (st : Store) : Prop :=
  Forall (λ r, ∃ s, st !! r = Some s ∧ Forall has_vector (chunks s)) rs.

(** [section_scores_kept s s']: nothing but the [similarity_score] of
    chunks distinguishes [s'] from [s]. *)
Definition section_scores_kept (s s' : DocSection) : Prop :=
  aggregated_score s' = aggregated_score s ∧ rank s' = rank s ∧
  section_frame s s'.

Definition only_chunk_scores_written (st st' : Store) : Prop :=
  ∀ r, match st !! r, st' !! r with
       | Some s, Some s' => section_scores_kept s s'
       | None, None => True
       | _, _ => False
       end.

(** The query has a length other than that of some chunk's vector. *)
Definition dimension_mismatch (q : list Q) (rs : list nat) (st : Store)
  : Prop :=
  Exists (λ r, ∃ s c u, st !! r = Some s ∧ c ∈ chunks s ∧
                        embedding c = Some u ∧ length u ≠ length q) rs.

(** The chunk at which the scoring loop stops: the listed sections are
    [before ++ r :: after], every chunk of the sections in [before] has a
    vector of the query's length, and the chunks of the section [s] behind
    [r] are [visited ++ c :: rest], where the chunks in [visited] have a
    vector of the query's length and [c] has not. *)
Definition first_mismatch (q : list Q) (rs : list nat) (st : Store)
    (before : list nat) (r : nat) (s : DocSection)
    (visited : list Chunk) (c : Chunk) (rest : list Chunk) : Prop :=
  (∃ after, rs = before ++ r :: after) ∧
  Forall (λ r', ∃ s', st !! r' = Some s' ∧ section_aligned q s') before ∧
  st !! r = Some s ∧ chunks s = visited ++ c :: rest ∧
  Forall (aligned q) visited ∧ ¬ aligned q c.

(** The loop reaches no chunk before the one it stops at: the sections in
    [before] have no chunk, and [c] is the first chunk of its section. *)
Definition nothing_visited (st : Store) (before : list nat)
    (visited : list Chunk) : Prop :=
  Forall (λ r', ∀ s', st !! r' = Some s' → chunks s' = []) before ∧
  visited = [].

(** The scores of the section behind [r]: aggregated score, rank, and the
    similarity scores of the chunks. *)
Definition scores_at (st : Store) (r : nat)
  : option (option Q * option Z * list (option Q)) :=
  (λ s, (aggregated_score s, rank s, map similarity_score (chunks s)))
    <$> st !! r.

(** C4 as stated: the call fails and leaves every score as it was. *)
Definition fails_leaving_scores (self : RankingEngine)
    (docs : list Document) (q : list Q) (st : Store) : Prop :=
  ∃ e (st' : Store),
    rank_sections_globally self docs q st = (inl e, st') ∧
    ∀ r, scores_at st' r = scores_at st r.

(** ** Same inputs *)

(** Two stores hold the same inputs when they agree on everything but the
    three fields a run writes. *)
Definition same_inputs (st1 st2 : Store) : Prop :=
  blank_section <$> st1 = blank_section <$> st2.

(** * Running examples *)

Module Examples.

Definition chunk_with (t : string) (e : list Q) : Chunk :=
  mkChunk t "doc" "sec" (Some e) None.

Definition scored_chunk (t : string) (v : Q) : Chunk :=
  mkChunk t "doc" "sec" (Some [v]) (Some v).

Definition section_of (t : string) (cs : list Chunk) : DocSection :=
  mkSection t 1 "doc" "" cs None None.

Definition default_engine : RankingEngine := mkRankingEngine 3 5.

(** The end-to-end scenario of the specification. *)
Definition st_two : Store :=
  {[ 0%nat := section_of "A" [chunk_with "a1" [9 # 10]; chunk_with "a2" [2 # 10]]%Q;
     1%nat := section_of "B" [chunk_with "b1" [6 # 10]]%Q ]}.

Definition docs_two : list Document :=
  [mkDocument "A.pdf" [0%nat]; mkDocument "B.pdf" [1%nat]].

(** Two documents that hold the same section object. *)
Definition docs_shared : list Document :=
  [mkDocument "A.pdf" [0%nat]; mkDocument "A-again.pdf" [0%nat]].

(** A section whose chunks already carry the scores 0.9, 0.8, 0.5, 0.1. *)
Definition st_scored : Store :=
  {[ 0%nat := section_of "A"
       [scored_chunk "a" (9 # 10); scored_chunk "b" (8 # 10);
        scored_chunk "c" (5 # 10); scored_chunk "d" (1 # 10)]%Q ]}.

Definition engine_k3 : RankingEngine := mkRankingEngine 3 5.

(** One section with a chunk and one without. *)
Definition st_with_empty : Store :=
  {[ 0%nat := section_of "E" [];
     1%nat := section_of "A" [chunk_with "a" [6 # 10]%Q] ]}.

Definition docs_with_empty : list Document :=
  [mkDocument "E.pdf" [0%nat]; mkDocument "A.pdf" [1%nat]].

(** A ranked list of three sections: chunk scores 0.3, 0.95, 0.6 in the
    first, no chunk in the second, one chunk in the third. *)
Definition st_ranked : Store :=
  {[ 0%nat := mkSection "A" 1 "doc" ""
       [scored_chunk "a1" (3 # 10); scored_chunk "a2" (95 # 100);
        scored_chunk "a3" (6 # 10)]%Q (Some (185 # 300)%Q) (Some 1);
     1%nat := mkSection "B" 2 "doc" "" [] (Some 0%Q) (Some 2);
     2%nat := mkSection "C" 3 "doc" "" [scored_chunk "c1" (-1 # 10)%Q]
       (Some (-1 # 10)%Q) (Some 3) ]}.

Definition ranked : list nat := [0; 1; 2]%nat.

(** One section, two chunks: a vector of length 1 and one of length 2,
    ranked against a query of length 1. *)
Definition st_mismatch : Store :=
  {[ 0%nat := section_of "A"
       [chunk_with "a1" [1]%Q; chunk_with "a2" [1; 1]%Q] ]}.

Definition docs_mismatch : list Document := [mkDocument "A.pdf" [0%nat]].

(** The inputs of [st_two] on objects that carry scores and ranks of some
    earlier run. *)
Definition st_two_stale : Store :=
  {[ 0%nat := mkSection "A" 1 "doc" ""
       [mkChunk "a1" "doc" "sec" (Some [9 # 10]%Q) (Some 7%Q);
        mkChunk "a2" "doc" "sec" (Some [2 # 10]%Q) None]
       (Some 4%Q) (Some 9);
     1%nat := mkSection "B" 1 "doc" ""
       [mkChunk "b1" "doc" "sec" (Some [6 # 10]%Q) (Some (-1)%Q)]
       None (Some 1) ]}.

End Examples.

(** * The stages around the ranking engine

    The parser ([core/document_parser.py]), the chunking and embedding stage
    ([core/embedding_engine.py]) and the output builder
    ([core/output_builder.py]).  PyMuPDF, NLTK and the sentence-transformer
    model are outside the repository: an opened PDF is the table of contents
    and the page texts PyMuPDF hands out, and the sentence tokenizer and the
    encoder are parameters.  A character of a text stands for the code point
    of the same number, so texts range over the code points below 256. *)

(** ** Python strings *)

Definition newline : ascii := ascii_of_N 10.

Definition is_newline (c : ascii) : bool := (N_of_ascii c =? 10)%N.

Definition is_slash (c : ascii) : bool := (N_of_ascii c =? 47)%N.

(** [c.isspace()]: the code points below 256 that [str.strip] removes are
    9 to 13, 28 to 32, 133 and 160. *)
Definition py_isspace (c : ascii) : bool :=
  let n := N_of_ascii c in
  ((9 <=? n) && (n <=? 13) || (28 <=? n) && (n <=? 32)
   || (n =? 133) || (n =? 160))%N.

Fixpoint py_lstrip (s : string) : string :=
  match s with
  | EmptyString => EmptyString
  | String c s' => if py_isspace c then py_lstrip s' else s
  end.

Fixpoint py_rstrip (s : string) : string :=
  match s with
  | EmptyString => EmptyString
  | String c s' =>
      match py_rstrip s' with
      | EmptyString => if py_isspace c then EmptyString else String c EmptyString
      | t => String c t
      end
  end.

(** [s.strip()] *)
Definition py_strip (s : string) : string := py_lstrip (py_rstrip s).

(** The text does not begin with a whitespace character. *)
Definition starts_clean (s : string) : Prop :=
  match s with
  | EmptyString => True
  | String c _ => py_isspace c = false
  end.

(** The text does not end with a whitespace character. *)
Fixpoint ends_clean (s : string) : Prop :=
  match s with
  | EmptyString => True
  | String c EmptyString => py_isspace c = false
  | String _ s' => ends_clean s'
  end.

(** No newline of the text is followed by a newline. *)
Fixpoint no_double_newline (s : string) : Prop :=
  match s with
  | EmptyString => True
  | String c s' =>
      match s' with
      | String c' _ =>
          is_newline c && is_newline c' = false ∧ no_double_newline s'
      | EmptyString => True
      end
  end.

(** Every character of the text is whitespace. *)
Fixpoint all_space (s : string) : bool :=
  match s with
  | EmptyString => true
  | String c s' => py_isspace c && all_space s'
  end.

(** [re.sub(r'\n+', '\n', s)]: of every run of newlines the last one is
    kept. *)
Fixpoint re_sub_newlines (s : string) : string :=
  match s with
  | EmptyString => EmptyString
  | String c s' =>
      match s' with
      | String c' _ =>
          if is_newline c && is_newline c' then re_sub_newlines s'
          else String c (re_sub_newlines s')
      | EmptyString => String c EmptyString
      end
  end.

(** Put [c] in front of the first piece of a split. *)
Definition cons_head (c : ascii) (pieces : list string) : list string :=
  match pieces with
  | [] => [String c EmptyString]
  | p :: pieces' => String c p :: pieces'
  end.

(** [s.split('\n\n')]: the separators are found from the left and do not
    overlap. *)
Fixpoint py_split_nn (s : string) : list string :=
  match s with
  | EmptyString => [EmptyString]
  | String c s' =>
      match s' with
      | String c' s'' =>
          if is_newline c && is_newline c' then EmptyString :: py_split_nn s''
          else cons_head c (py_split_nn s')
      | EmptyString => [String c EmptyString]
      end
  end.

(** [sep.join(parts)] *)
Fixpoint py_join (sep : string) (parts : list string) : string :=
  match parts with
  | [] => EmptyString
  | [p] => p
  | p :: parts' => p +:+ sep +:+ py_join sep parts'
  end.

Fixpoint has_slash (p : string) : bool :=
  match p with
  | EmptyString => false
  | String c p' => is_slash c || has_slash p'
  end.

(** [os.path.basename(p)] of [posixpath]: what follows the last slash. *)
Fixpoint basename (p : string) : string :=
  match p with
  | EmptyString => EmptyString
  | String c p' =>
      if has_slash p' then basename p'
      else if is_slash c then p' else p
  end.

Fixpoint ends_with_slash (p : string) : bool :=
  match p with
  | EmptyString => false
  | String c EmptyString => is_slash c
  | String _ p' => ends_with_slash p'
  end.

(** [os.path.join(a, b)] of [posixpath]. *)
Definition os_path_join (a b : string) : string :=
  match b with
  | String c _ =>
      if is_slash c then b
      else if (if a is EmptyString then true else ends_with_slash a)
           then a +:+ b else a +:+ "/" +:+ b
  | EmptyString =>
      if (if a is EmptyString then true else ends_with_slash a)
      then a else a +:+ "/"
  end.

(** [range(a, b)] *)
Definition py_range (a b : Z) : list Z :=
  (λ i, a + Z.of_nat i) <$> seq 0 (Z.to_nat (b - a)).

(** ** More of the store: object creation and one more attribute write *)

Definition set_raw_text (t : string) (s : DocSection) : DocSection :=
  mkSection (title s) (page_number s) (source_doc_name s) t
            (chunks s) (aggregated_score s) (rank s).

(** A reference no object of the store has. *)
Definition fresh_ref (st : Store) : nat :=
  S (max_list (fst <$> map_to_list st)).

(** [Section(...)]: a new object, returned by reference. *)
Definition new_section (s : DocSection) : M nat :=
  fun st => (inr (fresh_ref st), <[fresh_ref st := s]> st).

(** [result = []; for x in l: result.append(body(x))] *)
Fixpoint for_collect {A B} (l : list A) (body : A -> M B) : M (list B) :=
  match l with
  | [] => ret []
  | x :: l' =>
      y <- body x ;;
      ys <- for_collect l' body ;;
      ret (y :: ys)
  end.

(** ** The parser ([core/document_parser.py]) *)

(** What PyMuPDF hands out for an opened PDF: [doc.get_toc()] as
    (level, title, page) entries, and the text of each page. *)
Record PdfDoc := mkPdfDoc {
  get_toc : list (Z * string * Z);
  page_texts : list string
}.

Record DocumentParser := mkDocumentParser {
  pdf_path : string;
  parser_filename : string
}.

(** [DocumentParser(pdf_path)] for a path that exists. *)
Definition DocumentParser_init (path : string) : DocumentParser :=
  mkDocumentParser path (basename path).

(** [doc.load_page(page_num).get_text("text")] *)
Definition load_page_text (doc : PdfDoc) (page_num : Z) : PyError + string :=
  let n := Z.of_nat (length (page_texts doc)) in
  let j := if 0 <=? page_num then page_num else n + page_num in
  if (j <? 0) || (n <=? j) then inl ValueError
  else match page_texts doc !! Z.to_nat j with
       | Some t => inr t
       | None => inl ValueError
       end.

Definition _extract_sections_from_toc (self : DocumentParser) (doc : PdfDoc)
  : M (list nat) :=
  match get_toc doc with
  | [] => ret []
  | toc =>
      for_collect toc (fun entry =>
        new_section (mkSection (py_strip (snd (fst entry))) (snd entry)
                       (parser_filename self) EmptyString [] None None))
  end.

Definition _extract_sections_by_page (self : DocumentParser) (doc : PdfDoc)
  : M (list nat) :=
  for_collect (seq 0 (length (page_texts doc))) (fun i =>
    let page_num := Z.of_nat i + 1 in
    new_section (mkSection ("Page " +:+ pretty page_num) page_num
                   (parser_filename self) EmptyString [] None None)).

(** Body of the loop of [_populate_sections_with_text]. *)
Definition populate_section (doc : PdfDoc) (sections : list nat)
    (isec : nat * nat) : M unit :=
  let num_pages := Z.of_nat (length (page_texts doc)) in
  section <- get_section (snd isec) ;;
  let start_page := page_number section - 1 in
  end_page <-
    (if (S (fst isec) <? length sections)%nat
     then next_ref <- lift (py_getitem sections (Z.of_nat (fst isec) + 1)) ;;
          next <- get_section next_ref ;;
          ret (page_number next - 1)
     else ret num_pages) ;;
  let start_page := Z.max 0 start_page in
  let end_page := Z.min end_page num_pages in
  text_parts <-
    for_collect (py_range start_page end_page)
      (fun page_num => lift (load_page_text doc page_num)) ;;
  update_section (snd isec)
    (set_raw_text (py_strip (py_join (String newline EmptyString) text_parts))).

Definition _populate_sections_with_text (doc : PdfDoc) (sections : list nat)
  : M unit :=
  match sections with
  | [] => ret tt
  | _ => for_each (enumerate sections) (populate_section doc sections)
  end.

Definition parse (self : DocumentParser) (doc : PdfDoc) : M Document :=
  sections <- _extract_sections_from_toc self doc ;;
  sections <-
    (match sections with
     | [] => _extract_sections_by_page self doc
     | _ => ret sections
     end) ;;
  _populate_sections_with_text doc sections ;;;
  ret (mkDocument (parser_filename self) sections).

(** ** The chunking and embedding stage ([core/embedding_engine.py]) *)

(** [nltk.sent_tokenize] and [self.model.encode(texts,
    normalize_embeddings=True)] as the rows of the array it returns. *)
Record EmbeddingEngine := mkEmbeddingEngine {
  sent_tokenize : string -> list string;
  model_encode : list string -> list (list Q)
}.

(** [[p.strip() for p in text.split('\n\n') if p.strip()]] *)
Definition paragraphs_of (text : string) : list string :=
  omap (fun p => match py_strip p with
                 | EmptyString => None
                 | stripped => Some stripped
                 end)
       (py_split_nn text).

(** The loop of [_chunk_text_with_overlap]: a paragraph that is not the
    last one is followed by the first sentence of the next one. *)
Fixpoint overlap_chunks (self : EmbeddingEngine) (paragraphs : list string)
  : list string :=
  match paragraphs with
  | [] => []
  | para :: rest =>
      (match rest with
       | next_para :: _ =>
           match sent_tokenize self next_para with
           | overlap_sentence :: _ => para +:+ " " +:+ overlap_sentence
           | [] => para
           end
       | [] => para
       end) :: overlap_chunks self rest
  end.

Definition _chunk_text_with_overlap (self : EmbeddingEngine) (text : string)
  : list string :=
  match text with
  | EmptyString => []
  | _ =>
      match paragraphs_of text with
      | [] => []
      | paragraphs => overlap_chunks self paragraphs
      end
  end.

Definition process_section (self : EmbeddingEngine) (r : nat) : M unit :=
  section <- get_section r ;;
  let chunks_text := _chunk_text_with_overlap self (raw_text section) in
  match chunks_text with
  | [] => update_section r (set_chunks [])
  | _ =>
      let embeddings := model_encode self chunks_text in
      update_section r
        (set_chunks
           (zip_with (fun t e =>
                        mkChunk t (source_doc_name section) (title section)
                                (Some e) None)
                     chunks_text embeddings))
  end.

(** ** The pipeline of [main.py] for one PDF: parse, then chunk and embed
    every section ([process_single_pdf]) *)

Definition process_single_pdf (embedder : EmbeddingEngine) (path : string)
    (doc : PdfDoc) : M Document :=
  document <- parse (DocumentParser_init path) doc ;;
  for_each (sections document) (process_section embedder) ;;;
  ret document.

(** ** The output builder ([core/output_builder.py]) *)

Record SystemInput := mkSystemInput {
  pdf_paths : list string;
  persona : string;
  job_to_be_done : string
}.

Module Metadata.
Record t := mk {
  input_documents : list string;
  persona : string;
  job_to_be_done : string
}.
End Metadata.

Module Extracted.
Record t := mk {
  document : string;
  section_title : string;
  importance_rank : option Z;
  page_number : Z
}.
End Extracted.

Module Refined.
Record t := mk {
  document : string;
  refined_text : string;
  page_number : Z
}.
End Refined.

Record FinalOutput := mkFinalOutput {
  metadata : Metadata.t;
  extracted_sections : list Extracted.t;
  sub_section_analysis : list Refined.t
}.

Record OutputBuilder := mkOutputBuilder {
  input_metadata : Metadata.t
}.

Definition OutputBuilder_init (system_input : SystemInput) : OutputBuilder :=
  mkOutputBuilder
    (Metadata.mk (basename <$> pdf_paths system_input)
       (persona system_input) (job_to_be_done system_input)).

(** The text clean-up of [build]. *)
Definition cleaned_text (t : string) : string :=
  py_strip (re_sub_newlines t).

Definition extracted_entry (r : nat) : M Extracted.t :=
  section <- get_section r ;;
  ret (Extracted.mk (source_doc_name section) (title section)
         (rank section) (page_number section)).

Definition refined_entry (ranked_sections : list nat)
    (analysis : AnalysisRecord) : M Refined.t :=
  page <- analysis_page_number ranked_sections analysis ;;
  ret (Refined.mk (source_document analysis)
         (cleaned_text (refined_text_snippet analysis)) page).

Definition build (self : OutputBuilder) (ranked_sections : list nat)
    (analysis : list AnalysisRecord) : M FinalOutput :=
  extracted_sections_list <-
    for_collect (py_slice_to 5 ranked_sections) extracted_entry ;;
  formatted_subsection_analysis <-
    for_collect analysis (refined_entry ranked_sections) ;;
  ret (mkFinalOutput (input_metadata self) extracted_sections_list
         formatted_subsection_analysis).

(** ** Derived notions for the output builder *)

(** The page [analysis_page_number] finds, or the exception it raises. *)
Definition page_lookup (st : Store) (ranked_sections : list nat)
    (analysis : AnalysisRecord) : PyError + Z :=
  match importance_rank analysis with
  | None => inl TypeError
  | Some k =>
      match py_getitem ranked_sections (k - 1) with
      | inl e => inl e
      | inr r =>
          match st !! r with
          | Some s => inr (page_number s)
          | None => inl DanglingRef
          end
      end
  end.

(** The record carries a rank [k] for which [k - 1] indexes a list of
    length [n] (from the front, or from the back when negative). *)
Definition rank_in_range (n : nat) (analysis : AnalysisRecord) : Prop :=
  ∃ k, importance_rank analysis = Some k ∧
       - Z.of_nat n <= k - 1 < Z.of_nat n.

(** The entry of [extracted_sections] made from a section. *)
Definition extracted_of (s : DocSection) : Extracted.t :=
  Extracted.mk (source_doc_name s) (title s) (rank s) (page_number s).

(** Every listed reference has its object in the store. *)
Definition sections_exist (rs : list nat) (st : Store) : Prop :=
  Forall (λ r, is_Some (st !! r)) rs.

(** [e] is the entry of [sub_section_analysis] made from the record
    [rec]: the document and the page of the section the record was made
    from (a section of the ranked list [out]), and the cleaned snippet. *)
Definition refined_for (st : Store) (out : list nat) (rec : AnalysisRecord)
    (e : Refined.t) : Prop :=
  ∃ r s, r ∈ out ∧ st !! r = Some s ∧ analysis_record st r = Some rec ∧
         Refined.document e = source_doc_name s ∧
         Refined.page_number e = page_number s ∧
         Refined.refined_text e = cleaned_text (refined_text_snippet rec).

(** The text has no whitespace at either end and no newline followed by a
    newline. *)
Definition tidy (t : string) : Prop :=
  starts_clean t ∧ ends_clean t ∧ no_double_newline t.

(** ** Derived notions for the parser *)

Definition num_pages (doc : PdfDoc) : Z := Z.of_nat (length (page_texts doc)).

(** The page texts [a], ..., [b - 1], for [0 <= a]. *)
Definition page_slice (doc : PdfDoc) (a b : Z) : list string :=
  take (Z.to_nat (b - a)) (drop (Z.to_nat a) (page_texts doc)).

(** The title and the page number each section is created with: the
    entries of the table of contents, or one entry per page when there is
    no table of contents. *)
Definition parse_entries (doc : PdfDoc) : list (string * Z) :=
  match get_toc doc with
  | [] =>
      (λ i, ("Page " +:+ pretty (Z.of_nat i + 1), Z.of_nat i + 1))
        <$> seq 0 (length (page_texts doc))
  | toc => (λ entry, (py_strip (snd (fst entry)), snd entry)) <$> toc
  end.

(** The text of the [i]-th section when the sections start on the pages
    [starts]: the pages from its own page up to the page before the next
    section's page (up to the last page for the last section), joined by
    newlines and stripped. *)
Definition section_text (doc : PdfDoc) (starts : list Z) (i : nat) : string :=
  match starts !! i with
  | None => EmptyString
  | Some p =>
      let end_page :=
        match starts !! S i with
        | Some p' => p' - 1
        | None => num_pages doc
        end in
      py_strip (py_join (String newline EmptyString)
                  (page_slice doc (Z.max 0 (p - 1))
                     (Z.min end_page (num_pages doc))))
  end.

(** The listed sections exist, with the page numbers [starts]. *)
Definition starts_of (st : Store) (sections : list nat) (starts : list Z)
  : Prop :=
  Forall2 (λ r p, page_number <$> st !! r = Some p) sections starts.

(** The section [parse] makes from the [i]-th entry. *)
Definition parsed_section (self : DocumentParser) (doc : PdfDoc) (i : nat)
    (entry : string * Z) : DocSection :=
  mkSection (fst entry) (snd entry) (parser_filename self)
    (section_text doc (snd <$> parse_entries doc) i) [] None None.

(** [refs] are new objects: pairwise distinct and absent from [st]. *)
Definition fresh_refs (st : Store) (refs : list nat) : Prop :=
  NoDup refs ∧ Forall (λ r, st !! r = None) refs.

(** [st'] is [st] with the objects [objs] added behind [refs], and nothing
    else changed. *)
Definition extends_with (st st' : Store) (refs : list nat)
    (objs : list DocSection) : Prop :=
  Forall2 (λ r s, st' !! r = Some s) refs objs ∧
  ∀ r, r ∉ refs → st' !! r = st !! r.

(** The section made for page [i] (counted from 0) with text [t] when the
    PDF has no table of contents. *)
Definition page_section (self : DocumentParser) (it : nat * string)
  : DocSection :=
  mkSection ("Page " +:+ pretty (Z.of_nat (fst it) + 1))
    (Z.of_nat (fst it) + 1) (parser_filename self) (py_strip (snd it))
    [] None None.

(** ** Derived notions for the chunking and embedding stage *)

(** The text [c] begins with the text [p]. *)
Definition starts_with (p c : string) : Prop := ∃ rest, c = p +:+ rest.

(** The chunks [process_section] makes for a section. *)
Definition embedded_chunks (self : EmbeddingEngine) (s : DocSection)
  : list Chunk :=
  let chunks_text := _chunk_text_with_overlap self (raw_text s) in
  zip_with (λ t e, mkChunk t (source_doc_name s) (title s) (Some e) None)
    chunks_text (model_encode self chunks_text).

(** The section after [process_section] has run on it. *)
Definition embedded (self : EmbeddingEngine) (s : DocSection) : DocSection :=
  set_chunks (embedded_chunks self s) s.

(** Every row the encoder returns has [D] entries. *)
Definition encodes_dim (self : EmbeddingEngine) (D : nat) : Prop :=
  ∀ texts, Forall (λ e, length e = D) (model_encode self texts).

(** The documents [rank_sections_globally] is called with: the results of
    [process_single_pdf] on the PDFs, in the order in which [main.py]
    collects them.  Each call works on the objects it creates itself, so
    the calls are run one after the other on one store. *)
Definition process_pdfs (embedder : EmbeddingEngine)
    (pdfs : list (string * PdfDoc)) : M (list Document) :=
  for_collect pdfs (fun pdf => process_single_pdf embedder (fst pdf) (snd pdf)).

(** ** Derived notions for the edge cases of the ranking engine *)

(** The section behind [r] has chunks, and one of them has no similarity
    score. *)
Definition has_unscored_chunk (st : Store) (r : nat) : Prop :=
  ∃ s, st !! r = Some s ∧ Exists (λ c, similarity_score c = None) (chunks s).

(** ** Running examples for the stages *)

Module Stage_examples.

(** A PDF of two pages whose table of contents has two entries on page 1
    and one on page 2; the second page holds two paragraphs. *)
Definition pdf_with_toc : PdfDoc :=
  mkPdfDoc [(1, " Intro ", 1); (2, "Scope", 1); (1, "Method", 2)]
    ["Intro text";
     "Method one." +:+ String newline (String newline "Method two.")].

(** A PDF of two pages without table of contents. *)
Definition pdf_plain : PdfDoc := mkPdfDoc [] ["  first  "; "second"].

Definition pdfs_two : list (string * PdfDoc) :=
  [("in/a.pdf", pdf_with_toc); ("in/b.pdf", pdf_plain)].

(** A tokenizer that takes a paragraph for one sentence, and an encoder
    with rows of length 2. *)
Definition embedder_2d : EmbeddingEngine :=
  mkEmbeddingEngine (λ para, [para]) (fmap (λ _, [1; 0]%Q)).

Definition builder_two : OutputBuilder :=
  OutputBuilder_init (mkSystemInput ["in/a.pdf"; "in/b.pdf"] "Analyst" "Review").

(** A parsed section that has not been chunked yet. *)
Definition st_parsed : Store :=
  {[ 0%nat := mkSection "A" 1 "a.pdf"
       ("One." +:+ String newline (String newline "Two.")) [] None None ]}.

(** Records for the first and the third section of [Examples.ranked]; the
    snippet of the second ends with two newlines. *)
Definition recs_ranked : list AnalysisRecord :=
  [mkAnalysisRecord "doc" "A" (Some 1) "a2" (95 # 100)%Q;
   mkAnalysisRecord "doc" "C" (Some 3)
     (" c1" +:+ String newline (String newline EmptyString)) (-1 # 10)%Q].

Definition engine_k0 : RankingEngine := mkRankingEngine 0 5.

End Stage_examples.

(** * Properties *)

(** ** Facts about the running examples *)

Module Example_facts.
Import Examples.

Lemma inputs_ok_two : inputs_ok [1%Q] (_get_all_sections docs_two) st_two.
Proof.
  repeat constructor.
  - eexists. split; [reflexivity|]. repeat constructor; by eexists.
  - eexists. split; [reflexivity|]. repeat constructor; by eexists.
Defined.

Lemma inputs_ok_with_empty :
  inputs_ok [1%Q] (_get_all_sections docs_with_empty) st_with_empty.
Proof.
  repeat constructor.
  - eexists. split; [reflexivity|]. constructor.
  - eexists. split; [reflexivity|]. repeat constructor; by eexists.
Defined.

Lemma st_ranked_scored : sections_scored ranked st_ranked.
Proof.
  repeat constructor.
  - eexists. split; [reflexivity|]. repeat constructor; by eexists.
  - eexists. split; [reflexivity|]. constructor.
  - eexists. split; [reflexivity|]. repeat constructor; by eexists.
Defined.

Lemma st_mismatch_vectors :
  sections_have_vectors (_get_all_sections docs_mismatch) st_mismatch.
Proof.
  repeat constructor. eexists. split; [reflexivity|].
  repeat constructor; by eexists.
Defined.

Lemma st_mismatch_mismatch :
  dimension_mismatch [1%Q] (_get_all_sections docs_mismatch) st_mismatch.
Proof.
  left. exists (section_of "A" [chunk_with "a1" [1]%Q;
                                chunk_with "a2" [1; 1]%Q]),
    (chunk_with "a2" [1; 1]%Q), [1; 1]%Q.
  split_and!; [reflexivity| |reflexivity|cbn; lia].
  right. left.
Defined.

Lemma same_inputs_two : same_inputs st_two st_two_stale.
Proof. vm_compute. reflexivity. Defined.

End Example_facts.

(** ** The stable descending sort *)

Section SortDesc.
Context {A : Type}.
Implicit Types (x y : Q * A) (l : list (Q * A)).

Lemma insert_desc_perm x l : insert_desc x l ≡ₚ x :: l.
Proof.
  induction l as [|y l IH]; simpl; [done|].
  destruct (Qle_bool (fst y) (fst x)); [done|].
  rewrite IH. apply Permutation_swap.
Qed.

Lemma sort_desc_perm l : sort_desc l ≡ₚ l.
Proof.
  induction l as [|x l IH]; simpl; [done|].
  by rewrite insert_desc_perm, IH.
Qed.

Lemma sort_desc_length l : length (sort_desc l) = length l.
Proof. apply Permutation_length, sort_desc_perm. Qed.

Lemma insert_desc_sorted x l :
  StronglySorted desc l → StronglySorted desc (insert_desc x l).
Proof.
  induction 1 as [|y l Hl IH Hy]; simpl.
  - repeat constructor.
  - destruct (Qle_bool (fst y) (fst x)) eqn:Hle.
    + apply Qle_bool_iff in Hle.
      constructor; [by constructor|].
      constructor; [done|].
      eapply Forall_impl; [exact Hy|].
      intros z Hz. unfold desc in *. by apply Qle_trans with (fst y).
    + constructor; [done|].
      rewrite insert_desc_perm. constructor; [|done].
      unfold desc. apply Qnot_lt_le. intros Hlt.
      apply Qlt_le_weak, Qle_bool_iff in Hlt. congruence.
Qed.

Lemma sort_desc_sorted l : StronglySorted desc (sort_desc l).
Proof.
  induction l as [|x l IH]; simpl; [constructor|].
  by apply insert_desc_sorted.
Qed.

(** Stability: the items whose key is [v] come out in their input order. *)
Lemma insert_desc_stable v x l :
  List.filter (key_is v) (insert_desc x l) = List.filter (key_is v) (x :: l).
Proof.
  induction l as [|y l IH]; [done|].
  cbn [insert_desc].
  destruct (Qle_bool (fst y) (fst x)) eqn:Hle; [done|].
  cbn [List.filter] in *. rewrite IH.
  destruct (key_is v x) eqn:Hx, (key_is v y) eqn:Hy; try done.
  exfalso. unfold key_is in *.
  apply Qeq_bool_iff in Hx, Hy.
  assert (fst y <= fst x)%Q as H by (rewrite Hx, Hy; apply Qle_refl).
  apply Qle_bool_iff in H. congruence.
Qed.

Lemma sort_desc_stable v l :
  List.filter (key_is v) (sort_desc l) = List.filter (key_is v) l.
Proof.
  induction l as [|x l IH]; [done|].
  cbn [sort_desc]. rewrite insert_desc_stable.
  cbn [List.filter]. by rewrite IH.
Qed.

End SortDesc.

Lemma insert_desc_map {A B} (f : A → B) (x : Q * A) (l : list (Q * A)) :
  insert_desc (prod_map id f x) (map (prod_map id f) l)
  = map (prod_map id f) (insert_desc x l).
Proof.
  induction l as [|y l IH]; [done|].
  destruct x as [kx x], y as [ky y]. cbn in *.
  destruct (Qle_bool ky kx); [done|]. cbn. by rewrite IH.
Qed.

Lemma sort_desc_map {A B} (f : A → B) (l : list (Q * A)) :
  sort_desc (map (prod_map id f) l) = map (prod_map id f) (sort_desc l).
Proof.
  induction l as [|x l IH]; [done|].
  cbn [map sort_desc]. by rewrite IH, insert_desc_map.
Qed.

Lemma py_sorted_reverse_Some {A} (key : A → option Q) (l : list A) kl :
  mapM (decorate key) l = Some kl →
  py_sorted_reverse key l = inr (map snd (sort_desc kl)).
Proof.
  intros H. destruct l as [|x [|y l]].
  - by injection H as <-.
  - cbn in H. unfold decorate in H.
    destruct (key x); [|done]. by injection H as <-.
  - unfold py_sorted_reverse. by rewrite H.
Qed.

Lemma mapM_decorate {A} (key : A → option Q) (f : A → Q) (l : list A) :
  Forall (λ x, key x = Some (f x)) l →
  mapM (decorate key) l = Some (map (λ x, (f x, x)) l).
Proof.
  intros H. apply mapM_Some. induction H as [|x l Hx _ IH]; cbn.
  - constructor.
  - constructor; [|done]. unfold decorate. by rewrite Hx.
Qed.

(** ** Loops that rewrite the sections of a list in place *)

Lemma lookup_apply_to f rs (st : Store) r :
  apply_to f rs st !! r
  = (λ s, if bool_decide (r ∈ rs) then f s else s) <$> st !! r.
Proof.
  unfold apply_to. rewrite map_lookup_imap. by destruct (st !! r).
Qed.

Lemma lookup_apply_to_elem f rs (st : Store) r :
  r ∈ rs → apply_to f rs st !! r = f <$> st !! r.
Proof.
  intros Hr. rewrite lookup_apply_to.
  destruct (st !! r); [|done]. cbn. by rewrite bool_decide_eq_true_2.
Qed.

Lemma lookup_apply_to_not_elem f rs (st : Store) r :
  r ∉ rs → apply_to f rs st !! r = st !! r.
Proof.
  intros Hr. rewrite lookup_apply_to.
  destruct (st !! r); [|done]. cbn. by rewrite bool_decide_eq_false_2.
Qed.

Lemma for_each_apply_to (body : nat → M unit) (f : DocSection → DocSection)
    (P : DocSection → Prop) rs (st : Store) :
  (∀ r (st : Store) s,
      st !! r = Some s → P s → body r st = (inr tt, <[r := f s]> st)) →
  (∀ s, P s → P (f s)) →
  (∀ s, P s → f (f s) = f s) →
  Forall (λ r, ∃ s, st !! r = Some s ∧ P s) rs →
  for_each rs body st = (inr tt, apply_to f rs st).
Proof.
  intros Hbody HP Hidem. revert st.
  induction rs as [|r rs IH]; intros st Hrs.
  - cbn. f_equal. apply map_eq. intros r.
    rewrite lookup_apply_to_not_elem; [done|]. apply not_elem_of_nil.
  - apply Forall_cons in Hrs as [(s & Hs & HPs) Hrs].
    cbn. unfold bind at 1. rewrite (Hbody _ _ _ Hs HPs).
    rewrite IH.
    + f_equal. apply map_eq. intros r'.
      rewrite !lookup_apply_to.
      destruct (decide (r' = r)) as [->|Hne].
      * rewrite lookup_insert_eq, Hs. cbn.
        rewrite (bool_decide_eq_true_2 (r ∈ r :: rs)) by left.
        case_bool_decide; [by rewrite Hidem|done].
      * rewrite lookup_insert_ne by done.
        destruct (st !! r'); [|done]. cbn. f_equal.
        destruct (bool_decide_reflect (r' ∈ rs)) as [Hin|Hin],
          (bool_decide_reflect (r' ∈ r :: rs)) as [Hin'|Hin']; [done| | |done].
        -- exfalso. apply Hin'. by right.
        -- exfalso. by apply elem_of_cons in Hin' as [?|?].
    + eapply Forall_impl; [exact Hrs|]. intros r' (s' & Hs' & HPs').
      destruct (decide (r' = r)) as [->|Hne].
      * rewrite lookup_insert_eq. simplify_eq. eauto.
      * rewrite lookup_insert_ne by done. eauto.
Qed.

Lemma set_chunks_chunks s : set_chunks (chunks s) s = s.
Proof. by destruct s. Qed.

(** ** Scoring *)

Lemma np_dot_aligned q c :
  aligned q c → ∃ v, np_dot (embedding c) q = inr v.
Proof.
  intros (u & -> & Hl). cbn. rewrite Hl, Nat.eqb_refl. eauto.
Qed.

Lemma rescored_embedding q c : embedding (rescored q c) = embedding c.
Proof. unfold rescored. by destruct (np_dot _ _). Qed.

Lemma rescored_idemp q c : rescored q (rescored q c) = rescored q c.
Proof.
  unfold rescored at 1. rewrite rescored_embedding.
  destruct (np_dot (embedding c) q) eqn:H; [done|].
  unfold rescored. by rewrite H.
Qed.

Lemma rescore_section_idemp q s :
  rescore_section q (rescore_section q s) = rescore_section q s.
Proof.
  unfold rescore_section, set_chunks. cbn. f_equal.
  rewrite <- list_fmap_compose. apply list_fmap_ext.
  intros _ c _. apply rescored_idemp.
Qed.

Lemma rescore_section_aligned q s :
  section_aligned q s → section_aligned q (rescore_section q s).
Proof.
  unfold section_aligned, rescore_section. cbn. intros H.
  apply Forall_fmap. eapply Forall_impl; [exact H|].
  intros c (u & Hu & Hl). exists u. by rewrite rescored_embedding.
Qed.

Lemma score_chunk_ok q r i c v (st : Store) s :
  np_dot (embedding c) q = inr v →
  st !! r = Some s →
  score_chunk q r (i, c) st
  = (inr tt,
     <[r := set_chunks (alter (set_similarity_score v) i (chunks s)) s]> st).
Proof.
  intros Hv Hs. unfold score_chunk, bind, update_section. cbn.
  rewrite Hv. cbn. by rewrite Hs.
Qed.

Lemma score_inner_loop q r suf : ∀ pre (st : Store) s,
  st !! r = Some s →
  chunks s = pre ++ suf →
  Forall (aligned q) suf →
  for_each (enumerate_from (length pre) suf) (score_chunk q r) st
  = (inr tt, <[r := set_chunks (pre ++ map (rescored q) suf) s]> st).
Proof.
  induction suf as [|c suf IH]; intros pre st s Hs Hch Hal.
  - cbn. rewrite <- Hch, set_chunks_chunks. by rewrite insert_id.
  - apply Forall_cons in Hal as [Hc Hal].
    destruct (np_dot_aligned _ _ Hc) as [v Hv].
    cbn [enumerate_from for_each]. unfold bind at 1.
    rewrite (score_chunk_ok _ _ _ _ _ _ _ Hv Hs).
    set (s1 := set_chunks _ s).
    assert (chunks s1 = (pre ++ [set_similarity_score v c]) ++ suf) as Hs1.
    { subst s1. cbn. rewrite Hch.
      replace (length pre) with (length pre + 0)%nat by lia.
      rewrite alter_app_r. cbn. by rewrite <- app_assoc. }
    specialize (IH (pre ++ [set_similarity_score v c]) (<[r := s1]> st) s1).
    rewrite length_app in IH. cbn [length] in IH.
    replace (length pre + 1)%nat with (S (length pre)) in IH by lia.
    rewrite IH; [|by rewrite lookup_insert_eq|done|done].
    rewrite insert_insert_eq. do 2 f_equal.
    unfold set_chunks, s1. cbn. f_equal.
    rewrite <- app_assoc. cbn. unfold rescored at 2. by rewrite Hv.
Qed.

Lemma score_section_ok q r (st : Store) s :
  st !! r = Some s → section_aligned q s →
  for_each (enumerate (chunks s)) (score_chunk q r) st
  = (inr tt, <[r := rescore_section q s]> st).
Proof.
  intros Hs Hal.
  apply (score_inner_loop q r (chunks s) [] st s Hs eq_refl Hal).
Qed.

Lemma _score_all_chunks_aligned q rs (st : Store) :
  Forall (λ r, ∃ s, st !! r = Some s ∧ section_aligned q s) rs →
  _score_all_chunks rs q st = (inr tt, apply_to (rescore_section q) rs st).
Proof.
  intros H. unfold _score_all_chunks.
  apply for_each_apply_to with (P := section_aligned q); [| | |done].
  - intros r st' s Hs Hal. unfold bind, get_section. rewrite Hs.
    by apply score_section_ok.
  - apply rescore_section_aligned.
  - intros s _. apply rescore_section_idemp.
Qed.

(** ** Aggregation *)

Lemma section_scored_scores s :
  section_scored s → map similarity_score (chunks s) = map Some (scores_of s).
Proof.
  unfold section_scored, scores_of.
  induction 1 as [|c cs [v Hv] _ IH]; [done|].
  cbn. rewrite Hv. cbn. by rewrite IH.
Qed.

Lemma py_slice_to_map {A B} (f : A → B) n (l : list A) :
  py_slice_to n (map f l) = map f (py_slice_to n l).
Proof.
  unfold py_slice_to. rewrite length_map.
  destruct (0 <=? n); symmetry; apply fmap_take.
Qed.

Lemma mapM_id_Some {A} (l : list A) : mapM id (map Some l) = Some l.
Proof. apply mapM_Some. induction l; by constructor. Qed.

Lemma py_sorted_reverse_scores (qs : list Q) :
  py_sorted_reverse id (map Some qs) = inr (map Some (sorted_scores qs)).
Proof.
  rewrite (py_sorted_reverse_Some _ _ (map (prod_map id Some)
             (map (λ q, (q, q)) qs))).
  - rewrite sort_desc_map. unfold sorted_scores.
    f_equal. rewrite <- !list_fmap_compose. apply list_fmap_ext.
    by intros _ [??] _.
  - apply mapM_Some. induction qs; by constructor.
Qed.

Lemma aggregate_section_scored self r (st : Store) s :
  st !! r = Some s →
  section_scored s →
  aggregate_section self r st = (inr tt, <[r := aggregated self s]> st).
Proof.
  intros Hs Hsc. unfold aggregate_section, bind, get_section. rewrite Hs.
  unfold aggregated, mean_top_k.
  pose proof (section_scored_scores s Hsc) as Hmap.
  destruct (chunks s) as [|c cs] eqn:Hcs.
  { unfold update_section. rewrite Hs.
    by destruct (scores_of s). }
  rewrite Hmap, py_sorted_reverse_scores. cbn [lift ret].
  rewrite !length_map, py_slice_to_map.
  destruct (scores_of s) as [|q qs] eqn:Hqs; [done|].
  set (top := py_slice_to _ _).
  destruct top as [|t top]; cbn [map].
  { unfold update_section. by rewrite Hs. }
  change (Some t :: map Some top) with (map Some (t :: top)).
  unfold np_mean. rewrite mapM_id_Some. cbn [lift ret].
  unfold update_section. by rewrite Hs.
Qed.

Lemma aggregated_idemp self s :
  aggregated self (aggregated self s) = aggregated self s.
Proof. done. Qed.

Lemma _aggregate_section_scores_scored self rs (st : Store) :
  Forall (λ r, ∃ s, st !! r = Some s ∧ section_scored s) rs →
  _aggregate_section_scores self rs st
  = (inr tt, apply_to (aggregated self) rs st).
Proof.
  intros H. unfold _aggregate_section_scores.
  apply for_each_apply_to with (P := section_scored); [| | |done].
  - intros r st' s. apply aggregate_section_scored.
  - by intros s.
  - intros s _. apply aggregated_idemp.
Qed.

(** ** Sorting by a key: [sorted(l, key=f, reverse=True)] when every key is
    a number *)

Section SortedBy.
Context {A : Type} (f : A → Q).

Lemma coherent_decorated (l : list A) : coherent f (map (λ x, (f x, x)) l).
Proof. apply Forall_fmap, Forall_true. done. Qed.

Lemma coherent_sort_desc kl : coherent f kl → coherent f (sort_desc kl).
Proof. unfold coherent. by rewrite sort_desc_perm. Qed.

Lemma sorted_by_perm (l : list A) : sorted_by f l ≡ₚ l.
Proof.
  unfold sorted_by. rewrite sort_desc_perm.
  rewrite <- list_fmap_compose. cbn. by rewrite list_fmap_id.
Qed.

Lemma sorted_by_length (l : list A) : length (sorted_by f l) = length l.
Proof. apply Permutation_length, sorted_by_perm. Qed.

Lemma coherent_sorted kl :
  coherent f kl → StronglySorted desc kl →
  StronglySorted (λ a b, (f b <= f a)%Q) (map snd kl).
Proof.
  intros Hco Hs. induction Hs as [|p kl Hs IH Hp]; cbn; [constructor|].
  apply Forall_cons in Hco as [Hp1 Hco].
  constructor; [by apply IH|].
  apply Forall_fmap. unfold coherent in Hco.
  rewrite Forall_forall in Hp, Hco. apply Forall_forall. intros p' Hin.
  cbn. rewrite <- Hp1, <- (Hco p' Hin). by apply Hp.
Qed.

Lemma sorted_by_sorted (l : list A) :
  StronglySorted (λ a b, (f b <= f a)%Q) (sorted_by f l).
Proof.
  apply coherent_sorted; [|apply sort_desc_sorted].
  apply coherent_sort_desc, coherent_decorated.
Qed.

Lemma coherent_filter v kl :
  coherent f kl →
  List.filter (λ x, Qeq_bool (f x) v) (map snd kl)
  = map snd (List.filter (key_is v) kl).
Proof.
  induction 1 as [|p kl Hp _ IH]; [done|].
  cbn. unfold key_is at 1. rewrite Hp, IH. by destruct (Qeq_bool _ _).
Qed.

Lemma sorted_by_stable v (l : list A) :
  List.filter (λ x, Qeq_bool (f x) v) (sorted_by f l)
  = List.filter (λ x, Qeq_bool (f x) v) l.
Proof.
  unfold sorted_by.
  rewrite coherent_filter by apply coherent_sort_desc, coherent_decorated.
  rewrite sort_desc_stable, <- coherent_filter by apply coherent_decorated.
  rewrite <- list_fmap_compose. cbn. by rewrite list_fmap_id.
Qed.

End SortedBy.

(** ** C1: mean of the top K *)

Lemma Qsum_from (l : list Q) (a : Q) :
  (fold_left Qplus l a == a + fold_right Qplus 0 l)%Q.
Proof.
  revert a. induction l as [|x l IH]; intros a; cbn.
  - ring.
  - rewrite IH. ring.
Qed.

Lemma Qsum_fold_right (l : list Q) : (Qsum l == fold_right Qplus 0 l)%Q.
Proof. unfold Qsum. rewrite Qsum_from. ring. Qed.

Lemma sorted_scores_largest (n : nat) (qs : list Q) :
  (n ≤ length qs)%nat → largest n qs (take n (sorted_scores qs)).
Proof.
  intros Hn. exists (drop n (sorted_scores qs)).
  change (sorted_scores qs) with (sorted_by id qs).
  split_and!.
  - by rewrite take_drop, sorted_by_perm.
  - rewrite length_take, sorted_by_length. lia.
  - intros x y Hx Hy.
    pose proof (sorted_by_sorted id qs) as Hs.
    rewrite <- (take_drop n (sorted_by id qs)) in Hs.
    apply (StronglySorted_app_1_elem_of _ _ _ _ _ Hs Hx Hy).
Qed.

Lemma mean_top_k_spec (K : Z) (qs : list Q) :
  1 <= K → qs ≠ [] →
  ∃ top, largest (Z.to_nat (Z.min K (Z.of_nat (length qs)))) qs top ∧
         (mean_top_k K qs == arithmetic_mean top)%Q.
Proof.
  intros HK Hqs.
  set (n := Z.to_nat (Z.min K (Z.of_nat (length qs)))).
  assert (1 ≤ length qs)%nat as Hlen by (destruct qs; [done|cbn; lia]).
  exists (take n (sorted_scores qs)). split.
  { apply sorted_scores_largest. lia. }
  unfold mean_top_k. destruct qs as [|q qs]; [done|].
  unfold py_slice_to.
  replace (0 <=? _) with true by (symmetry; apply Z.leb_le; lia).
  fold n. set (top := take n _).
  assert (length top = n) as Htop.
  { unfold top. change (sorted_scores (q :: qs)) with (sorted_by id (q :: qs)).
    rewrite length_take, sorted_by_length. lia. }
  destruct top as [|t top]; [cbn in Htop; lia|].
  unfold arithmetic_mean. by rewrite Qsum_fold_right.
Qed.

(** C1.  [_aggregate_section_scores] on sections whose chunks are all
    scored, with K >= 1: the run succeeds, and every listed section with at
    least one chunk gets as aggregated score the arithmetic mean of
    min(K, number of chunks) largest chunk scores.  In particular the chunk
    scores 0.9, 0.8, 0.5, 0.1 with K = 3 give (0.9 + 0.8 + 0.5) / 3 up to
    1e-6 (here exactly). *)
Theorem aggregate_is_mean_of_top_k :
  (∀ (self : RankingEngine) (rs : list nat) (st : Store),
     1 <= top_k_chunks self →
     Forall (λ r, ∃ s, st !! r = Some s ∧ section_scored s) rs →
     ∃ st' : Store,
       _aggregate_section_scores self rs st = (inr tt, st') ∧
       ∀ r s qs,
         r ∈ rs → st !! r = Some s → chunks s ≠ [] →
         map similarity_score (chunks s) = map Some qs →
         ∃ s' m top,
           st' !! r = Some s' ∧ aggregated_score s' = Some m ∧
           largest (Z.to_nat (Z.min (top_k_chunks self)
                                    (Z.of_nat (length (chunks s))))) qs top ∧
           (m == arithmetic_mean top)%Q)
  ∧
  (∃ (st' : Store) s' m,
     _aggregate_section_scores Examples.engine_k3 [0%nat]
       Examples.st_scored = (inr tt, st') ∧
     st' !! 0%nat = Some s' ∧ aggregated_score s' = Some m ∧
     (Qabs (m - ((9 # 10) + (8 # 10) + (5 # 10)) / 3) <= 1 # 1000000)%Q).
Proof.
  split.
  - intros self rs st HK Hrs. eexists. split.
    { by apply _aggregate_section_scores_scored. }
    intros r s qs Hr Hs Hne Hqs.
    rewrite lookup_apply_to_elem, Hs by done. cbn.
    assert (section_scored s) as Hsc.
    { rewrite Forall_forall in Hrs. destruct (Hrs r Hr) as (s0 & ? & ?).
      by simplify_eq. }
    rewrite section_scored_scores in Hqs by done.
    apply (inj (fmap Some)) in Hqs. subst qs.
    pose proof (f_equal length (section_scored_scores s Hsc)) as Hlen.
    rewrite !length_map in Hlen.
    assert (scores_of s ≠ []) as Hne'.
    { intros H0. rewrite H0 in Hlen. by destruct (chunks s). }
    destruct (mean_top_k_spec (top_k_chunks self) _ HK Hne') as (top & Ht & Hm).
    exists (aggregated self s), (mean_top_k (top_k_chunks self) (scores_of s)),
      top.
    rewrite Hlen. by split_and!.
  - eexists _, _, _. split_and!.
    + vm_compute. reflexivity.
    + vm_compute. reflexivity.
    + reflexivity.
    + vm_compute. discriminate.
Qed.

(** ** Rank assignment *)

Lemma lookup_rank_store start l (st : Store) r :
  rank_store start l st !! r = ranked_at start l r <$> st !! r.
Proof.
  unfold rank_store. rewrite map_lookup_imap. by destruct (st !! r).
Qed.

Lemma last_index_lookup r l i : last_index r l = Some i → l !! i = Some r.
Proof.
  revert i. induction l as [|x l IH]; intros i; cbn; [done|].
  destruct (last_index r l) as [j|].
  - intros [= <-]. cbn. by apply IH.
  - case_decide; [|done]. intros [= <-]. cbn. by subst.
Qed.

Lemma last_index_None r l : last_index r l = None ↔ r ∉ l.
Proof.
  induction l as [|x l IH]; cbn.
  - split; [intros _; apply not_elem_of_nil|done].
  - rewrite not_elem_of_cons. destruct (last_index r l) as [j|].
    + split; [done|]. intros [_ H]. by apply IH in H.
    + case_decide as Hx.
      * split; [done|]. intros [? _]. by subst.
      * split; [|done]. intros _. split; [done|]. by apply IH.
Qed.

Lemma last_index_elem r l : r ∈ l → ∃ i, last_index r l = Some i.
Proof.
  intros Hr. destruct (last_index r l) as [i|] eqn:H; [eauto|].
  by apply last_index_None in H.
Qed.

Lemma last_index_NoDup r l i :
  NoDup l → l !! i = Some r → last_index r l = Some i.
Proof.
  intros Hnd Hi. destruct (last_index_elem r l) as [j Hj].
  { by eapply list_elem_of_lookup_2. }
  rewrite Hj. f_equal. apply last_index_lookup in Hj.
  by eapply NoDup_lookup.
Qed.

Lemma set_rank_set_rank a b s : set_rank a (set_rank b s) = set_rank a s.
Proof. done. Qed.

Lemma assign_rank_loop l : ∀ start (st : Store),
  Forall (λ r, is_Some (st !! r)) l →
  for_each (enumerate_from start l) assign_rank st
  = (inr tt, rank_store start l st).
Proof.
  induction l as [|x l IH]; intros start st Hl.
  - cbn. f_equal. apply map_eq. intros r.
    rewrite lookup_rank_store. unfold ranked_at. cbn.
    by destruct (st !! r).
  - apply Forall_cons in Hl as [[s Hs] Hl].
    cbn [enumerate_from for_each]. unfold bind at 1, assign_rank at 1.
    unfold update_section. cbn [fst snd]. rewrite Hs.
    rewrite IH.
    + f_equal. apply map_eq. intros r. rewrite !lookup_rank_store.
      unfold ranked_at. cbn [last_index].
      destruct (decide (r = x)) as [->|Hne].
      * rewrite lookup_insert_eq, Hs. cbn.
        rewrite decide_True by done.
        destruct (last_index x l) as [i|]; cbn.
        -- rewrite set_rank_set_rank.
           by replace (S (start + i)) with (start + S i)%nat by lia.
        -- by replace (start + 0)%nat with start by lia.
      * rewrite lookup_insert_ne by done.
        rewrite decide_False by done.
        destruct (last_index r l) as [i|]; [|done].
        by replace (S start + i)%nat with (start + S i)%nat by lia.
    + eapply Forall_impl; [exact Hl|]. intros r [s' Hs'].
      destruct (decide (r = x)) as [->|Hne].
      * rewrite lookup_insert_eq. eauto.
      * rewrite lookup_insert_ne by done. eauto.
Qed.

(** ** Summary of a successful run of [rank_sections_globally] *)

Lemma rescored_scored q c : aligned q c → is_Some (similarity_score (rescored q c)).
Proof.
  intros Hc. destruct (np_dot_aligned q c Hc) as [v Hv].
  unfold rescored. rewrite Hv. by eexists.
Qed.

Lemma rescore_section_scored q s :
  section_aligned q s → section_scored (rescore_section q s).
Proof.
  unfold section_aligned, section_scored. cbn. intros H.
  apply Forall_fmap. eapply Forall_impl; [exact H|].
  intros c Hc. by apply rescored_scored.
Qed.

Lemma lookup_aggregated_store self q rs (st : Store) r :
  r ∈ rs →
  aggregated_store self q rs st !! r
  = (aggregated self ∘ rescore_section q) <$> st !! r.
Proof.
  intros Hr. unfold aggregated_store.
  rewrite !lookup_apply_to_elem by done. by destruct (st !! r).
Qed.

Lemma lookup_aggregated_store_other self q rs (st : Store) r :
  r ∉ rs → aggregated_store self q rs st !! r = st !! r.
Proof.
  intros Hr. unfold aggregated_store.
  by rewrite !lookup_apply_to_not_elem.
Qed.

Lemma filter_Forall_id {A} (P : A → Prop) `{!∀ x, Decision (P x)} (l : list A) :
  Forall P l → filter P l = l.
Proof.
  induction 1 as [|x l Hx _ IH]; [done|].
  by rewrite filter_cons_True, IH.
Qed.

Lemma aggregated_store_keys self q rs (st : Store) :
  inputs_ok q rs st →
  Forall (λ r, aggregated_score_of (aggregated_store self q rs st) r
               = Some (score_key (aggregated_store self q rs st) r)) rs.
Proof.
  intros Hok. apply Forall_forall. intros r Hr.
  unfold inputs_ok in Hok. rewrite Forall_forall in Hok.
  destruct (Hok r Hr) as (s & Hs & _).
  unfold score_key, aggregated_score_of.
  by rewrite lookup_aggregated_store, Hs.
Qed.

Lemma rank_sections_globally_ok self docs q (st : Store) :
  inputs_ok q (_get_all_sections docs) st →
  rank_sections_globally self docs q st
  = (inr (ranking self q (_get_all_sections docs) st),
     ranked_store self q (_get_all_sections docs) st).
Proof.
  intros Hok. unfold rank_sections_globally.
  set (rs := _get_all_sections docs) in *.
  unfold bind at 1. rewrite _score_all_chunks_aligned by done.
  unfold bind at 1. rewrite _aggregate_section_scores_scored.
  2:{ apply Forall_forall. intros r Hr.
      unfold inputs_ok in Hok. rewrite Forall_forall in Hok.
      destruct (Hok r Hr) as (s & Hs & Hal).
      exists (rescore_section q s).
      rewrite lookup_apply_to_elem, Hs by done.
      split; [done|]. by apply rescore_section_scored. }
  fold (aggregated_store self q rs st).
  pose proof (aggregated_store_keys self q rs st Hok) as Hkeys.
  set (st2 := aggregated_store self q rs st) in *.
  unfold bind at 1, get_store at 1.
  rewrite filter_Forall_id.
  2:{ eapply Forall_impl; [exact Hkeys|]. intros r ->. by eexists. }
  rewrite (py_sorted_reverse_Some _ _ _ (mapM_decorate _ _ _ Hkeys)).
  fold (sorted_by (score_key st2) rs). fold (ranking self q rs st).
  unfold bind at 1. cbn [lift ret].
  unfold bind at 1, enumerate. rewrite assign_rank_loop; [done|].
  unfold ranking. rewrite sorted_by_perm.
  eapply Forall_impl; [exact Hkeys|]. intros r Hr.
  unfold aggregated_score_of in Hr. fold st2.
  destruct (st2 !! r); [by eexists|done].
Qed.

Lemma StronglySorted_lookup_lt {A} (R : relation A) (l : list A) i j x y :
  StronglySorted R l → (i < j)%nat →
  l !! i = Some x → l !! j = Some y → R x y.
Proof.
  intros Hs. revert i j. induction Hs as [|z l Hs IH Hz]; intros i j Hij Hi Hj.
  - done.
  - destruct j as [|j]; [lia|]. cbn in Hj. destruct i as [|i]; cbn in Hi.
    + simplify_eq. rewrite Forall_forall in Hz.
      eapply Hz, list_elem_of_lookup_2, Hj.
    + eapply IH; [|done..]. lia.
Qed.

Lemma aggregated_score_ranked_at start l r s :
  aggregated_score (ranked_at start l r s) = aggregated_score s.
Proof. unfold ranked_at. by destruct (last_index r l). Qed.

Lemma aggregated_score_of_ranked_store self q rs (st : Store) r :
  aggregated_score_of (ranked_store self q rs st) r
  = aggregated_score_of (aggregated_store self q rs st) r.
Proof.
  unfold aggregated_score_of, ranked_store. rewrite lookup_rank_store.
  destruct (_ !! r); [|done]. cbn. apply aggregated_score_ranked_at.
Qed.

Lemma ranking_perm self q rs (st : Store) : ranking self q rs st ≡ₚ rs.
Proof. apply sorted_by_perm. Qed.

(** The section found behind a listed reference after a successful run. *)
Lemma lookup_ranked_store_elem self q rs (st : Store) r s :
  r ∈ rs → st !! r = Some s →
  ∃ i, last_index r (ranking self q rs st) = Some i ∧
       ranked_store self q rs st !! r
       = Some (set_rank (Z.of_nat i + 1)
                 (aggregated self (rescore_section q s))).
Proof.
  intros Hr Hs. destruct (last_index_elem r (ranking self q rs st)) as [i Hi].
  { by rewrite ranking_perm. }
  exists i. split; [done|]. unfold ranked_store.
  rewrite lookup_rank_store, lookup_aggregated_store, Hs by done.
  cbn. unfold ranked_at. by rewrite Hi.
Qed.

Lemma inputs_ok_lookup q rs (st : Store) r :
  inputs_ok q rs st → r ∈ rs → ∃ s, st !! r = Some s ∧ section_aligned q s.
Proof. unfold inputs_ok. rewrite Forall_forall. eauto. Qed.

(** The aggregated score of a listed section after a successful run. *)
Lemma ranked_store_score self q rs (st : Store) r :
  inputs_ok q rs st → r ∈ rs →
  aggregated_score_of (ranked_store self q rs st) r
  = Some (score_key (aggregated_store self q rs st) r).
Proof.
  intros Hok Hr. rewrite aggregated_score_of_ranked_store.
  pose proof (aggregated_store_keys self q rs st Hok) as H.
  rewrite Forall_forall in H. by apply H.
Qed.

Lemma ranking_sorted self q rs (st : Store) i j r1 r2 :
  (i < j)%nat →
  ranking self q rs st !! i = Some r1 →
  ranking self q rs st !! j = Some r2 →
  (score_key (aggregated_store self q rs st) r2
   <= score_key (aggregated_store self q rs st) r1)%Q.
Proof.
  intros Hij H1 H2.
  by apply (StronglySorted_lookup_lt _ _ i j r1 r2
              (sorted_by_sorted _ rs) Hij).
Qed.

(** C2.  On every input whose chunks carry vectors of the query's length,
    [rank_sections_globally] returns a list in which each section's
    aggregated score is at least that of the next one, and in which, for
    every score value, the sections having that score stand in the order
    they have in the flattened input. *)
Theorem rank_sections_globally_sorted_stable
    (self : RankingEngine) (docs : list Document) (q : list Q) (st : Store) :
  inputs_ok q (_get_all_sections docs) st →
  ∃ (out : list nat) (st' : Store),
    rank_sections_globally self docs q st = (inr out, st') ∧
    (∀ i r1 r2,
       out !! i = Some r1 → out !! S i = Some r2 →
       ∃ a b, aggregated_score_of st' r1 = Some a ∧
              aggregated_score_of st' r2 = Some b ∧ (b <= a)%Q) ∧
    (∀ v, List.filter (score_is st' v) out
          = List.filter (score_is st' v) (_get_all_sections docs)).
Proof.
  intros Hok. eexists _, _. split; [by apply rank_sections_globally_ok|].
  set (rs := _get_all_sections docs) in *. split.
  - intros i r1 r2 H1 H2.
    assert (r1 ∈ rs ∧ r2 ∈ rs) as [Hr1 Hr2].
    { rewrite <- !(ranking_perm self q rs st).
      split; by eapply list_elem_of_lookup_2. }
    eexists _, _. rewrite !ranked_store_score by done.
    split_and!; [done..|]. eapply ranking_sorted; [|done..]. lia.
  - intros v.
    set (key := score_key (aggregated_store self q rs st)).
    assert (∀ l, (∀ r, r ∈ l → r ∈ rs) →
      List.filter (score_is (ranked_store self q rs st) v) l
      = List.filter (λ r, Qeq_bool (key r) v) l) as Hext.
    { intros l Hl. apply List.filter_ext_in. intros r Hr.
      unfold score_is. rewrite ranked_store_score; [done..|].
      by apply Hl, list_elem_of_In. }
    rewrite !Hext; [|done|intros r; by rewrite ranking_perm].
    apply sorted_by_stable.
Qed.

Lemma rank_sections_globally_sorted_stable_witness :
  ∃ (out : list nat) (st' : Store),
    rank_sections_globally Examples.default_engine Examples.docs_two [1%Q]
      Examples.st_two = (inr out, st') ∧
    (∀ i r1 r2,
       out !! i = Some r1 → out !! S i = Some r2 →
       ∃ a b, aggregated_score_of st' r1 = Some a ∧
              aggregated_score_of st' r2 = Some b ∧ (b <= a)%Q) ∧
    (∀ v, List.filter (score_is st' v) out
          = List.filter (score_is st' v)
              (_get_all_sections Examples.docs_two)).
Proof.
  apply rank_sections_globally_sorted_stable. exact Example_facts.inputs_ok_two.
Defined.

(** ** Ranks *)

Lemma ranked_store_rank self q rs (st : Store) r i :
  inputs_ok q rs st → NoDup rs →
  ranking self q rs st !! i = Some r →
  rank_of (ranked_store self q rs st) r = Some (Z.of_nat i + 1).
Proof.
  intros Hok Hnd Hi.
  assert (r ∈ rs) as Hr.
  { rewrite <- (ranking_perm self q rs st). by eapply list_elem_of_lookup_2. }
  destruct (inputs_ok_lookup _ _ _ _ Hok Hr) as (s & Hs & _).
  destruct (lookup_ranked_store_elem self q rs st r s Hr Hs) as (j & Hj & Hl).
  rewrite (last_index_NoDup r _ i) in Hj; [|by rewrite ranking_perm|done].
  simplify_eq. unfold rank_of. by rewrite Hl.
Qed.

(** Without the ownership assumption a listed section still ends with the
    rank of one of its positions: the last one. *)
Lemma ranked_store_rank_last self q rs (st : Store) r :
  inputs_ok q rs st → r ∈ rs →
  ∃ i, last_index r (ranking self q rs st) = Some i ∧
       ranking self q rs st !! i = Some r ∧
       rank_of (ranked_store self q rs st) r = Some (Z.of_nat i + 1).
Proof.
  intros Hok Hr.
  destruct (inputs_ok_lookup _ _ _ _ Hok Hr) as (s & Hs & _).
  destruct (lookup_ranked_store_elem self q rs st r s Hr Hs) as (i & Hi & Hl).
  exists i. split_and!; [done|by apply last_index_lookup|].
  unfold rank_of. by rewrite Hl.
Qed.

(** The end-to-end scenario of the specification: document A with chunk
    scores 0.9 and 0.2, document B with the chunk score 0.6, K = 3.  The
    aggregated scores are 0.55 and 0.6 and the order is B (rank 1), A
    (rank 2). *)
Example end_to_end_scenario :
  ∃ st' : Store,
    rank_sections_globally Examples.default_engine Examples.docs_two [1%Q]
      Examples.st_two = (inr [1; 0]%nat, st') ∧
    score_is st' (55 # 100) 0%nat = true ∧
    score_is st' (6 # 10) 1%nat = true ∧
    rank_of st' 1%nat = Some 1 ∧ rank_of st' 0%nat = Some 2.
Proof. eexists. split_and!; vm_compute; reflexivity. Qed.

(** Why C3 and C9 assume that no section object is listed twice (the
    exclusive ownership of the data model): a section listed twice is
    returned twice and keeps the rank written last. *)
Remark shared_section_keeps_last_rank :
  ∃ st' : Store,
    rank_sections_globally Examples.default_engine Examples.docs_shared
      [1%Q] Examples.st_two = (inr [0; 0]%nat, st') ∧
    rank_of st' 0%nat = Some 2.
Proof. eexists. split; vm_compute; reflexivity. Qed.

(** C3.  When no section object occurs twice in the flattened input (each
    document owns its sections), the returned list is a rearrangement of
    the N input sections, each occurring once, and the ranks read along the
    returned list are 1, 2, ..., N.  The returned list is in sorted score
    order: a section standing before another has an aggregated score at
    least as high.  So the ranks increase along the sorted order: of two
    ranked sections the one with the smaller rank has the score at least
    as high, and a section with a strictly higher score has the strictly
    smaller rank. *)
Theorem rank_sections_globally_ranks_1_to_N
    (self : RankingEngine) (docs : list Document) (q : list Q) (st : Store) :
  inputs_ok q (_get_all_sections docs) st →
  NoDup (_get_all_sections docs) →
  ∃ (out : list nat) (st' : Store),
    rank_sections_globally self docs q st = (inr out, st') ∧
    out ≡ₚ _get_all_sections docs ∧
    NoDup out ∧
    length out = length (_get_all_sections docs) ∧
    rank_of st' <$> out
    = (λ k, Some (Z.of_nat k)) <$> seq 1 (length (_get_all_sections docs)) ∧
    (∀ i j r1 r2,
       (i < j)%nat → out !! i = Some r1 → out !! j = Some r2 →
       ∃ a b, aggregated_score_of st' r1 = Some a ∧
              aggregated_score_of st' r2 = Some b ∧ (b <= a)%Q) ∧
    (∀ r1 r2,
       r1 ∈ out → r2 ∈ out →
       ∃ k1 k2 a b,
         rank_of st' r1 = Some k1 ∧ rank_of st' r2 = Some k2 ∧
         aggregated_score_of st' r1 = Some a ∧
         aggregated_score_of st' r2 = Some b ∧
         (k1 < k2 → (b <= a)%Q) ∧ ((b < a)%Q → k1 < k2)).
Proof.
  intros Hok Hnd. eexists _, _. split; [by apply rank_sections_globally_ok|].
  set (rs := _get_all_sections docs) in *.
  pose proof (ranking_perm self q rs st) as Hperm.
  assert (∀ i j r1 r2,
            (i < j)%nat →
            ranking self q rs st !! i = Some r1 →
            ranking self q rs st !! j = Some r2 →
            ∃ a b,
              aggregated_score_of (ranked_store self q rs st) r1 = Some a ∧
              aggregated_score_of (ranked_store self q rs st) r2 = Some b ∧
              (b <= a)%Q) as Hsorted.
  { intros i j r1 r2 Hij H1 H2.
    assert (r1 ∈ rs ∧ r2 ∈ rs) as [Hr1 Hr2].
    { rewrite <- !Hperm. split; by eapply list_elem_of_lookup_2. }
    eexists _, _. rewrite !ranked_store_score by done.
    split_and!; [done..|]. by eapply ranking_sorted. }
  split_and!; [done|by rewrite Hperm|by rewrite Hperm| |done|].
  - apply list_eq. intros i. rewrite !list_lookup_fmap.
    destruct (ranking self q rs st !! i) as [r|] eqn:Hi; cbn.
    + rewrite (ranked_store_rank self q rs st r i) by done.
      apply lookup_lt_Some in Hi as Hlt. rewrite Hperm in Hlt.
      rewrite (proj2 (lookup_seq 1 (length rs) i (1 + i))) by done.
      cbn. do 2 f_equal. lia.
    + apply lookup_ge_None in Hi. rewrite Hperm in Hi.
      by rewrite (proj2 (lookup_ge_None (seq 1 (length rs)) i))
        by (rewrite length_seq; lia).
  - intros r1 r2 [i Hi]%list_elem_of_lookup [j Hj]%list_elem_of_lookup.
    assert (r1 ∈ rs ∧ r2 ∈ rs) as [Hr1 Hr2].
    { rewrite <- !Hperm. split; by eapply list_elem_of_lookup_2. }
    exists (Z.of_nat i + 1), (Z.of_nat j + 1).
    eexists _, _.
    rewrite (ranked_store_rank self q rs st r1 i) by done.
    rewrite (ranked_store_rank self q rs st r2 j) by done.
    rewrite !ranked_store_score by done.
    split_and!; [done..| |].
    + intros Hk. eapply ranking_sorted; [|done..]. lia.
    + intros Hlt.
      destruct (decide (i < j)%nat) as [?|Hge]; [lia|]. exfalso.
      destruct (decide (i = j)) as [->|Hne].
      * rewrite Hi in Hj. injection Hj as <-.
        by apply Qlt_irrefl in Hlt.
      * assert (j < i)%nat as Hji by lia.
        pose proof (ranking_sorted self q rs st j i r2 r1 Hji Hj Hi) as Hle.
        apply Qle_not_lt in Hle. done.
Qed.

Lemma rank_sections_globally_ranks_1_to_N_witness :
  ∃ (out : list nat) (st' : Store),
    rank_sections_globally Examples.default_engine Examples.docs_two [1%Q]
      Examples.st_two = (inr out, st') ∧
    out ≡ₚ [0; 1]%nat ∧ NoDup out ∧ length out = 2%nat ∧
    rank_of st' <$> out = [Some 1; Some 2] ∧
    (∀ i j r1 r2,
       (i < j)%nat → out !! i = Some r1 → out !! j = Some r2 →
       ∃ a b, aggregated_score_of st' r1 = Some a ∧
              aggregated_score_of st' r2 = Some b ∧ (b <= a)%Q) ∧
    (∀ r1 r2,
       r1 ∈ out → r2 ∈ out →
       ∃ k1 k2 a b,
         rank_of st' r1 = Some k1 ∧ rank_of st' r2 = Some k2 ∧
         aggregated_score_of st' r1 = Some a ∧
         aggregated_score_of st' r2 = Some b ∧
         (k1 < k2 → (b <= a)%Q) ∧ ((b < a)%Q → k1 < k2)).
Proof.
  apply (rank_sections_globally_ranks_1_to_N Examples.default_engine
           Examples.docs_two [1%Q] Examples.st_two).
  - exact Example_facts.inputs_ok_two.
  - cbn. apply NoDup_cons. split; [by intros ?%list_elem_of_singleton|].
    apply NoDup_singleton.
Defined.

(** C6.  The empty document list gives an empty ranking and an empty
    analysis, with no error and an untouched store.  On any successful
    run a section without chunks gets aggregated score exactly 0 and a
    rank between 1 and the number of ranked sections; it stands after, and
    is ranked after, every section with a positive aggregated score. *)
Theorem empty_inputs_are_not_errors :
  (∀ (self : RankingEngine) (q : list Q) (st : Store),
     rank_sections_globally self [] q st = (inr [], st) ∧
     perform_sub_section_analysis self [] st = (inr [], st))
  ∧
  (∀ (self : RankingEngine) (docs : list Document) (q : list Q) (st : Store),
     inputs_ok q (_get_all_sections docs) st →
     ∃ (out : list nat) (st' : Store),
       rank_sections_globally self docs q st = (inr out, st') ∧
       ∀ r s,
         r ∈ _get_all_sections docs → st !! r = Some s → chunks s = [] →
         ∃ k,
           aggregated_score_of st' r = Some 0%Q ∧
           rank_of st' r = Some k ∧
           1 <= k <= Z.of_nat (length out) ∧
           (∀ r' a i j,
              aggregated_score_of st' r' = Some a → (0 < a)%Q →
              out !! i = Some r → out !! j = Some r' → (j < i)%nat) ∧
           (∀ r' a k',
              r' ∈ out →
              aggregated_score_of st' r' = Some a → (0 < a)%Q →
              rank_of st' r' = Some k' → k' < k)).
Proof.
  split.
  - intros self q st. split; [done|].
    unfold perform_sub_section_analysis, py_slice_to.
    by destruct (0 <=? _); rewrite take_nil.
  - intros self docs q st Hok.
    eexists _, _. split; [by apply rank_sections_globally_ok|].
    set (rs := _get_all_sections docs) in *.
    set (out := ranking self q rs st).
    set (st' := ranked_store self q rs st).
    intros r s Hr Hs Hempty.
    destruct (lookup_ranked_store_elem self q rs st r s Hr Hs)
      as (i0 & Hlast & Hl).
    fold out st' in Hlast, Hl.
    assert (aggregated_score_of st' r = Some 0%Q) as Hzero.
    { unfold aggregated_score_of. rewrite Hl. cbn.
      unfold scores_of. cbn. by rewrite Hempty. }
    assert (∀ r' a i j,
              aggregated_score_of st' r' = Some a → (0 < a)%Q →
              out !! i = Some r → out !! j = Some r' → (j < i)%nat) as Hpos.
    { intros r' a i j Ha Hlt Hi Hj.
      assert (r' ∈ rs) as Hr'.
      { rewrite <- (ranking_perm self q rs st).
        by eapply list_elem_of_lookup_2. }
      unfold st' in Ha, Hzero.
      rewrite ranked_store_score in Ha, Hzero by done.
      injection Ha as Ha. injection Hzero as Hzero.
      destruct (decide (j < i)%nat) as [|Hge]; [done|]. exfalso.
      destruct (decide (i = j)) as [->|Hne].
      { rewrite Hi in Hj. injection Hj as ->.
        rewrite Ha in Hzero. subst a. by apply Qlt_irrefl in Hlt. }
      assert (i < j)%nat as Hij by lia.
      pose proof (ranking_sorted self q rs st i j r r' Hij Hi Hj) as Hle.
      rewrite Ha, Hzero in Hle. by apply Qlt_not_le in Hlt. }
    exists (Z.of_nat i0 + 1). split_and!; [done| | | |done|].
    + unfold rank_of. by rewrite Hl.
    + lia.
    + apply last_index_lookup, lookup_lt_Some in Hlast. lia.
    + intros r' a k' Hr' Ha Hlt Hk'.
      assert (r' ∈ rs) as Hr'rs by by rewrite <- (ranking_perm self q rs st).
      destruct (ranked_store_rank_last self q rs st r' Hok Hr'rs)
        as (j0 & _ & Hj0 & Hrank).
      fold st' in Hrank. rewrite Hrank in Hk'. simplify_eq.
      apply last_index_lookup in Hlast.
      pose proof (Hpos r' a i0 j0 Ha Hlt Hlast Hj0). lia.
Qed.

Lemma empty_inputs_are_not_errors_witness :
  ∃ (out : list nat) (st' : Store),
    rank_sections_globally Examples.default_engine
      Examples.docs_with_empty [1%Q] Examples.st_with_empty
    = (inr out, st') ∧
    ∀ r s,
      r ∈ _get_all_sections Examples.docs_with_empty →
      Examples.st_with_empty !! r = Some s → chunks s = [] →
      ∃ k,
        aggregated_score_of st' r = Some 0%Q ∧
        rank_of st' r = Some k ∧
        1 <= k <= Z.of_nat (length out) ∧
        (∀ r' a i j,
           aggregated_score_of st' r' = Some a → (0 < a)%Q →
           out !! i = Some r → out !! j = Some r' → (j < i)%nat) ∧
        (∀ r' a k',
           r' ∈ out →
           aggregated_score_of st' r' = Some a → (0 < a)%Q →
           rank_of st' r' = Some k' → k' < k).
Proof.
  apply (proj2 empty_inputs_are_not_errors).
  exact Example_facts.inputs_ok_with_empty.
Defined.

(** ** A second run on the objects a first run has written *)

Lemma sorted_by_ext {A} (f g : A → Q) (l : list A) :
  (∀ x, f x = g x) → sorted_by f l = sorted_by g l.
Proof.
  intros H. unfold sorted_by. do 2 f_equal.
  apply list_fmap_ext. intros _ x _. by rewrite H.
Qed.

Lemma aggregated_rescore_fixed self q s :
  aggregated self (rescore_section q (aggregated self (rescore_section q s)))
  = aggregated self (rescore_section q s).
Proof.
  unfold aggregated, rescore_section, set_aggregated_score, set_chunks,
    scores_of. cbn.
  rewrite <- list_fmap_compose.
  rewrite (list_fmap_ext (rescored q ∘ rescored q) (rescored q) (chunks s));
    [done|].
  intros _ c _. apply rescored_idemp.
Qed.

Lemma aggregated_rescore_ranked_at self q start l r s :
  aggregated self (rescore_section q
    (ranked_at start l r (aggregated self (rescore_section q s))))
  = ranked_at start l r (aggregated self (rescore_section q s)).
Proof.
  unfold ranked_at. destruct (last_index r l) as [i|].
  - change (aggregated self (rescore_section q (set_rank ?k ?t)))
      with (set_rank k (aggregated self (rescore_section q t))).
    by rewrite aggregated_rescore_fixed.
  - apply aggregated_rescore_fixed.
Qed.

Lemma ranked_at_idemp start l r s :
  ranked_at start l r (ranked_at start l r s) = ranked_at start l r s.
Proof. unfold ranked_at. by destruct (last_index r l). Qed.

Lemma ranked_at_not_elem start l r s : r ∉ l → ranked_at start l r s = s.
Proof.
  intros Hr. unfold ranked_at. by rewrite (proj2 (last_index_None r l) Hr).
Qed.

Lemma ranked_store_inputs_ok self q rs (st : Store) :
  inputs_ok q rs st → inputs_ok q rs (ranked_store self q rs st).
Proof.
  intros Hok. apply Forall_forall. intros r Hr.
  destruct (inputs_ok_lookup _ _ _ _ Hok Hr) as (s & Hs & Hal).
  destruct (lookup_ranked_store_elem self q rs st r s Hr Hs) as (i & _ & Hl).
  eexists. split; [exact Hl|].
  by apply rescore_section_aligned in Hal.
Qed.

Lemma aggregated_store_ranked_store self q rs (st : Store) :
  inputs_ok q rs st →
  aggregated_store self q rs (ranked_store self q rs st)
  = ranked_store self q rs st.
Proof.
  intros Hok. apply map_eq. intros r.
  destruct (decide (r ∈ rs)) as [Hr|Hr].
  - rewrite lookup_aggregated_store by done.
    destruct (inputs_ok_lookup _ _ _ _ Hok Hr) as (s & Hs & _).
    unfold ranked_store.
    rewrite lookup_rank_store, lookup_aggregated_store, Hs by done.
    cbn. by rewrite aggregated_rescore_ranked_at.
  - by rewrite lookup_aggregated_store_other.
Qed.

Lemma ranking_ranked_store self q rs (st : Store) :
  inputs_ok q rs st →
  ranking self q rs (ranked_store self q rs st) = ranking self q rs st.
Proof.
  intros Hok. unfold ranking.
  rewrite aggregated_store_ranked_store by done.
  apply sorted_by_ext. intros r. unfold score_key.
  by rewrite aggregated_score_of_ranked_store.
Qed.

Lemma ranked_store_ranked_store self q rs (st : Store) :
  inputs_ok q rs st →
  ranked_store self q rs (ranked_store self q rs st)
  = ranked_store self q rs st.
Proof.
  intros Hok. unfold ranked_store at 1.
  rewrite ranking_ranked_store, aggregated_store_ranked_store by done.
  apply map_eq. intros r. unfold ranked_store.
  rewrite !lookup_rank_store. destruct (_ !! r); [|done].
  cbn. by rewrite ranked_at_idemp.
Qed.

(** C8.  A second call on the same documents and query, started on the
    store the first call has left (scores and ranks written in place),
    succeeds with the same returned list and leaves exactly the same
    store: same chunk scores, same aggregated scores, same ranks. *)
Theorem rank_sections_globally_idempotent
    (self : RankingEngine) (docs : list Document) (q : list Q) (st : Store) :
  inputs_ok q (_get_all_sections docs) st →
  ∃ (out : list nat) (st' : Store),
    rank_sections_globally self docs q st = (inr out, st') ∧
    rank_sections_globally self docs q st' = (inr out, st').
Proof.
  intros Hok. eexists _, _. split; [by apply rank_sections_globally_ok|].
  rewrite rank_sections_globally_ok by by apply ranked_store_inputs_ok.
  by rewrite ranking_ranked_store, ranked_store_ranked_store.
Qed.

Lemma rank_sections_globally_idempotent_witness :
  ∃ (out : list nat) (st' : Store),
    rank_sections_globally Examples.default_engine Examples.docs_two [1%Q]
      Examples.st_two = (inr out, st') ∧
    rank_sections_globally Examples.default_engine Examples.docs_two [1%Q]
      st' = (inr out, st').
Proof.
  apply rank_sections_globally_idempotent.
  exact Example_facts.inputs_ok_two.
Defined.

(** ** Sub-section analysis *)

Lemma py_sorted_reverse_chunks (cs : list Chunk) :
  Forall (λ c, is_Some (similarity_score c)) cs →
  py_sorted_reverse similarity_score cs = inr (sorted_by chunk_key cs).
Proof.
  intros H. apply py_sorted_reverse_Some, mapM_decorate.
  eapply Forall_impl; [exact H|]. intros c [v Hv].
  unfold chunk_key. by rewrite Hv.
Qed.

Lemma analysis_records_cons (st : Store) r l :
  analysis_records st (r :: l)
  = match analysis_record st r with
    | Some rec => rec :: analysis_records st l
    | None => analysis_records st l
    end.
Proof. done. Qed.

Lemma analysis_loop_scored l (st : Store) :
  sections_scored l st →
  analysis_loop l st = (inr (analysis_records st l), st).
Proof.
  induction 1 as [|r l (s & Hs & Hsc) _ IH]; [done|].
  cbn [analysis_loop]. unfold bind at 1, get_section. rewrite Hs.
  rewrite analysis_records_cons.
  unfold analysis_record at 1. rewrite Hs. cbn.
  destruct (chunks s) as [|c cs] eqn:Hcs; [done|].
  rewrite <- Hcs in *. rewrite py_sorted_reverse_chunks by done.
  unfold bind at 1. cbn [lift ret].
  pose proof (sorted_by_perm chunk_key (chunks s)) as Hperm.
  destruct (sorted_by chunk_key (chunks s)) as [|top rest] eqn:Hsorted.
  { apply Permutation_nil_l in Hperm. congruence. }
  assert (top ∈ chunks s) as Htop by (rewrite <- Hperm; left).
  unfold section_scored in Hsc. rewrite Forall_forall in Hsc.
  destruct (Hsc top Htop) as [v Hv].
  unfold bind at 1. rewrite Hv. cbn [py_round lift ret].
  unfold bind at 1. rewrite IH. cbn.
  unfold record_of, round4, chunk_key. by rewrite Hv.
Qed.

(** The analysis never writes to the store, whatever it is run on. *)
Lemma analysis_loop_store l (st : Store) : snd (analysis_loop l st) = st.
Proof.
  induction l as [|r l IH]; [done|].
  cbn [analysis_loop]. unfold bind at 1, get_section.
  destruct (st !! r) as [s|]; [|done].
  destruct (chunks s) as [|c cs]; [done|].
  unfold bind at 1.
  destruct (py_sorted_reverse similarity_score (c :: cs)) as [e|[|top rest]];
    [done..|].
  cbn [lift ret raise]. unfold bind at 1.
  destruct (py_round (similarity_score top) 4) as [e|v]; [done|].
  cbn [lift ret raise]. unfold bind at 1.
  destruct (analysis_loop l st) as [[e|recs] st'] eqn:Hl; cbn in IH; by subst.
Qed.

(** *** The head of a stable descending sort *)

Lemma filter_head_first {A} (P : A → bool) (l : list A) x t :
  List.filter P l = x :: t →
  ∃ j, l !! j = Some x ∧
       ∀ k y, (k < j)%nat → l !! k = Some y → P y = false.
Proof.
  induction l as [|z l IH]; [done|]. cbn.
  destruct (P z) eqn:Hz.
  - intros H. injection H as -> _. exists 0%nat. split; [done|]. intros; lia.
  - intros H. destruct (IH H) as (j & Hj & Hbefore).
    exists (S j). split; [done|].
    intros [|k] y Hk Hy; cbn in Hy; [by simplify_eq|].
    eapply Hbefore; [|done]. lia.
Qed.

Lemma sorted_by_head {A} (f : A → Q) (l : list A) x rest :
  sorted_by f l = x :: rest →
  ∃ j, l !! j = Some x ∧
       (∀ k y, l !! k = Some y → (f y <= f x)%Q) ∧
       (∀ k y, (k < j)%nat → l !! k = Some y → (f y < f x)%Q).
Proof.
  intros Hsorted.
  assert (∀ y, y ∈ l → (f y <= f x)%Q) as Hmax.
  { intros y Hy. rewrite <- (sorted_by_perm f l), Hsorted in Hy.
    pose proof (sorted_by_sorted f l) as Hs. rewrite Hsorted in Hs.
    apply StronglySorted_cons in Hs as [Hx _].
    apply elem_of_cons in Hy as [->|Hy]; [apply Qle_refl|].
    rewrite Forall_forall in Hx. by apply Hx. }
  pose proof (sorted_by_stable f (f x) l) as Hst.
  rewrite Hsorted in Hst. cbn in Hst.
  rewrite (proj2 (Qeq_bool_iff (f x) (f x)) (Qeq_refl _)) in Hst.
  symmetry in Hst. destruct (filter_head_first _ _ _ _ Hst) as (j & Hj & Hb).
  exists j. split_and!; [done| |].
  - intros k y Hy. eapply Hmax, list_elem_of_lookup_2, Hy.
  - intros k y Hk Hy. specialize (Hb k y Hk Hy). cbn in Hb.
    assert (f y <= f x)%Q as Hle by (eapply Hmax, list_elem_of_lookup_2, Hy).
    apply Qle_lteq in Hle as [?|Heq]; [done|].
    apply Qeq_bool_iff in Heq. congruence.
Qed.

(** *** Rounding to four decimal places *)

Lemma round_half_even_close (y : Q) :
  (Qabs (inject_Z (round_half_even y) - y) <= 1 # 2)%Q.
Proof.
  apply Qabs_Qle_condition. destruct y as [n d].
  unfold round_half_even. cbn [Qnum Qden].
  pose proof (Z.div_mod n (Z.pos d) ltac:(lia)) as Hdm.
  pose proof (Z.mod_pos_bound n (Z.pos d) ltac:(lia)) as Hb.
  set (fl := n / Z.pos d) in *. set (rm := n mod Z.pos d) in *.
  repeat match goal with
         | |- context [if ?b then _ else _] => destruct b eqn:?
         end;
    rewrite ?Z.ltb_lt, ?Z.ltb_ge in *;
    unfold Qle, Qminus, Qplus, Qopp, inject_Z; cbn [Qnum Qden];
    split; nia.
Qed.

Lemma round4_rounded (x : Q) : rounded_to_4dp x (round4 x).
Proof.
  split; [by eexists|]. unfold round4.
  pose proof (round_half_even_close (x * inject_Z 10000)) as H.
  set (z := round_half_even _) in *.
  apply Qabs_Qle_condition in H. apply Qabs_Qle_condition.
  assert (z # 10000 == inject_Z z * (1 # 10000))%Q as ->.
  { unfold Qeq. cbn. lia. }
  change (inject_Z 10000) with (10000 # 1)%Q in H.
  split; lra.
Qed.

(** *** C5: one record per non-empty top section *)

Lemma sorted_by_best_chunk (cs : list Chunk) top rest :
  Forall (λ c, is_Some (similarity_score c)) cs →
  sorted_by chunk_key cs = top :: rest →
  best_chunk cs top.
Proof.
  intros Hsc Hsorted. rewrite Forall_lookup in Hsc.
  destruct (sorted_by_head chunk_key cs top rest Hsorted)
    as (j & Hj & Hmax & Hfirst).
  destruct (Hsc j top Hj) as [v Hv].
  assert (chunk_key top = v) as Hkey by (unfold chunk_key; by rewrite Hv).
  exists j, v. split_and!; [done..| |].
  - intros k c' Hk. destruct (Hsc k c' Hk) as [v' Hv']. exists v'.
    split; [done|]. specialize (Hmax k c' Hk).
    unfold chunk_key in Hmax at 1. rewrite Hv', Hkey in Hmax. done.
  - intros k c' Hlt Hk. destruct (Hsc k c' Hk) as [v' Hv']. exists v'.
    split; [done|]. specialize (Hfirst k c' Hlt Hk).
    unfold chunk_key in Hfirst at 1. rewrite Hv', Hkey in Hfirst. done.
Qed.

Lemma analysis_record_Some (st : Store) r s rec :
  st !! r = Some s → section_scored s →
  analysis_record st r = Some rec →
  record_for st r rec ∧ has_chunks st r = true.
Proof.
  intros Hs Hsc. unfold analysis_record, has_chunks. rewrite Hs. cbn.
  destruct (sorted_by chunk_key (chunks s)) as [|top rest] eqn:Hsorted;
    [done|].
  cbn. intros [= <-].
  pose proof (sorted_by_best_chunk _ _ _ Hsc Hsorted) as Hbest.
  split.
  - destruct Hbest as (j & v & Hj & Hv & Hmax & Hfirst).
    exists s, top, v. split_and!; try done.
    + by exists j, v.
    + cbn. unfold chunk_key. rewrite Hv. apply round4_rounded.
  - pose proof (sorted_by_length chunk_key (chunks s)) as Hlen.
    rewrite Hsorted in Hlen. by destruct (chunks s).
Qed.

Lemma analysis_record_None (st : Store) r s :
  st !! r = Some s → analysis_record st r = None → has_chunks st r = false.
Proof.
  intros Hs. unfold analysis_record, has_chunks. rewrite Hs. cbn.
  pose proof (sorted_by_length chunk_key (chunks s)) as Hlen.
  destruct (sorted_by chunk_key (chunks s)); [|done].
  by destruct (chunks s).
Qed.

Lemma analysis_records_Forall2 (st : Store) l :
  sections_scored l st →
  Forall2 (record_for st) (List.filter (has_chunks st) l)
    (analysis_records st l).
Proof.
  induction 1 as [|r l (s & Hs & Hsc) _ IH]; [constructor|].
  rewrite analysis_records_cons. cbn [List.filter].
  destruct (analysis_record st r) as [rec|] eqn:Hrec.
  - destruct (analysis_record_Some st r s rec Hs Hsc Hrec) as [Hfor ->].
    by constructor.
  - by rewrite (analysis_record_None st r s Hs Hrec).
Qed.

Lemma analysis_record_rank (st : Store) r rec :
  analysis_record st r = Some rec → importance_rank rec = rank_of st r.
Proof.
  unfold analysis_record, rank_of. destruct (st !! r) as [s|]; [|done]. cbn.
  destruct (head _); [|done]. cbn. by intros [= <-].
Qed.

Lemma analysis_records_ascending (st : Store) l : ∀ a n,
  rank_of st <$> l = (λ k, Some (Z.of_nat k)) <$> seq a (length l) →
  StronglySorted rank_before (analysis_records st (take n l)) ∧
  Forall (λ rec, ∃ k, importance_rank rec = Some k ∧ Z.of_nat a <= k)
    (analysis_records st (take n l)).
Proof.
  induction l as [|x l IH]; intros a n Hranks.
  - rewrite take_nil. split; constructor.
  - destruct n as [|n]; [split; constructor|].
    cbn in Hranks. injection Hranks as Hx Hl.
    destruct (IH (S a) n Hl) as [Hsorted Hge].
    cbn [take]. rewrite analysis_records_cons.
    destruct (analysis_record st x) as [rec|] eqn:Hrec.
    + apply analysis_record_rank in Hrec. rewrite Hx in Hrec.
      split.
      * constructor; [done|]. eapply Forall_impl; [exact Hge|].
        intros rec' (k & Hk & Hle). exists (Z.of_nat a), k.
        split_and!; [done..|lia].
      * constructor; [by exists (Z.of_nat a)|].
        eapply Forall_impl; [exact Hge|].
        intros rec' (k & Hk & Hle). exists k. split; [done|lia].
    + split; [done|]. eapply Forall_impl; [exact Hge|].
      intros rec' (k & Hk & Hle). exists k. split; [done|lia].
Qed.

(** C5.  On a ranked list whose sections are scored and carry the ranks
    1, 2, ... in order, with N = top_n_sections_for_analysis >= 0:
    [perform_sub_section_analysis] succeeds; its records correspond one to
    one, in order, to the sections among the first N that have a chunk;
    the record of a section carries the text of its highest-scoring chunk
    (the earliest such chunk) and that chunk's score rounded to four
    decimal places; the ranks of the records increase. *)
Theorem sub_section_analysis_records
    (self : RankingEngine) (ranked_sections : list nat) (st : Store) :
  0 <= top_n_sections_for_analysis self →
  sections_scored ranked_sections st →
  rank_of st <$> ranked_sections
  = (λ k, Some (Z.of_nat k)) <$> seq 1 (length ranked_sections) →
  ∃ recs : list AnalysisRecord,
    perform_sub_section_analysis self ranked_sections st = (inr recs, st) ∧
    Forall2 (record_for st)
      (List.filter (has_chunks st)
         (take (Z.to_nat (top_n_sections_for_analysis self)) ranked_sections))
      recs ∧
    StronglySorted rank_before recs.
Proof.
  intros HN Hsc Hranks.
  unfold perform_sub_section_analysis, py_slice_to.
  rewrite (proj2 (Z.leb_le 0 _) HN).
  set (n := Z.to_nat _).
  assert (sections_scored (take n ranked_sections) st) as Hsc'
    by by apply Forall_take.
  eexists. split_and!.
  - by apply analysis_loop_scored.
  - by apply analysis_records_Forall2.
  - by apply (analysis_records_ascending st ranked_sections 1 n).
Qed.

Lemma sub_section_analysis_records_witness :
  ∃ recs : list AnalysisRecord,
    perform_sub_section_analysis Examples.default_engine Examples.ranked
      Examples.st_ranked = (inr recs, Examples.st_ranked) ∧
    Forall2 (record_for Examples.st_ranked)
      (List.filter (has_chunks Examples.st_ranked)
         (take 5 Examples.ranked))
      recs ∧
    StronglySorted rank_before recs.
Proof.
  apply (sub_section_analysis_records Examples.default_engine
           Examples.ranked Examples.st_ranked).
  - cbn. lia.
  - exact Example_facts.st_ranked_scored.
  - reflexivity.
Defined.

(** The snippet-selection example of the specification: scores 0.3, 0.95,
    0.6 give the text of the second chunk and the score 0.95. *)
Example snippet_selection_example :
  fst (perform_sub_section_analysis Examples.default_engine [0%nat]
         Examples.st_ranked)
  = inr [mkAnalysisRecord "doc" "A" (Some 1) "a2" (9500 # 10000)%Q].
Proof. vm_compute. reflexivity. Qed.

(** ** C9: the returned list is indexed by rank *)

Lemma ranked_store_sections_scored self q rs (st : Store) :
  inputs_ok q rs st →
  sections_scored (ranking self q rs st) (ranked_store self q rs st).
Proof.
  intros Hok. apply Forall_forall. intros r Hr.
  rewrite ranking_perm in Hr.
  destruct (inputs_ok_lookup _ _ _ _ Hok Hr) as (s & Hs & Hal).
  destruct (lookup_ranked_store_elem self q rs st r s Hr Hs) as (i & _ & Hl).
  eexists. split; [exact Hl|].
  by apply rescore_section_scored in Hal.
Qed.

Lemma py_slice_to_subseteq {A} n (l : list A) : py_slice_to n l ⊆ l.
Proof.
  unfold py_slice_to. destruct (0 <=? n); apply sublist_subseteq, sublist_take.
Qed.

Lemma py_getitem_index {A} (l : list A) i x :
  l !! i = Some x → py_getitem l (Z.of_nat i + 1 - 1) = inr x.
Proof.
  intros Hi. unfold py_getitem.
  replace (Z.of_nat i + 1 - 1) with (Z.of_nat i) by lia.
  rewrite (proj2 (Z.leb_le 0 _)) by lia.
  rewrite (proj2 (Z.ltb_ge _ 0)) by lia.
  by rewrite Nat2Z.id, Hi.
Qed.



(** ** What a run may modify *)

Section Preserves.
Variable E : DocSection → DocSection.

Lemma preserves_ret {A} (a : A) : preserves E (ret a).
Proof. done. Qed.

Lemma preserves_raise {A} e : preserves E (@raise A e).
Proof. done. Qed.

Lemma preserves_lift {A} (r : PyError + A) : preserves E (lift r).
Proof. by destruct r. Qed.

Lemma preserves_get_store : preserves E get_store.
Proof. done. Qed.

Lemma preserves_get_section r : preserves E (get_section r).
Proof. intros st. unfold get_section. by destruct (st !! r). Qed.

Lemma preserves_bind {A B} (m : M A) (k : A → M B) :
  preserves E m → (∀ a, preserves E (k a)) → preserves E (bind m k).
Proof.
  intros Hm Hk st. unfold bind. specialize (Hm st).
  destruct (m st) as [[e|a] st1]; cbn in *; [done|].
  by rewrite Hk.
Qed.

Lemma preserves_update_section r f :
  (∀ s, E (f s) = E s) → preserves E (update_section r f).
Proof.
  intros Hf st. unfold update_section.
  destruct (st !! r) as [s|] eqn:Hs; [|done]. cbn.
  rewrite fmap_insert, Hf. apply insert_id.
  by rewrite lookup_fmap, Hs.
Qed.

Lemma preserves_for_each {A} (l : list A) (body : A → M unit) :
  (∀ x, preserves E (body x)) → preserves E (for_each l body).
Proof.
  intros Hbody. induction l as [|x l IH]; [done|].
  cbn. by apply preserves_bind.
Qed.

End Preserves.

Lemma blank_chunk_alter_score v i (cs : list Chunk) :
  map blank_chunk (alter (set_similarity_score v) i cs) = map blank_chunk cs.
Proof.
  rewrite (list_fmap_alter blank_chunk (set_similarity_score v) id).
  - by apply list_alter_id.
  - by apply Forall_true.
Qed.

Lemma _score_all_chunks_preserves_unscored rs q :
  preserves unscore_chunks (_score_all_chunks rs q).
Proof.
  apply preserves_for_each. intros r.
  apply preserves_bind; [apply preserves_get_section|]. intros section.
  apply preserves_for_each. intros [i c].
  apply preserves_bind; [apply preserves_lift|]. intros v.
  apply preserves_update_section. intros s.
  unfold unscore_chunks, set_chunks. cbn. by rewrite blank_chunk_alter_score.
Qed.

Lemma _score_all_chunks_preserves_blank rs q :
  preserves blank_section (_score_all_chunks rs q).
Proof.
  intros st. pose proof (_score_all_chunks_preserves_unscored rs q st) as H.
  apply (f_equal (fmap blank_section)) in H.
  rewrite <- !map_fmap_compose in H.
  by rewrite !(map_fmap_ext (blank_section ∘ unscore_chunks) blank_section)
    in H by (intros _ s _; unfold blank_section, unscore_chunks; cbn; f_equal;
             rewrite <- list_fmap_compose; by apply list_fmap_ext).
Qed.

Lemma _aggregate_section_scores_preserves_blank self rs :
  preserves blank_section (_aggregate_section_scores self rs).
Proof.
  apply preserves_for_each. intros r. unfold aggregate_section.
  apply preserves_bind; [apply preserves_get_section|]. intros section.
  destruct (chunks section); [by apply preserves_update_section|].
  apply preserves_bind; [apply preserves_lift|]. intros sorted_scores.
  destruct (py_slice_to _ _); [by apply preserves_update_section|].
  apply preserves_bind; [apply preserves_lift|]. intros mean.
  by apply preserves_update_section.
Qed.

Lemma rank_sections_globally_preserves_blank self docs q :
  preserves blank_section (rank_sections_globally self docs q).
Proof.
  unfold rank_sections_globally.
  apply preserves_bind; [apply _score_all_chunks_preserves_blank|]. intros _.
  apply preserves_bind; [apply _aggregate_section_scores_preserves_blank|].
  intros _.
  apply preserves_bind; [apply preserves_get_store|]. intros st2.
  apply preserves_bind; [apply preserves_lift|]. intros sorted_sections.
  apply preserves_bind; [|intros _; apply preserves_ret].
  apply preserves_for_each. intros [i r].
  by apply preserves_update_section.
Qed.

(** *** C10: the frame of a run *)

Lemma blank_chunks_frame (cs cs' : list Chunk) :
  map blank_chunk cs' = map blank_chunk cs → Forall2 chunk_frame cs cs'.
Proof.
  revert cs'. induction cs as [|c cs IH]; intros [|c' cs'] H; try done.
  cbn in H. injection H as Htext Hdoc Htitle Hemb Hcs.
  constructor; [|by apply IH]. by split_and!.
Qed.

Lemma blank_section_frame (s s' : DocSection) :
  blank_section s' = blank_section s → section_frame s s'.
Proof.
  unfold blank_section. intros H. injection H as ?????.
  split_and!; [done..|]. by apply blank_chunks_frame.
Qed.

Lemma blank_store_frame (st st' : Store) :
  blank_section <$> st' = blank_section <$> st → store_frame st st'.
Proof.
  intros H r. apply (f_equal (λ m : Store, m !! r)) in H.
  rewrite !lookup_fmap in H.
  destruct (st !! r) as [s|], (st' !! r) as [s'|]; try done.
  apply blank_section_frame. cbn in H. congruence.
Qed.

(** C10.  Whatever the input, and whether or not the call fails,
    [rank_sections_globally] leaves every section object in place and
    changes in it at most [aggregated_score], [rank] and the
    [similarity_score] of its chunks: titles, page numbers, document
    names, raw texts, and the chunk lists with the texts, embeddings and
    source names of their chunks, in order, are as before.  (Documents and
    their section lists are values here: no statement of the engine writes
    them.)  [perform_sub_section_analysis] leaves the store as it is. *)
Theorem ranking_engine_frame
    (self : RankingEngine) (docs : list Document) (q : list Q) (st : Store) :
  store_frame st (snd (rank_sections_globally self docs q st)) ∧
  ∀ ranked_sections,
    snd (perform_sub_section_analysis self ranked_sections st) = st.
Proof.
  split.
  - apply blank_store_frame, rank_sections_globally_preserves_blank.
  - intros l. apply analysis_loop_store.
Qed.

(** ** C4: a query of the wrong length *)

Lemma np_dot_inr q c v : np_dot (embedding c) q = inr v → aligned q c.
Proof.
  unfold np_dot, aligned. destruct (embedding c) as [u|]; [|done].
  destruct (length u =? length q)%nat eqn:Hl; [|done].
  intros _. exists u. split; [done|]. by apply Nat.eqb_eq.
Qed.

Lemma np_dot_inl q c e :
  has_vector c → np_dot (embedding c) q = inl e → e = ValueError.
Proof.
  intros [u Hu]. unfold np_dot. rewrite Hu.
  destruct (_ =? _)%nat; [done|]. by intros [= <-].
Qed.

Lemma score_inner_loop_fails q r suf : ∀ i (st : Store) s,
  st !! r = Some s →
  Forall has_vector suf →
  Exists (λ c, ¬ aligned q c) suf →
  fst (for_each (enumerate_from i suf) (score_chunk q r) st) = inl ValueError.
Proof.
  induction suf as [|c suf IH]; intros i st s Hs Hvec Hbad.
  - by apply Exists_nil in Hbad.
  - apply Forall_cons in Hvec as [Hc Hvec].
    cbn [enumerate_from for_each]. unfold bind at 1.
    destruct (np_dot (embedding c) q) as [e|v] eqn:Hdot.
    + apply np_dot_inl in Hdot as Hdot'; [|done]. subst e.
      unfold score_chunk, bind. cbn. by rewrite Hdot.
    + rewrite (score_chunk_ok _ _ _ _ _ _ _ Hdot Hs).
      apply Exists_cons in Hbad as [Hbad|Hbad].
      { by apply np_dot_inr in Hdot. }
      eapply IH; [apply lookup_insert_eq|done..].
Qed.

Lemma _score_all_chunks_fails q rs : ∀ st : Store,
  sections_have_vectors rs st →
  Exists (λ r, ∃ s, st !! r = Some s ∧ ¬ section_aligned q s) rs →
  fst (_score_all_chunks rs q st) = inl ValueError.
Proof.
  induction rs as [|r rs IH]; intros st Hvec Hbad.
  - by apply Exists_nil in Hbad.
  - apply Forall_cons in Hvec as [(s & Hs & Hvs) Hvec].
    unfold _score_all_chunks. cbn [for_each].
    unfold bind at 1. unfold bind at 1, get_section at 1. rewrite Hs.
    destruct (decide (section_aligned q s)) as [Hal|Hal].
    + rewrite (score_section_ok q r st s Hs Hal).
      apply Exists_cons in Hbad as [(s0 & Hs0 & Hbad)|Hbad].
      { by simplify_eq. }
      apply IH.
      * eapply Forall_impl; [exact Hvec|]. intros r' (s' & Hs' & Hv').
        destruct (decide (r' = r)) as [->|Hne].
        -- rewrite lookup_insert_eq. eexists. split; [done|].
           simplify_eq. cbn. apply Forall_fmap.
           eapply Forall_impl; [exact Hv'|]. intros c Hc.
           unfold has_vector. cbn. by rewrite rescored_embedding.
        -- rewrite lookup_insert_ne by done. eauto.
      * eapply Exists_impl; [exact Hbad|]. intros r' (s' & Hs' & Hb').
        destruct (decide (r' = r)) as [->|Hne]; [by simplify_eq|].
        rewrite lookup_insert_ne by done. eauto.
    + apply not_Forall_Exists in Hal; [|apply _].
      pose proof (score_inner_loop_fails q r (chunks s) 0 st s Hs Hvs Hal)
        as Hfail.
      unfold enumerate.
      by destruct (for_each _ _ st) as [[e|[]] st1]; cbn in *.
Qed.

Lemma unscored_store_kept (st st' : Store) :
  unscore_chunks <$> st' = unscore_chunks <$> st →
  only_chunk_scores_written st st'.
Proof.
  intros H r. apply (f_equal (λ m : Store, m !! r)) in H.
  rewrite !lookup_fmap in H.
  destruct (st !! r) as [s|], (st' !! r) as [s'|]; try done.
  cbn in H. injection H as Ht Hp Hd Hr Hcs Ha Hk.
  unfold section_scores_kept, section_frame.
  split_and!; try done. by apply blank_chunks_frame.
Qed.

(** C4 fails as stated: on this input the query matches the first chunk
    and not the second; the call fails, and the first chunk has by then
    received its score. *)
Lemma dimension_mismatch_counterexample :
  dimension_mismatch [1%Q]
    (_get_all_sections Examples.docs_mismatch) Examples.st_mismatch ∧
  ¬ fails_leaving_scores Examples.default_engine Examples.docs_mismatch
      [1%Q] Examples.st_mismatch.
Proof.
  split; [exact Example_facts.st_mismatch_mismatch|].
  intros (e & st' & Hrun & Hscores).
  specialize (Hscores 0%nat).
  apply (f_equal snd) in Hrun. cbn [snd] in Hrun. subst st'.
  vm_compute in Hscores. discriminate.
Qed.

Lemma for_each_app {A} (l1 l2 : list A) (body : A → M unit) (st : Store) :
  for_each (l1 ++ l2) body st
  = match for_each l1 body st with
    | (inr _, st1) => for_each l2 body st1
    | (inl e, st1) => (inl e, st1)
    end.
Proof.
  revert st. induction l1 as [|x l1 IH]; intros st; [done|].
  cbn [app for_each]. unfold bind.
  destruct (body x st) as [[e|[]] st1]; [done|]. apply IH.
Qed.

Lemma first_unaligned_chunk q (cs : list Chunk) :
  ¬ Forall (aligned q) cs →
  ∃ visited c rest,
    cs = visited ++ c :: rest ∧ Forall (aligned q) visited ∧ ¬ aligned q c.
Proof.
  induction cs as [|c cs IH]; intros Hbad.
  { destruct Hbad. constructor. }
  destruct (decide (aligned q c)) as [Hc|Hc].
  - destruct IH as (visited & c' & rest & -> & Hv & Hc').
    { intros Hcs. apply Hbad. by constructor. }
    exists (c :: visited), c', rest. split_and!; [done| |done].
    by constructor.
  - exists [], c, cs. split_and!; [done|constructor|done].
Qed.

Lemma first_unaligned_section q rs (st : Store) :
  sections_have_vectors rs st →
  Exists (λ r, ∃ s, st !! r = Some s ∧ ¬ section_aligned q s) rs →
  ∃ before r after s,
    rs = before ++ r :: after ∧
    Forall (λ r', ∃ s', st !! r' = Some s' ∧ section_aligned q s') before ∧
    st !! r = Some s ∧ Forall has_vector (chunks s) ∧
    ¬ section_aligned q s.
Proof.
  induction rs as [|r rs IH]; intros Hvec Hbad.
  { by apply Exists_nil in Hbad. }
  apply Forall_cons in Hvec as [(s & Hs & Hvs) Hvec].
  destruct (decide (section_aligned q s)) as [Hal|Hal].
  - apply Exists_cons in Hbad as [(s0 & Hs0 & Hbad)|Hbad].
    { rewrite Hs in Hs0. injection Hs0 as <-. done. }
    destruct (IH Hvec Hbad) as (before & r' & after & s' & -> & Hb & Hr).
    exists (r :: before), r', after, s'. split_and!; [done| |apply Hr..].
    constructor; [eauto|done].
  - exists [], r, rs, s. split_and!; [done|constructor|done..].
Qed.

Lemma score_inner_loop_mismatch q r c rest visited : ∀ pre (st : Store) s,
  st !! r = Some s →
  chunks s = pre ++ visited ++ c :: rest →
  Forall (aligned q) visited → has_vector c → ¬ aligned q c →
  for_each (enumerate_from (length pre) (visited ++ c :: rest))
    (score_chunk q r) st
  = (inl ValueError,
     <[r := set_chunks (pre ++ map (rescored q) visited ++ c :: rest) s]> st).
Proof.
  induction visited as [|c0 visited IH]; intros pre st s Hs Hch Hal Hvec Hc.
  - cbn [app enumerate_from for_each map]. unfold bind at 1.
    destruct (np_dot (embedding c) q) as [e|v] eqn:Hdot.
    + apply np_dot_inl in Hdot as He; [|done]. subst e.
      unfold score_chunk, bind. cbn [snd]. rewrite Hdot. cbn.
      cbn in Hch. rewrite <- Hch, set_chunks_chunks. by rewrite insert_id.
    + by apply np_dot_inr in Hdot.
  - apply Forall_cons in Hal as [Hc0 Hal].
    destruct (np_dot_aligned _ _ Hc0) as [v Hv].
    cbn [app enumerate_from for_each]. unfold bind at 1.
    rewrite (score_chunk_ok _ _ _ _ _ _ _ Hv Hs).
    set (s1 := set_chunks _ s).
    assert (chunks s1
            = (pre ++ [set_similarity_score v c0]) ++ visited ++ c :: rest)
      as Hs1.
    { subst s1. cbn. rewrite Hch.
      replace (length pre) with (length pre + 0)%nat by lia.
      rewrite alter_app_r. cbn. by rewrite <- app_assoc. }
    specialize (IH (pre ++ [set_similarity_score v c0]) (<[r := s1]> st) s1).
    rewrite length_app in IH. cbn [length] in IH.
    replace (length pre + 1)%nat with (S (length pre)) in IH by lia.
    rewrite IH; [|by rewrite lookup_insert_eq|done..].
    rewrite insert_insert_eq. do 2 f_equal.
    unfold set_chunks, s1. cbn. f_equal.
    rewrite <- app_assoc. cbn. unfold rescored at 2. by rewrite Hv.
Qed.

Lemma aligned_section_not_before q (st : Store) before r s :
  Forall (λ r', ∃ s', st !! r' = Some s' ∧ section_aligned q s') before →
  st !! r = Some s → ¬ section_aligned q s → r ∉ before.
Proof.
  intros Hb Hs Hbad Hin. rewrite Forall_forall in Hb.
  destruct (Hb r Hin) as (s' & Hs' & Hal). congruence.
Qed.

Lemma _score_all_chunks_mismatch q rs (st : Store) :
  sections_have_vectors rs st →
  Exists (λ r, ∃ s, st !! r = Some s ∧ ¬ section_aligned q s) rs →
  ∃ before r s visited c rest,
    first_mismatch q rs st before r s visited c rest ∧
    (r ∉ before) ∧
    _score_all_chunks rs q st
    = (inl ValueError,
       <[r := set_chunks (map (rescored q) visited ++ c :: rest) s]>
         (apply_to (rescore_section q) before st)).
Proof.
  intros Hvec Hbad.
  destruct (first_unaligned_section q rs st Hvec Hbad)
    as (before & r & after & s & -> & Hb & Hs & Hvs & Hns).
  destruct (first_unaligned_chunk q (chunks s) Hns)
    as (visited & c & rest & Hch & Hv & Hc).
  pose proof (aligned_section_not_before q st before r s Hb Hs Hns) as Hnot.
  exists before, r, s, visited, c, rest. split_and!; [|done|].
  { unfold first_mismatch. split_and!; eauto. }
  unfold _score_all_chunks. rewrite for_each_app.
  pose proof (_score_all_chunks_aligned q before st Hb) as Hrun.
  unfold _score_all_chunks in Hrun. rewrite Hrun.
  cbn [for_each]. unfold bind at 1. unfold bind at 1, get_section at 1.
  rewrite lookup_apply_to_not_elem, Hs by done.
  unfold enumerate. rewrite Hch.
  assert (has_vector c) as Hvc.
  { rewrite Forall_forall in Hvs. apply Hvs. rewrite Hch.
    apply elem_of_app. right. left. }
  assert (apply_to (rescore_section q) before st !! r = Some s) as Hs1
    by by rewrite lookup_apply_to_not_elem.
  pose proof (score_inner_loop_mismatch q r c rest visited []
                (apply_to (rescore_section q) before st) s
                Hs1 Hch Hv Hvc Hc) as Hloop.
  cbn [length app] in Hloop. by rewrite Hloop.
Qed.

Lemma rescored_aligned q c :
  aligned q c →
  ∃ u, embedding c = Some u ∧ rescored q c = set_similarity_score (dot u q) c.
Proof.
  intros (u & Hu & Hl). exists u. split; [done|].
  unfold rescored, np_dot. by rewrite Hu, Hl, Nat.eqb_refl.
Qed.

Lemma apply_to_chunkless q before (st : Store) :
  Forall (λ r', ∀ s', st !! r' = Some s' → chunks s' = []) before →
  apply_to (rescore_section q) before st = st.
Proof.
  intros H. apply map_eq. intros r. rewrite lookup_apply_to.
  destruct (st !! r) as [s|] eqn:Hs; [|done]. cbn. f_equal.
  case_bool_decide as Hin; [|done].
  rewrite Forall_forall in H. specialize (H r Hin s Hs).
  unfold rescore_section. rewrite H. cbn. rewrite <- H.
  apply set_chunks_chunks.
Qed.

(** C4, amended.  When every listed section exists, every chunk carries a
    vector, and the query's length differs from that of some chunk's
    vector, [rank_sections_globally] fails with the dot product's
    ValueError and returns no list.  The scoring loop has stopped at the
    first chunk, in the order of the flattened input, whose vector has not
    the query's length.  Every chunk visited before it has had its
    [similarity_score] overwritten with its dot product; this chunk, the
    chunks after it and all other sections are as before, and no
    [aggregated_score] or [rank] has been written.  When no chunk is visited
    before the mismatching one, the store is left exactly as it was. *)
Theorem dimension_mismatch_fails
    (self : RankingEngine) (docs : list Document) (q : list Q) (st : Store) :
  sections_have_vectors (_get_all_sections docs) st →
  dimension_mismatch q (_get_all_sections docs) st →
  ∃ (st' : Store) before r s visited c rest,
    rank_sections_globally self docs q st = (inl ValueError, st') ∧
    only_chunk_scores_written st st' ∧
    first_mismatch q (_get_all_sections docs) st before r s visited c rest ∧
    (∀ r', r' ∈ before → st' !! r' = rescore_section q <$> st !! r') ∧
    st' !! r = Some (set_chunks (map (rescored q) visited ++ c :: rest) s) ∧
    (∀ r', r' ∉ before → r' ≠ r → st' !! r' = st !! r') ∧
    (∀ c', aligned q c' →
           ∃ u, embedding c' = Some u ∧
                rescored q c' = set_similarity_score (dot u q) c') ∧
    (nothing_visited st before visited → st' = st).
Proof.
  intros Hvec Hmis.
  set (rs := _get_all_sections docs) in *.
  assert (Exists (λ r, ∃ s, st !! r = Some s ∧ ¬ section_aligned q s) rs)
    as Hbad.
  { eapply Exists_impl; [exact Hmis|].
    intros r (s & c & u & Hs & Hc & Hu & Hl). exists s. split; [done|].
    intros Hal. unfold section_aligned in Hal. rewrite Forall_forall in Hal.
    destruct (Hal c Hc) as (u' & Hu' & Hl'). congruence. }
  destruct (_score_all_chunks_mismatch q rs st Hvec Hbad)
    as (before & r & s & visited & c & rest & Hfirst & Hnot & Hrun).
  pose proof (_score_all_chunks_preserves_unscored rs q st) as Hkept.
  rewrite Hrun in Hkept. cbn [snd] in Hkept.
  eexists _, before, r, s, visited, c, rest. split_and!.
  - unfold rank_sections_globally. fold rs. unfold bind at 1.
    by rewrite Hrun.
  - by apply unscored_store_kept.
  - done.
  - intros r' Hr'. rewrite lookup_insert_ne by (intros ->; done).
    by apply lookup_apply_to_elem.
  - by rewrite lookup_insert_eq.
  - intros r' Hr' Hne. rewrite lookup_insert_ne by done.
    by apply lookup_apply_to_not_elem.
  - apply rescored_aligned.
  - intros [Hempty ->]. rewrite apply_to_chunkless by done.
    destruct Hfirst as (_ & _ & Hs & Hch & _). cbn [map app].
    cbn in Hch. rewrite <- Hch, set_chunks_chunks. by apply insert_id.
Qed.

Lemma dimension_mismatch_fails_witness :
  ∃ (st' : Store) before r s visited c rest,
    rank_sections_globally Examples.default_engine Examples.docs_mismatch
      [1%Q] Examples.st_mismatch = (inl ValueError, st') ∧
    only_chunk_scores_written Examples.st_mismatch st' ∧
    first_mismatch [1%Q] (_get_all_sections Examples.docs_mismatch)
      Examples.st_mismatch before r s visited c rest ∧
    (∀ r', r' ∈ before →
           st' !! r' = rescore_section [1%Q] <$> Examples.st_mismatch !! r') ∧
    st' !! r
    = Some (set_chunks (map (rescored [1%Q]) visited ++ c :: rest) s) ∧
    (∀ r', r' ∉ before → r' ≠ r → st' !! r' = Examples.st_mismatch !! r') ∧
    (∀ c', aligned [1%Q] c' →
           ∃ u, embedding c' = Some u ∧
                rescored [1%Q] c' = set_similarity_score (dot u [1%Q]) c') ∧
    (nothing_visited Examples.st_mismatch before visited →
     st' = Examples.st_mismatch).
Proof.
  apply dimension_mismatch_fails.
  - exact Example_facts.st_mismatch_vectors.
  - exact Example_facts.st_mismatch_mismatch.
Defined.

(** ** C7: two runs on the same inputs *)

Lemma same_inputs_lookup (st1 st2 : Store) r s1 :
  same_inputs st1 st2 → st1 !! r = Some s1 →
  ∃ s2, st2 !! r = Some s2 ∧ blank_section s1 = blank_section s2.
Proof.
  intros H Hs1. apply (f_equal (λ m : Store, m !! r)) in H.
  rewrite !lookup_fmap, Hs1 in H. destruct (st2 !! r) as [s2|]; [|done].
  exists s2. split; [done|]. cbn in H. congruence.
Qed.

Lemma rescored_blank_chunk q c :
  aligned q c → rescored q (blank_chunk c) = rescored q c.
Proof.
  intros Hc. destruct (np_dot_aligned q c Hc) as [v Hv].
  unfold rescored. cbn. by rewrite Hv.
Qed.

Lemma rescore_blank_chunks q (cs : list Chunk) :
  Forall (aligned q) cs →
  map (rescored q) (map blank_chunk cs) = map (rescored q) cs.
Proof.
  induction 1 as [|c cs Hc _ IH]; [done|].
  cbn. by rewrite rescored_blank_chunk, IH.
Qed.

(** What a run leaves in a listed section depends on the inputs only. *)
Lemma final_section_blank self q k s :
  section_aligned q s →
  set_rank k (aggregated self (rescore_section q (blank_section s)))
  = set_rank k (aggregated self (rescore_section q s)).
Proof.
  intros Hal.
  unfold set_rank, aggregated, set_aggregated_score, scores_of,
    rescore_section, set_chunks, blank_section. cbn.
  by rewrite rescore_blank_chunks.
Qed.

Lemma blank_section_aligned q s1 s2 :
  blank_section s1 = blank_section s2 →
  section_aligned q s1 → section_aligned q s2.
Proof.
  intros Hb Hal. unfold section_aligned in *.
  assert (map embedding (chunks s1) = map embedding (chunks s2)) as Hemb.
  { apply (f_equal (λ s, map embedding (chunks s))) in Hb. cbn in Hb.
    by rewrite <- !list_fmap_compose in Hb. }
  apply Forall_lookup. intros i c2 Hc2.
  apply (f_equal (λ l, l !! i)) in Hemb.
  rewrite !list_lookup_fmap, Hc2 in Hemb.
  destruct (chunks s1 !! i) as [c1|] eqn:Hc1; [|done].
  rewrite Forall_lookup in Hal. destruct (Hal i c1 Hc1) as (u & Hu & Hl).
  exists u. split; [|done]. cbn in Hemb. congruence.
Qed.

Lemma same_inputs_ok q rs (st1 st2 : Store) :
  same_inputs st1 st2 → inputs_ok q rs st1 → inputs_ok q rs st2.
Proof.
  intros Hsame Hok. eapply Forall_impl; [exact Hok|].
  intros r (s1 & Hs1 & Hal).
  destruct (same_inputs_lookup st1 st2 r s1 Hsame Hs1) as (s2 & Hs2 & Hb).
  exists s2. split; [done|]. by eapply blank_section_aligned.
Qed.

Lemma same_inputs_final self q rs (st1 st2 : Store) r k :
  same_inputs st1 st2 → inputs_ok q rs st1 → r ∈ rs →
  (set_rank k ∘ aggregated self ∘ rescore_section q) <$> st1 !! r
  = (set_rank k ∘ aggregated self ∘ rescore_section q) <$> st2 !! r.
Proof.
  intros Hsame Hok Hr.
  destruct (inputs_ok_lookup _ _ _ _ Hok Hr) as (s1 & Hs1 & Hal1).
  destruct (same_inputs_lookup st1 st2 r s1 Hsame Hs1) as (s2 & Hs2 & Hb).
  rewrite Hs1, Hs2. cbn. f_equal.
  rewrite <- (final_section_blank self q k s1) by done.
  rewrite <- (final_section_blank self q k s2)
    by by eapply blank_section_aligned.
  by rewrite Hb.
Qed.

Lemma same_inputs_score_key self q rs (st1 st2 : Store) r :
  same_inputs st1 st2 → inputs_ok q rs st1 → r ∈ rs →
  score_key (aggregated_store self q rs st1) r
  = score_key (aggregated_store self q rs st2) r.
Proof.
  intros Hsame Hok Hr.
  pose proof (same_inputs_final self q rs st1 st2 r 0 Hsame Hok Hr) as H.
  unfold score_key, aggregated_score_of.
  rewrite !lookup_aggregated_store by done.
  destruct (st1 !! r) as [s1|], (st2 !! r) as [s2|]; try done.
  apply (inj Some) in H. apply (f_equal aggregated_score) in H.
  cbn in *. congruence.
Qed.

Lemma sorted_by_ext_in {A} (f g : A → Q) (l : list A) :
  (∀ x, x ∈ l → f x = g x) → sorted_by f l = sorted_by g l.
Proof.
  intros H. unfold sorted_by. do 2 f_equal.
  apply list_fmap_ext. intros i x Hx. rewrite H; [done|].
  by eapply list_elem_of_lookup_2.
Qed.

Lemma same_inputs_ranking self q rs (st1 st2 : Store) :
  same_inputs st1 st2 → inputs_ok q rs st1 →
  ranking self q rs st1 = ranking self q rs st2.
Proof.
  intros Hsame Hok. apply sorted_by_ext_in. intros r Hr.
  by apply same_inputs_score_key.
Qed.

Lemma same_inputs_ranked_store self q rs (st1 st2 : Store) r :
  same_inputs st1 st2 → inputs_ok q rs st1 → r ∈ rs →
  ranked_store self q rs st1 !! r = ranked_store self q rs st2 !! r.
Proof.
  intros Hsame Hok Hr. unfold ranked_store.
  rewrite !lookup_rank_store, !lookup_aggregated_store by done.
  rewrite <- (same_inputs_ranking self q rs st1 st2) by done.
  destruct (last_index_elem r (ranking self q rs st1)) as [i Hi].
  { by rewrite ranking_perm. }
  rewrite <- !option_fmap_compose. unfold ranked_at. rewrite Hi.
  apply (same_inputs_final self q rs st1 st2 r _ Hsame Hok Hr).
Qed.

Lemma analysis_records_ext (st1 st2 : Store) l :
  (∀ r, r ∈ l → st1 !! r = st2 !! r) →
  analysis_records st1 l = analysis_records st2 l.
Proof.
  induction l as [|r l IH]; intros H; [done|].
  rewrite !analysis_records_cons.
  assert (analysis_record st1 r = analysis_record st2 r) as ->.
  { unfold analysis_record. by rewrite (H r) by left. }
  rewrite IH; [done|].
  intros r' Hr'. apply H. by right.
Qed.

(** C7.  Two runs with the same configuration and query, started on
    stores that hold the same inputs (they may differ in scores and ranks
    left by earlier runs), both succeed, return the same list, leave the
    same section objects behind the listed references (hence the same
    chunk scores, aggregated scores and ranks), and yield the same
    analysis records. *)
Theorem runs_are_deterministic
    (self : RankingEngine) (docs : list Document) (q : list Q)
    (st1 st2 : Store) :
  inputs_ok q (_get_all_sections docs) st1 →
  same_inputs st1 st2 →
  ∃ (out : list nat) (recs : list AnalysisRecord) (st1' st2' : Store),
    rank_sections_globally self docs q st1 = (inr out, st1') ∧
    rank_sections_globally self docs q st2 = (inr out, st2') ∧
    (∀ r, r ∈ _get_all_sections docs → st1' !! r = st2' !! r) ∧
    perform_sub_section_analysis self out st1' = (inr recs, st1') ∧
    perform_sub_section_analysis self out st2' = (inr recs, st2').
Proof.
  intros Hok1 Hsame.
  pose proof (same_inputs_ok _ _ _ _ Hsame Hok1) as Hok2.
  set (rs := _get_all_sections docs) in *.
  pose proof (same_inputs_ranking self q rs st1 st2 Hsame Hok1) as Hout.
  assert (∀ r, r ∈ rs →
            ranked_store self q rs st1 !! r = ranked_store self q rs st2 !! r)
    as Hstores by (intros r Hr; by apply same_inputs_ranked_store).
  assert (∀ (st : Store), inputs_ok q rs st →
            sections_scored
              (py_slice_to (top_n_sections_for_analysis self)
                 (ranking self q rs st))
              (ranked_store self q rs st)) as Hscored.
  { intros st Hok.
    pose proof (ranked_store_sections_scored self q rs st Hok) as Hsc.
    unfold sections_scored in *. rewrite Forall_forall in Hsc.
    apply Forall_forall. intros r Hr.
    by apply Hsc, (py_slice_to_subseteq _ _ r Hr). }
  exists (ranking self q rs st1),
    (analysis_records (ranked_store self q rs st1)
       (py_slice_to (top_n_sections_for_analysis self)
          (ranking self q rs st1))),
    (ranked_store self q rs st1), (ranked_store self q rs st2).
  split_and!.
  - by apply rank_sections_globally_ok.
  - rewrite Hout. by apply rank_sections_globally_ok.
  - done.
  - apply analysis_loop_scored. by apply Hscored.
  - unfold perform_sub_section_analysis. rewrite Hout.
    rewrite analysis_loop_scored by by apply Hscored.
    do 2 f_equal. symmetry. apply analysis_records_ext.
    intros r Hr. apply Hstores.
    apply py_slice_to_subseteq in Hr. rewrite <- Hout in Hr.
    by rewrite ranking_perm in Hr.
Qed.

Lemma runs_are_deterministic_witness :
  ∃ (out : list nat) (recs : list AnalysisRecord) (st1' st2' : Store),
    rank_sections_globally Examples.default_engine Examples.docs_two [1%Q]
      Examples.st_two = (inr out, st1') ∧
    rank_sections_globally Examples.default_engine Examples.docs_two [1%Q]
      Examples.st_two_stale = (inr out, st2') ∧
    (∀ r, r ∈ _get_all_sections Examples.docs_two → st1' !! r = st2' !! r) ∧
    perform_sub_section_analysis Examples.default_engine out st1'
    = (inr recs, st1') ∧
    perform_sub_section_analysis Examples.default_engine out st2'
    = (inr recs, st2').
Proof.
  apply runs_are_deterministic.
  - exact Example_facts.inputs_ok_two.
  - exact Example_facts.same_inputs_two.
Defined.

(** The aggregation step on the section scored 0.9, 0.8, 0.5, 0.1 with
    K = 3. *)
Lemma aggregate_is_mean_of_top_k_witness :
  ∃ st' : Store,
    _aggregate_section_scores Examples.engine_k3 [0%nat]
      Examples.st_scored = (inr tt, st') ∧
    ∀ r s qs,
      r ∈ [0%nat] → Examples.st_scored !! r = Some s → chunks s ≠ [] →
      map similarity_score (chunks s) = map Some qs →
      ∃ s' m top,
        st' !! r = Some s' ∧ aggregated_score s' = Some m ∧
        largest (Z.to_nat (Z.min (top_k_chunks Examples.engine_k3)
                                 (Z.of_nat (length (chunks s))))) qs top ∧
        (m == arithmetic_mean top)%Q.
Proof.
  apply (proj1 aggregate_is_mean_of_top_k).
  - cbn. lia.
  - repeat constructor. eexists. split; [reflexivity|].
    repeat constructor; by eexists.
Defined.

(** * Properties of the stages around the ranking engine *)

(** ** Stripping and newline clean-up *)

Lemma py_lstrip_starts_clean s : starts_clean (py_lstrip s).
Proof.
  induction s as [|c s IH]; cbn; [done|].
  destruct (py_isspace c) eqn:Hc; [done|]. cbn. by rewrite Hc.
Qed.

Lemma py_lstrip_clean s : starts_clean s → py_lstrip s = s.
Proof. destruct s as [|c s]; cbn; [done|]. by intros ->. Qed.

Lemma py_rstrip_ends_clean s : ends_clean (py_rstrip s).
Proof.
  induction s as [|c s IH]; cbn; [done|].
  destruct (py_rstrip s) as [|c' t] eqn:Ht.
  - destruct (py_isspace c) eqn:Hc; cbn; [done|]. by rewrite Hc.
  - exact IH.
Qed.

Lemma py_rstrip_clean s : ends_clean s → py_rstrip s = s.
Proof.
  induction s as [|c s IH]; cbn; [done|].
  destruct s as [|c' s'].
  - cbn. by intros ->.
  - intros H. rewrite IH by done. done.
Qed.

Lemma py_lstrip_ends_clean s : ends_clean s → ends_clean (py_lstrip s).
Proof.
  induction s as [|c s IH]; [done|]. intros H.
  cbn [py_lstrip]. destruct (py_isspace c) eqn:Hc; [|done].
  destruct s as [|c' s']; [done|]. by apply IH.
Qed.

Lemma py_strip_clean s : starts_clean (py_strip s) ∧ ends_clean (py_strip s).
Proof.
  split; [apply py_lstrip_starts_clean|].
  apply py_lstrip_ends_clean, py_rstrip_ends_clean.
Qed.

Lemma py_strip_fixed s : starts_clean s → ends_clean s → py_strip s = s.
Proof.
  intros H1 H2. unfold py_strip. by rewrite py_rstrip_clean, py_lstrip_clean.
Qed.

Lemma py_strip_idemp s : py_strip (py_strip s) = py_strip s.
Proof. apply py_strip_fixed; apply py_strip_clean. Qed.

Lemma is_newline_eq c : is_newline c = true → c = newline.
Proof.
  unfold is_newline, newline. intros H%N.eqb_eq.
  by rewrite <- H, ascii_N_embedding.
Qed.

Lemma re_sub_newlines_head s :
  match s, re_sub_newlines s with
  | String c _, String d _ => c = d
  | EmptyString, EmptyString => True
  | _, _ => False
  end.
Proof.
  induction s as [|c s IH]; [done|]. cbn [re_sub_newlines].
  destruct s as [|c' s']; [done|].
  destruct (is_newline c && is_newline c') eqn:Hnl; [|done].
  apply andb_true_iff in Hnl as [H1%is_newline_eq H2%is_newline_eq].
  destruct (re_sub_newlines (String c' s')); [done|]. congruence.
Qed.

Lemma re_sub_newlines_no_double s : no_double_newline (re_sub_newlines s).
Proof.
  induction s as [|c s IH]; [done|]. cbn [re_sub_newlines].
  destruct s as [|c' s']; [done|].
  destruct (is_newline c && is_newline c') eqn:Hnl; [done|].
  pose proof (re_sub_newlines_head (String c' s')) as Hh.
  cbv beta iota in Hh.
  destruct (re_sub_newlines (String c' s')) as [|d t] eqn:Ht; [done|].
  subst d. by split.
Qed.

Lemma re_sub_newlines_fixed s : no_double_newline s → re_sub_newlines s = s.
Proof.
  induction s as [|c s IH]; [done|]. cbn [re_sub_newlines no_double_newline].
  destruct s as [|c' s']; [done|]. intros [-> H]. by rewrite IH.
Qed.

Lemma py_lstrip_no_double s :
  no_double_newline s → no_double_newline (py_lstrip s).
Proof.
  induction s as [|c s IH]; [done|]. intros H.
  cbn [py_lstrip]. destruct (py_isspace c); [|done].
  apply IH. cbn in H. destruct s; [done|]. by destruct H.
Qed.

Lemma py_rstrip_head s c t : py_rstrip s = String c t → ∃ s', s = String c s'.
Proof.
  destruct s as [|c' s']; cbn; [done|].
  destruct (py_rstrip s'); [destruct (py_isspace c')|]; intros [= <- _]; eauto.
Qed.

Lemma py_rstrip_no_double s :
  no_double_newline s → no_double_newline (py_rstrip s).
Proof.
  induction s as [|c s IH]; [done|]. intros H. cbn [py_rstrip].
  destruct (py_rstrip s) as [|d t] eqn:Ht.
  { by destruct (py_isspace c). }
  destruct (py_rstrip_head _ _ _ Ht) as [s' ->].
  cbn [no_double_newline] in H. destruct H as [Hcd H].
  change (is_newline c && is_newline d = false ∧ no_double_newline (String d t)).
  split; [done|]. by apply IH.
Qed.

Lemma py_strip_no_double s :
  no_double_newline s → no_double_newline (py_strip s).
Proof. intros H. by apply py_lstrip_no_double, py_rstrip_no_double. Qed.

Lemma py_rstrip_all_space s : all_space s = true → py_rstrip s = EmptyString.
Proof.
  induction s as [|c s IH]; [done|]. cbn.
  intros [Hc Hs]%andb_true_iff. by rewrite IH, Hc.
Qed.

Lemma py_strip_all_space s : all_space s = true → py_strip s = EmptyString.
Proof. intros H. unfold py_strip. by rewrite py_rstrip_all_space. Qed.

(** X: the text clean-up of [build] is a normal form. *)
Lemma cleaned_text_clean t :
  starts_clean (cleaned_text t) ∧ ends_clean (cleaned_text t) ∧
  no_double_newline (cleaned_text t).
Proof.
  unfold cleaned_text. split_and!; [apply py_strip_clean..|].
  apply py_strip_no_double, re_sub_newlines_no_double.
Qed.

Lemma cleaned_text_fixed t :
  starts_clean t → ends_clean t → no_double_newline t → cleaned_text t = t.
Proof.
  intros H1 H2 H3. unfold cleaned_text.
  by rewrite re_sub_newlines_fixed, py_strip_fixed.
Qed.

(** ** Collecting loops *)

Lemma for_collect_pure {A B} (body : A → M B) (f : A → B) l (st : Store) :
  (∀ x, x ∈ l → body x st = (inr (f x), st)) →
  for_collect l body st = (inr (f <$> l), st).
Proof.
  induction l as [|x l IH]; intros H; [done|].
  cbn [for_collect]. unfold bind at 1. rewrite (H x) by left.
  unfold bind at 1. rewrite IH; [done|]. intros y Hy. apply H. by right.
Qed.

Lemma for_collect_store {A B} (body : A → M B) l (st : Store) :
  (∀ x, snd (body x st) = st) → snd (for_collect l body st) = st.
Proof.
  intros H. induction l as [|x l IH]; [done|].
  cbn [for_collect]. unfold bind at 1. specialize (H x).
  destruct (body x st) as [[e|y] st1]; cbn in H; subst st1; [done|].
  unfold bind at 1.
  by destruct (for_collect l body st) as [[e|ys] st2]; cbn in *; subst.
Qed.

Lemma for_collect_inr {A B} (body : A → M B) l (st : Store) ys :
  (∀ x, snd (body x st) = st) →
  for_collect l body st = (inr ys, st) ↔
  Forall2 (λ x y, body x st = (inr y, st)) l ys.
Proof.
  intros Hst. revert ys. induction l as [|x l IH]; intros ys.
  - cbn. split.
    + intros [= <-]. constructor.
    + intros ->%Forall2_nil_inv_l. done.
  - cbn [for_collect]. unfold bind at 1. pose proof (Hst x) as Hx.
    destruct (body x st) as [[e|y] st1] eqn:Hb; cbn in Hx; subst st1.
    { split; [done|]. intros (y & ys' & Hy & _ & _)%Forall2_cons_inv_l.
      congruence. }
    unfold bind at 1. pose proof (for_collect_store body l st Hst) as Hl.
    destruct (for_collect l body st) as [[e|ys'] st2] eqn:Hc;
      cbn in Hl; subst st2.
    { split; [done|].
      intros (y' & ys' & Hy & Hys & ->)%Forall2_cons_inv_l.
      apply IH in Hys. congruence. }
    split.
    + intros [= <-]. constructor; [done|]. by apply IH.
    + intros (y' & ys2 & Hy & Hys & ->)%Forall2_cons_inv_l.
      apply IH in Hys. unfold ret. congruence.
Qed.

(** ** The output builder *)

Lemma extracted_entry_ok r (st : Store) s :
  st !! r = Some s →
  extracted_entry r st
  = (inr (Extracted.mk (source_doc_name s) (title s) (rank s)
            (page_number s)), st).
Proof. intros Hs. unfold extracted_entry, bind, get_section. by rewrite Hs. Qed.

Lemma analysis_page_number_store ranked a (st : Store) :
  snd (analysis_page_number ranked a st) = st.
Proof.
  unfold analysis_page_number. destruct (importance_rank a); [|done].
  unfold bind at 1. destruct (py_getitem ranked _) as [e|r]; [done|]. cbn.
  unfold bind, get_section. by destruct (st !! r).
Qed.

Lemma refined_entry_store ranked a (st : Store) :
  snd (refined_entry ranked a st) = st.
Proof.
  unfold refined_entry, bind.
  pose proof (analysis_page_number_store ranked a st) as H.
  by destruct (analysis_page_number ranked a st) as [[e|p] st1].
Qed.

Lemma py_getitem_inr {A} (l : list A) (i : Z) :
  (∃ x, py_getitem l i = inr x) ↔
  - Z.of_nat (length l) <= i < Z.of_nat (length l).
Proof.
  unfold py_getitem.
  destruct (0 <=? i) eqn:Hi; [apply Z.leb_le in Hi|apply Z.leb_gt in Hi].
  - rewrite (proj2 (Z.ltb_ge i 0)) by lia.
    destruct (l !! Z.to_nat i) as [x|] eqn:Hx.
    + apply lookup_lt_Some in Hx. split; [lia|eauto].
    + apply lookup_ge_None in Hx. split; [by intros [? ?]|lia].
  - destruct (Z.of_nat (length l) + i <? 0) eqn:Hj;
      [apply Z.ltb_lt in Hj|apply Z.ltb_ge in Hj].
    + split; [by intros [? ?]|lia].
    + destruct (l !! Z.to_nat (Z.of_nat (length l) + i)) as [x|] eqn:Hx.
      * split; [lia|eauto].
      * apply lookup_ge_None in Hx. lia.
Qed.

Lemma analysis_page_number_lookup ranked a (st : Store) :
  analysis_page_number ranked a st = (page_lookup st ranked a, st).
Proof.
  unfold analysis_page_number, page_lookup.
  destruct (importance_rank a) as [k|]; [|done].
  unfold bind at 1. destruct (py_getitem ranked (k - 1)) as [e|r]; [done|].
  cbn. unfold bind, get_section. by destruct (st !! r).
Qed.

Lemma page_lookup_inr (st : Store) ranked a :
  sections_exist ranked st →
  (∃ p, page_lookup st ranked a = inr p) ↔ rank_in_range (length ranked) a.
Proof.
  intros Hwf. unfold page_lookup, rank_in_range.
  destruct (importance_rank a) as [k|].
  2:{ split; [by intros [? ?]|by intros (? & ? & ?)]. }
  pose proof (py_getitem_inr ranked (k - 1)) as Hget.
  destruct (py_getitem ranked (k - 1)) as [e|r] eqn:Hr.
  - split; [by intros [? ?]|]. intros (k' & [= <-] & Hk).
    apply Hget in Hk as [? ?]. done.
  - assert (r ∈ ranked) as Hin.
    { unfold py_getitem in Hr.
      destruct (_ <? 0); [done|].
      destruct (ranked !! _) eqn:Hl; [|done].
      injection Hr as <-. by eapply list_elem_of_lookup_2. }
    unfold sections_exist in Hwf. rewrite Forall_forall in Hwf.
    destruct (Hwf r Hin) as [s ->]. split.
    + intros _. exists k. split; [done|]. apply Hget. eauto.
    + eauto.
Qed.

Lemma extracted_loop_ok l (st : Store) :
  sections_exist l st →
  for_collect l extracted_entry st
  = (inr (omap (λ r, extracted_of <$> st !! r) l), st).
Proof.
  induction 1 as [|r l [s Hs] _ IH]; [done|].
  cbn [for_collect]. unfold bind at 1. rewrite (extracted_entry_ok r st s Hs).
  unfold bind at 1. rewrite IH. cbn. by rewrite Hs.
Qed.

Lemma sections_exist_slice n l (st : Store) :
  sections_exist l st → sections_exist (py_slice_to n l) st.
Proof.
  unfold sections_exist. rewrite !Forall_forall. intros H r Hr.
  by apply H, (py_slice_to_subseteq n l r).
Qed.

(** X1 (build, error behaviour).  When the ranked sections exist, [build]
    never writes to the store, and it returns an output exactly when every
    analysis record carries a rank [k] such that [k - 1] indexes the ranked
    list; a record without rank, or with a rank beyond the list, makes the
    whole call fail. *)
Theorem build_succeeds_iff_ranks_in_range
    (self : OutputBuilder) (ranked_sections : list nat)
    (analysis : list AnalysisRecord) (st : Store) :
  sections_exist ranked_sections st →
  snd (build self ranked_sections analysis st) = st ∧
  ((∃ out, build self ranked_sections analysis st = (inr out, st)) ↔
   Forall (rank_in_range (length ranked_sections)) analysis).
Proof.
  intros Hwf. unfold build. unfold bind at 1 3.
  rewrite extracted_loop_ok by by apply sections_exist_slice.
  unfold bind at 1 2.
  pose proof (for_collect_store (refined_entry ranked_sections) analysis st
                (λ a, refined_entry_store ranked_sections a st)) as Hst.
  assert (∀ a, snd (refined_entry ranked_sections a st) = st) as Hentry
    by (intros a; apply refined_entry_store).
  destruct (for_collect analysis (refined_entry ranked_sections) st)
    as [[e|ys] st1] eqn:Hc; cbn in Hst; subst st1.
  - split; [done|]. split; [by intros [? ?]|]. intros Hall. exfalso.
    assert (Forall2 (λ a y, refined_entry ranked_sections a st = (inr y, st))
              analysis
              ((λ a, Refined.mk (source_document a)
                       (cleaned_text (refined_text_snippet a))
                       (match page_lookup st ranked_sections a with
                        | inr p => p | inl _ => 0 end)) <$> analysis)) as HF.
    { apply Forall2_fmap_r, Forall_Forall2_diag.
      eapply Forall_impl; [exact Hall|]. intros a Ha.
      apply (page_lookup_inr st ranked_sections a Hwf) in Ha as [p Hp].
      unfold refined_entry, bind. cbn.
      by rewrite analysis_page_number_lookup, Hp. }
    apply (for_collect_inr _ _ _ _ Hentry) in HF. congruence.
  - split; [done|]. split; [|eauto]. intros _.
    apply (for_collect_inr _ _ _ _ Hentry) in Hc.
    apply Forall_forall. intros a Ha.
    apply list_elem_of_lookup in Ha as [i Hi].
    destruct (Forall2_lookup_l _ _ _ _ _ Hc Hi) as (y & _ & Hy).
    apply (page_lookup_inr st ranked_sections a Hwf).
    unfold refined_entry, bind in Hy.
    rewrite analysis_page_number_lookup in Hy.
    destruct (page_lookup st ranked_sections a) as [e|p]; [done|eauto].
Qed.

Lemma sections_scored_exist l (st : Store) :
  sections_scored l st → sections_exist l st.
Proof.
  intros H. eapply Forall_impl; [exact H|]. intros r (s & Hs & _). by eexists.
Qed.

Lemma extracted_Forall2 l (st : Store) :
  sections_exist l st →
  Forall2 (λ r e, ∃ s, st !! r = Some s ∧ e = extracted_of s) l
    (omap (λ r, extracted_of <$> st !! r) l).
Proof.
  induction 1 as [|r l [s Hs] _ IH]; [constructor|].
  cbn. rewrite Hs. cbn. constructor; [eauto|done].
Qed.

Lemma ranked_slice_scored self q rs (st : Store) n :
  inputs_ok q rs st →
  sections_scored (py_slice_to n (ranking self q rs st))
    (ranked_store self q rs st).
Proof.
  intros Hok.
  pose proof (ranked_store_sections_scored self q rs st Hok) as Hsc.
  unfold sections_scored in *. rewrite Forall_forall in Hsc.
  apply Forall_forall. intros r Hr.
  by apply Hsc, (py_slice_to_subseteq _ _ r Hr).
Qed.

Lemma engine_then_build
    (engine : RankingEngine) (self : OutputBuilder) (docs : list Document)
    (q : list Q) (st : Store) :
  inputs_ok q (_get_all_sections docs) st →
  NoDup (_get_all_sections docs) →
  ∃ (out : list nat) (recs : list AnalysisRecord) (st' : Store)
    (final : FinalOutput),
    rank_sections_globally engine docs q st = (inr out, st') ∧
    perform_sub_section_analysis engine out st' = (inr recs, st') ∧
    build self out recs st' = (inr final, st') ∧
    metadata final = input_metadata self ∧
    Forall2 (λ r e, ∃ s, st' !! r = Some s ∧ e = extracted_of s)
      (take 5 out) (extracted_sections final) ∧
    (∀ i e, extracted_sections final !! i = Some e →
            Extracted.importance_rank e = Some (Z.of_nat i + 1)) ∧
    Forall2 (refined_for st' out) recs (sub_section_analysis final).
Proof.
  intros Hok Hnd.
  set (rs := _get_all_sections docs) in *.
  set (out := ranking engine q rs st).
  set (st' := ranked_store engine q rs st).
  set (recs := analysis_records st'
                 (py_slice_to (top_n_sections_for_analysis engine) out)).
  set (entry := λ a : AnalysisRecord,
         Refined.mk (source_document a)
           (cleaned_text (refined_text_snippet a))
           (match page_lookup st' out a with inr p => p | inl _ => 0 end)).
  assert (sections_exist out st') as Hexist
    by by apply sections_scored_exist, ranked_store_sections_scored.
  assert (∀ rec, rec ∈ recs →
            ∃ r s, r ∈ out ∧ st' !! r = Some s ∧
                   analysis_record st' r = Some rec ∧
                   page_lookup st' out rec = inr (page_number s)) as Hrecs.
  { intros rec Hrec. apply list_elem_of_omap in Hrec as (r & Hr & Hrec).
    apply py_slice_to_subseteq in Hr.
    apply list_elem_of_lookup in Hr as Hi. destruct Hi as [i Hi].
    pose proof (analysis_record_rank st' r rec Hrec) as Hrank.
    unfold st' in Hrank.
    rewrite (ranked_store_rank engine q rs st r i Hok Hnd Hi) in Hrank.
    unfold sections_exist in Hexist. rewrite Forall_forall in Hexist.
    destruct (Hexist r Hr) as [s Hs]. exists r, s.
    split_and!; [done..|].
    unfold page_lookup. by rewrite Hrank, (py_getitem_index _ _ _ Hi), Hs. }
  exists out, recs, st',
    (mkFinalOutput (input_metadata self)
       (omap (λ r, extracted_of <$> st' !! r) (take 5 out)) (entry <$> recs)).
  split_and!.
  - by apply rank_sections_globally_ok.
  - apply analysis_loop_scored. by apply ranked_slice_scored.
  - unfold build. unfold bind at 1.
    change (py_slice_to 5 out) with (take 5 out).
    rewrite extracted_loop_ok by by apply Forall_take.
    unfold bind at 1.
    rewrite (for_collect_pure (refined_entry out) entry); [done|].
    intros rec Hrec. destruct (Hrecs rec Hrec) as (r & s & _ & _ & _ & Hp).
    unfold refined_entry, bind, entry.
    by rewrite analysis_page_number_lookup, Hp.
  - done.
  - cbn. apply extracted_Forall2. by apply Forall_take.
  - cbn. intros i e He.
    pose proof (extracted_Forall2 (take 5 out) st'
                  (Forall_take _ _ _ Hexist)) as HF.
    destruct (Forall2_lookup_r _ _ _ _ _ HF He) as (r & Hr & s & Hs & ->).
    apply lookup_take_Some in Hr as [Hr _].
    pose proof (ranked_store_rank engine q rs st r i Hok Hnd Hr) as Hrank.
    unfold rank_of in Hrank. fold st' in Hrank. rewrite Hs in Hrank.
    exact Hrank.
  - cbn. apply Forall2_fmap_r, Forall_Forall2_diag, Forall_forall.
    intros rec Hrec. destruct (Hrecs rec Hrec) as (r & s & Hr & Hs & Ha & Hp).
    exists r, s. split_and!; [done..| | |done].
    + cbn. unfold analysis_record in Ha. rewrite Hs in Ha. cbn in Ha.
      destruct (head _); [|done]. by injection Ha as <-.
    + cbn. by rewrite Hp.
Qed.


Lemma for_collect_Forall {A B} (body : A → M B) (P : B → Prop) l :
  (∀ x (st st' : Store) y, body x st = (inr y, st') → P y) →
  ∀ (st st' : Store) ys,
    for_collect l body st = (inr ys, st') → Forall P ys.
Proof.
  intros Hbody. induction l as [|x l IH]; intros st st' ys.
  - intros [= <- _]. constructor.
  - cbn [for_collect]. unfold bind at 1.
    destruct (body x st) as [[e|y] st1] eqn:Hx; [done|].
    unfold bind at 1.
    destruct (for_collect l body st1) as [[e|ys'] st2] eqn:Hl; [done|].
    intros [= <- _]. constructor; [by eapply Hbody|by eapply IH].
Qed.

Lemma for_collect_Forall2 {A B} (body : A → M B) (P : A → B → Prop) l :
  (∀ x (st st' : Store) y, body x st = (inr y, st') → P x y) →
  ∀ (st st' : Store) ys,
    for_collect l body st = (inr ys, st') → Forall2 P l ys.
Proof.
  intros Hbody. induction l as [|x l IH]; intros st st' ys.
  - intros [= <- _]. constructor.
  - cbn [for_collect]. unfold bind at 1.
    destruct (body x st) as [[e|y] st1] eqn:Hx; [done|].
    unfold bind at 1.
    destruct (for_collect l body st1) as [[e|ys'] st2] eqn:Hl; [done|].
    intros [= <- _]. constructor; [by eapply Hbody|by eapply IH].
Qed.

(** X3 (build, text clean-up).  When [build] returns, its analysis entries
    correspond one to one, in order, to the records it was given.  The
    text of each entry has no whitespace at either end and no newline
    followed by a newline; and a snippet that already has this form is
    passed through unchanged. *)
Theorem build_refined_text_tidy
    (self : OutputBuilder) (ranked_sections : list nat)
    (analysis : list AnalysisRecord) (st st' : Store) (final : FinalOutput) :
  build self ranked_sections analysis st = (inr final, st') →
  Forall2 (λ a e,
             tidy (Refined.refined_text e) ∧
             (tidy (refined_text_snippet a) →
              Refined.refined_text e = refined_text_snippet a))
    analysis (sub_section_analysis final).
Proof.
  unfold build. unfold bind at 1.
  destruct (for_collect _ extracted_entry st) as [[e|es] st1]; [done|].
  unfold bind at 1.
  destruct (for_collect analysis _ st1) as [[e|ys] st2] eqn:Hys; [done|].
  intros [= <- _]. cbn.
  eapply for_collect_Forall2; [|exact Hys].
  intros a sta stb y. unfold refined_entry, bind.
  destruct (analysis_page_number ranked_sections a sta) as [[e|p] stc];
    [done|].
  intros [= <- _]. cbn. split; [apply cleaned_text_clean|].
  intros (H1 & H2 & H3). by apply cleaned_text_fixed.
Qed.

(** ** Paths *)

Lemma has_slash_app a b : has_slash (a +:+ b) = has_slash a || has_slash b.
Proof.
  induction a as [|c a IH]; [done|].
  simpl. by rewrite IH, orb_assoc.
Qed.

Lemma basename_no_slash p : has_slash p = false → basename p = p.
Proof.
  destruct p as [|c p]; [done|]. cbn.
  intros [Hc Hp]%orb_false_iff. by rewrite Hp, Hc.
Qed.

Lemma basename_after_slash a name :
  has_slash name = false → basename (a +:+ "/" +:+ name) = name.
Proof.
  intros Hn. induction a as [|c a IH].
  - change (basename (String "/"%char name) = name).
    cbn [basename]. by rewrite Hn.
  - simpl. rewrite has_slash_app. simpl. by rewrite orb_true_r.
Qed.

Lemma ends_with_slash_has_slash a :
  ends_with_slash a = true → has_slash a = true.
Proof.
  induction a as [|c a IH]; [done|]. intros H.
  change (is_slash c || has_slash a = true).
  destruct a as [|c' a'].
  - cbn in H. by rewrite H.
  - rewrite IH; [apply orb_true_r|exact H].
Qed.

Lemma basename_after_dir a name :
  ends_with_slash a = true → has_slash name = false →
  basename (a +:+ name) = name.
Proof.
  intros Ha Hn. induction a as [|c a IH]; [done|].
  destruct a as [|c' a'].
  - change (basename (String c name) = name).
    cbn [basename ends_with_slash] in *. by rewrite Hn, Ha.
  - change (basename (String c (String c' a' +:+ name)) = name).
    cbn [basename]. rewrite has_slash_app.
    rewrite (ends_with_slash_has_slash (String c' a')) by exact Ha.
    cbn [orb]. apply IH. exact Ha.
Qed.

Lemma append_empty_r (a : string) : a +:+ "" = a.
Proof.
  induction a as [|c a IH]; [done|].
  change (String c (a +:+ "") = String c a). by rewrite IH.
Qed.

Lemma basename_os_path_join a name :
  has_slash name = false → basename (os_path_join a name) = name.
Proof.
  intros Hn. unfold os_path_join. destruct name as [|c name].
  - destruct a as [|c a]; [done|].
    destruct (ends_with_slash (String c a)) eqn:Ha.
    + rewrite <- (append_empty_r (String c a)) at 1.
      by apply basename_after_dir.
    + by apply (basename_after_slash (String c a) "").
  - assert (is_slash c = false) as ->
      by (cbn in Hn; by apply orb_false_iff in Hn as [? ?]).
    destruct a as [|c' a]; [by apply basename_no_slash|].
    destruct (ends_with_slash (String c' a)) eqn:Ha.
    + by apply basename_after_dir.
    + by apply basename_after_slash.
Qed.

(** X4 (file names).  A path made by [os.path.join] from a directory and a
    file name without slash has that file name as its basename: the output
    builder's metadata lists the file names the paths were made from, and
    a parser names its document after the file name. *)
Theorem file_names_survive_paths
    (dir : string) (names : list string) (who task : string) :
  Forall (λ name, has_slash name = false) names →
  Metadata.input_documents
    (input_metadata
       (OutputBuilder_init
          (mkSystemInput (os_path_join dir <$> names) who task)))
  = names ∧
  Forall (λ name,
            parser_filename (DocumentParser_init (os_path_join dir name))
            = name) names.
Proof.
  intros H. split.
  - cbn. rewrite <- list_fmap_compose.
    rewrite <- (list_fmap_id names) at 2. apply Forall_fmap_ext.
    eapply Forall_impl; [exact H|]. intros name Hn.
    by apply basename_os_path_join.
  - eapply Forall_impl; [exact H|]. intros name Hn.
    by apply basename_os_path_join.
Qed.

(** ** Object creation *)

Lemma fresh_ref_None (st : Store) : st !! fresh_ref st = None.
Proof.
  destruct (st !! fresh_ref st) as [s|] eqn:Hs; [|done]. exfalso.
  apply elem_of_map_to_list in Hs.
  assert (fresh_ref st ∈ fst <$> map_to_list st) as Hin.
  { apply list_elem_of_fmap. by exists (fresh_ref st, s). }
  apply max_list_elem_of_le in Hin. unfold fresh_ref in Hin at 1. lia.
Qed.

Lemma alloc_loop {A} (mk : A → DocSection) l : ∀ st : Store,
  ∃ refs (st' : Store),
    for_collect l (λ x, new_section (mk x)) st = (inr refs, st') ∧
    fresh_refs st refs ∧ extends_with st st' refs (mk <$> l).
Proof.
  induction l as [|x l IH]; intros st.
  - exists [], st. split; [done|]. by split; split; try constructor.
  - cbn [for_collect]. unfold bind at 1, new_section at 1.
    set (r0 := fresh_ref st). set (st1 := <[r0 := mk x]> st).
    destruct (IH st1) as (refs & st' & Hrun & [Hnd Hfresh] & [Hobjs Hrest]).
    exists (r0 :: refs), st'. unfold bind at 1. rewrite Hrun.
    assert (r0 ∉ refs) as Hr0.
    { intros Hin. rewrite Forall_forall in Hfresh.
      specialize (Hfresh r0 Hin). unfold st1 in Hfresh.
      by rewrite lookup_insert_eq in Hfresh. }
    split; [done|]. split; split.
    + by constructor.
    + constructor; [apply fresh_ref_None|].
      eapply Forall_impl; [exact Hfresh|]. intros r Hr. unfold st1 in Hr.
      destruct (decide (r = r0)) as [->|Hne].
      * by rewrite lookup_insert_eq in Hr.
      * by rewrite lookup_insert_ne in Hr.
    + cbn. constructor; [|done].
      rewrite Hrest by done. apply lookup_insert_eq.
    + intros r [Hne Hr]%not_elem_of_cons.
      rewrite Hrest by done. unfold st1. by rewrite lookup_insert_ne.
Qed.

(** ** Reading pages *)

Lemma load_page_text_ok doc (p : Z) :
  0 <= p < num_pages doc →
  ∃ t, page_texts doc !! Z.to_nat p = Some t ∧ load_page_text doc p = inr t.
Proof.
  unfold num_pages. intros Hp. unfold load_page_text.
  rewrite (proj2 (Z.leb_le 0 p)) by lia.
  rewrite (proj2 (Z.ltb_ge p 0)) by lia.
  rewrite (proj2 (Z.leb_gt _ p)) by lia. cbn.
  destruct (page_texts doc !! Z.to_nat p) as [t|] eqn:Ht; [eauto|].
  apply lookup_ge_None in Ht. lia.
Qed.

Lemma load_pages_ok doc (a b : Z) (st : Store) :
  0 <= a → b <= num_pages doc →
  for_collect (py_range a b) (λ p, lift (load_page_text doc p)) st
  = (inr (page_slice doc a b), st).
Proof.
  intros Ha Hb.
  rewrite (for_collect_pure _
             (λ p, default EmptyString (page_texts doc !! Z.to_nat p))).
  - f_equal. f_equal. unfold py_range, page_slice.
    apply list_eq. intros i.
    rewrite <- list_fmap_compose, list_lookup_fmap.
    destruct (decide (i < Z.to_nat (b - a))%nat) as [Hi|Hi].
    + rewrite lookup_take_lt, lookup_drop by done.
      rewrite (lookup_seq_lt 0 _ i) by done. cbn.
      replace (Z.to_nat (a + Z.of_nat i)) with (Z.to_nat a + i)%nat by lia.
      destruct (page_texts doc !! (Z.to_nat a + i)%nat) as [t|] eqn:Ht;
        [done|].
      apply lookup_ge_None in Ht. unfold num_pages in Hb. lia.
    + rewrite lookup_take_ge by lia.
      by rewrite lookup_seq_ge by lia.
  - intros p Hp. unfold py_range in Hp.
    apply list_elem_of_fmap in Hp as (i & -> & Hi).
    apply elem_of_seq in Hi.
    destruct (load_page_text_ok doc (a + Z.of_nat i)) as (t & Ht & Hload);
      [lia|].
    by rewrite Hload, Ht.
Qed.

(** ** The parser *)

Lemma populate_section_ok doc sections starts k r s (st : Store) :
  sections !! k = Some r →
  st !! r = Some s →
  starts_of st sections starts →
  populate_section doc sections (k, r) st
  = (inr tt, <[r := set_raw_text (section_text doc starts k) s]> st).
Proof.
  intros Hk Hs Hstarts. unfold starts_of in Hstarts.
  assert (starts !! k = Some (page_number s)) as Hpk.
  { destruct (Forall2_lookup_l _ _ _ _ _ Hstarts Hk) as (p & Hp & Hr).
    rewrite Hs in Hr. cbn in Hr. congruence. }
  unfold populate_section. cbn [fst snd].
  unfold bind at 1, get_section at 1. rewrite Hs.
  assert (∃ e,
    (if (S k <? length sections)%nat
     then next_ref <- lift (py_getitem sections (Z.of_nat k + 1)) ;;
          next <- get_section next_ref ;; ret (page_number next - 1)
     else ret (Z.of_nat (length (page_texts doc)))) st = (inr e, st) ∧
    e = match starts !! S k with
        | Some p' => p' - 1
        | None => num_pages doc
        end) as (e & He & Hend).
  { destruct (S k <? length sections)%nat eqn:Hlt.
    - apply Nat.ltb_lt in Hlt.
      destruct (lookup_lt_is_Some_2 sections (S k) Hlt) as [r2 Hr2].
      destruct (Forall2_lookup_l _ _ _ _ _ Hstarts Hr2) as (p2 & Hp2 & Hpg).
      destruct (st !! r2) as [s2|] eqn:Hs2; [|done].
      cbn in Hpg. injection Hpg as Hpg.
      exists (page_number s2 - 1). rewrite Hp2, Hpg. split; [|done].
      unfold bind at 1.
      replace (Z.of_nat k + 1) with (Z.of_nat (S k) + 1 - 1) by lia.
      rewrite (py_getitem_index _ _ _ Hr2). cbn [lift ret].
      unfold bind, get_section. rewrite Hs2. by subst p2.
    - apply Nat.ltb_ge in Hlt. eexists. split; [reflexivity|].
      rewrite (proj2 (lookup_ge_None starts (S k))); [done|].
      apply Forall2_length in Hstarts. lia. }
  unfold bind at 1. rewrite He.
  unfold bind at 1. rewrite load_pages_ok; [|lia|unfold num_pages; lia].
  unfold update_section. rewrite Hs. do 3 f_equal.
  unfold section_text. rewrite Hpk. by rewrite Hend.
Qed.

Lemma populate_from doc sections starts suffix : ∀ k (st : Store) objs,
  drop k sections = suffix →
  NoDup suffix →
  starts_of st sections starts →
  Forall2 (λ r s, st !! r = Some s) suffix objs →
  ∃ st' : Store,
    for_each (enumerate_from k suffix) (populate_section doc sections) st
    = (inr tt, st') ∧
    Forall2 (λ r s', st' !! r = Some s') suffix
      (imap (λ j, set_raw_text (section_text doc starts (k + j))) objs) ∧
    (∀ r, r ∉ suffix → st' !! r = st !! r).
Proof.
  induction suffix as [|r suffix IH]; intros k st objs Hdrop Hnd Hst Hobjs.
  - apply Forall2_nil_inv_l in Hobjs as ->. exists st.
    split_and!; [done|constructor|done].
  - apply Forall2_cons_inv_l in Hobjs as (s & objs' & Hs & Hobjs & ->).
    apply NoDup_cons in Hnd as [Hr Hnd].
    assert (sections !! k = Some r) as Hk.
    { rewrite <- (Nat.add_0_r k), <- lookup_drop, Hdrop. done. }
    assert (drop (S k) sections = suffix) as Hdrop'.
    { replace (S k) with (k + 1)%nat by lia.
      by rewrite <- drop_drop, Hdrop. }
    cbn [enumerate_from for_each]. unfold bind at 1.
    rewrite (populate_section_ok doc sections starts k r s st Hk Hs Hst).
    set (s1 := set_raw_text _ s). set (st1 := <[r := s1]> st).
    destruct (IH (S k) st1 objs' Hdrop' Hnd) as (st' & Hrun & Hres & Hrest).
    + unfold starts_of in *.
      eapply Forall2_impl; [exact Hst|]. intros r' p Hp. unfold st1.
      destruct (decide (r' = r)) as [->|Hne].
      * rewrite lookup_insert_eq. rewrite Hs in Hp. done.
      * by rewrite lookup_insert_ne.
    + apply Forall2_same_length_lookup. split; [by eapply Forall2_length|].
      intros i r' s' Hr' Hs'.
      unfold st1. rewrite lookup_insert_ne.
      * by apply (Forall2_lookup_lr _ _ _ _ _ _ Hobjs Hr' Hs').
      * intros ->. apply Hr. by eapply list_elem_of_lookup_2.
    + exists st'. split_and!; [done| |].
      * cbn [imap]. constructor.
        -- rewrite Hrest by done. unfold st1. rewrite lookup_insert_eq.
           unfold s1. by rewrite Nat.add_0_r.
        -- erewrite imap_ext; [exact Hres|]. intros j s' _. cbn.
           by replace (k + S j)%nat with (S k + j)%nat by lia.
      * intros r' [Hne Hr']%not_elem_of_cons.
        rewrite Hrest by done. unfold st1. by rewrite lookup_insert_ne.
Qed.

Lemma _populate_sections_with_text_ok doc sections objs (st : Store) :
  NoDup sections →
  Forall2 (λ r s, st !! r = Some s) sections objs →
  ∃ st' : Store,
    _populate_sections_with_text doc sections st = (inr tt, st') ∧
    extends_with st st' sections
      (imap (λ j, set_raw_text
                    (section_text doc (page_number <$> objs) j)) objs).
Proof.
  intros Hnd Hobjs.
  assert (starts_of st sections (page_number <$> objs)) as Hstarts.
  { unfold starts_of. apply Forall2_fmap_r.
    eapply Forall2_impl; [exact Hobjs|]. by intros r s ->. }
  destruct (populate_from doc sections (page_number <$> objs) sections 0 st
              objs eq_refl Hnd Hstarts Hobjs) as (st' & Hrun & Hres & Hrest).
  exists st'. split; [|by split].
  unfold _populate_sections_with_text. by destruct sections.
Qed.

(** The sections as [_extract_sections_from_toc] and
    [_extract_sections_by_page] create them: no text yet. *)
Lemma extract_sections_ok self doc (st : Store) :
  ∃ sections (st1 : Store),
    (∀ B (K : list nat → M B),
       (sections0 <- _extract_sections_from_toc self doc ;;
        sections <- (match sections0 with
                     | [] => _extract_sections_by_page self doc
                     | _ => ret sections0
                     end) ;;
        K sections) st = K sections st1) ∧
    fresh_refs st sections ∧
    extends_with st st1 sections
      ((λ entry, mkSection (fst entry) (snd entry) (parser_filename self)
                   EmptyString [] None None) <$> parse_entries doc).
Proof.
  unfold parse_entries, _extract_sections_from_toc, _extract_sections_by_page.
  destruct (get_toc doc) as [|entry toc].
  - destruct (alloc_loop
                (λ i, mkSection ("Page " +:+ pretty (Z.of_nat i + 1))
                        (Z.of_nat i + 1) (parser_filename self)
                        EmptyString [] None None)
                (seq 0 (length (page_texts doc))) st)
      as (refs & st1 & Hrun & Hfresh & Hext).
    exists refs, st1. split; [|split; [done|by rewrite <- list_fmap_compose]].
    intros B K. unfold bind at 1. cbn [ret]. unfold bind at 1.
    by rewrite Hrun.
  - destruct (alloc_loop
                (λ e : Z * string * Z,
                   mkSection (py_strip (snd (fst e))) (snd e)
                     (parser_filename self) EmptyString [] None None)
                (entry :: toc) st)
      as (refs & st1 & Hrun & Hfresh & Hext).
    exists refs, st1. split; [|split; [done|by rewrite <- list_fmap_compose]].
    intros B K. unfold bind at 1. rewrite Hrun.
    destruct Hext as [Hobjs _]. apply Forall2_length in Hobjs.
    by destruct refs.
Qed.

Lemma parse_ok self doc (st : Store) :
  ∃ document (st' : Store),
    parse self doc st = (inr document, st') ∧
    filename document = parser_filename self ∧
    fresh_refs st (sections document) ∧
    extends_with st st' (sections document)
      (imap (parsed_section self doc) (parse_entries doc)).
Proof.
  destruct (extract_sections_ok self doc st)
    as (refs & st1 & Hrun & [Hnd Hfresh] & [Hobjs Hrest]).
  destruct (_populate_sections_with_text_ok doc refs _ st1 Hnd Hobjs)
    as (st' & Hpop & [Hres Hrest']).
  exists (mkDocument (parser_filename self) refs), st'.
  split_and!; [|done|by split|split].
  - unfold parse. rewrite Hrun. unfold bind. by rewrite Hpop.
  - cbn. rewrite imap_fmap in Hres.
    erewrite imap_ext; [exact Hres|]. intros i entry _.
    unfold parsed_section. cbn.
    by rewrite <- list_fmap_compose.
  - intros r Hr. cbn in Hr. by rewrite Hrest', Hrest.
Qed.

(** X5 (parse).  [parse] never fails.  It creates one new section object
    per entry of the table of contents, or per page when there is none,
    in order; the objects are pairwise distinct and distinct from every
    object that existed before, which is left as it was.  Each section has
    the entry's stripped title and page number, the parser's file name, no
    chunk, no score, no rank, and as text the pages from its own page up
    to the page before the next entry's page (to the end for the last
    one), joined by newlines and stripped. *)
Theorem parse_creates_fresh_sections
    (self : DocumentParser) (doc : PdfDoc) (st : Store) :
  ∃ document (st' : Store),
    parse self doc st = (inr document, st') ∧
    filename document = parser_filename self ∧
    fresh_refs st (sections document) ∧
    extends_with st st' (sections document)
      (imap (parsed_section self doc) (parse_entries doc)).
Proof. apply parse_ok. Qed.

Lemma lookup_enumerate_from {A} (l : list A) : ∀ k i,
  enumerate_from k l !! i = (λ x, ((k + i)%nat, x)) <$> l !! i.
Proof.
  induction l as [|x l IH]; intros k i; [done|].
  destruct i as [|i]; cbn.
  - by rewrite Nat.add_0_r.
  - rewrite IH. by replace (S k + i)%nat with (k + S i)%nat by lia.
Qed.

Lemma py_join_singleton sep t : py_join sep [t] = t.
Proof. done. Qed.

Lemma section_text_by_page doc i t :
  page_texts doc !! i = Some t →
  section_text doc
    ((λ j, Z.of_nat j + 1) <$> seq 0 (length (page_texts doc))) i
  = py_strip t.
Proof.
  intros Ht. apply lookup_lt_Some in Ht as Hlt.
  unfold section_text.
  rewrite list_lookup_fmap, (lookup_seq_lt 0 _ i) by done. cbn.
  assert (match ((λ j, Z.of_nat j + 1) <$> seq 0 (length (page_texts doc)))
                  !! S i with
          | Some p' => p' - 1
          | None => num_pages doc
          end = Z.of_nat i + 1) as ->.
  { rewrite list_lookup_fmap.
    destruct (decide (S i < length (page_texts doc))%nat) as [Hs|Hs].
    - rewrite (lookup_seq_lt 0 _ (S i)) by done. cbn. lia.
    - rewrite lookup_seq_ge by lia. cbn. unfold num_pages. lia. }
  unfold page_slice, num_pages.
  replace (Z.max 0 (Z.of_nat i + 1 - 1)) with (Z.of_nat i) by lia.
  replace (Z.min (Z.of_nat i + 1) (Z.of_nat (length (page_texts doc))))
    with (Z.of_nat i + 1) by lia.
  replace (Z.to_nat (Z.of_nat i + 1 - Z.of_nat i)) with 1%nat by lia.
  rewrite Nat2Z.id.
  rewrite <- (take_drop i (page_texts doc)) in Ht.
  rewrite lookup_app_r in Ht by (rewrite length_take; lia).
  rewrite length_take in Ht.
  replace (i - i `min` length (page_texts doc))%nat with 0%nat in Ht by lia.
  destruct (drop i (page_texts doc)) as [|t' rest]; [done|].
  cbn in Ht. injection Ht as ->. done.
Qed.

(** X6 (parse, no table of contents).  For a PDF without table of
    contents [parse] makes one section per page, in page order: the
    section of page i (counted from 1) is titled "Page i", has page number
    i and as text the stripped text of that page. *)
Theorem parse_without_toc_makes_a_section_per_page
    (self : DocumentParser) (doc : PdfDoc) (st : Store) :
  get_toc doc = [] →
  ∃ document (st' : Store),
    parse self doc st = (inr document, st') ∧
    Forall2 (λ r it, st' !! r = Some (page_section self it))
      (sections document) (enumerate (page_texts doc)).
Proof.
  intros Htoc.
  destruct (parse_ok self doc st) as (document & st' & Hrun & _ & _ & [H _]).
  exists document, st'. split; [done|].
  assert (imap (parsed_section self doc) (parse_entries doc)
          = page_section self <$> enumerate (page_texts doc)) as Heq;
    [|rewrite Heq in H; by apply Forall2_fmap_r in H].
  unfold parse_entries. rewrite Htoc.
  apply list_eq. intros i.
  rewrite list_lookup_imap, !list_lookup_fmap.
  unfold enumerate. rewrite lookup_enumerate_from.
  destruct (page_texts doc !! i) as [t|] eqn:Ht.
  - apply lookup_lt_Some in Ht as Hlt.
    rewrite (lookup_seq_lt 0 _ i) by done. cbn.
    unfold parsed_section, page_section. cbn. f_equal. f_equal.
    unfold parse_entries. rewrite Htoc.
    rewrite <- list_fmap_compose. by apply section_text_by_page.
  - apply lookup_ge_None in Ht. by rewrite lookup_seq_ge by lia.
Qed.

Lemma section_text_empty doc starts i p :
  starts !! i = Some p →
  (num_pages doc < p ∨ ∃ p', starts !! S i = Some p' ∧ p' <= p) →
  section_text doc starts i = EmptyString.
Proof.
  intros Hp Hcase. unfold section_text. rewrite Hp.
  assert (page_slice doc (Z.max 0 (p - 1))
            (Z.min (match starts !! S i with
                    | Some p' => p' - 1
                    | None => num_pages doc
                    end) (num_pages doc)) = []) as ->; [|done].
  unfold page_slice.
  assert (num_pages doc >= 0) by (unfold num_pages; lia).
  destruct Hcase as [Hbig|(p' & -> & Hle)].
  - destruct (starts !! S i);
      replace (Z.to_nat _) with 0%nat by lia; done.
  - replace (Z.to_nat _) with 0%nat by lia. done.
Qed.

(** X7 (parse, entries without pages).  A table-of-contents entry whose
    page is not smaller than the page of the next entry (two entries on
    the same page, say), or whose page lies beyond the last page, gives a
    section with empty text. *)
Theorem parse_entry_without_pages_has_no_text
    (self : DocumentParser) (doc : PdfDoc) (st : Store) (i : nat) (p : Z) :
  (snd <$> parse_entries doc) !! i = Some p →
  (num_pages doc < p ∨
   ∃ p', (snd <$> parse_entries doc) !! S i = Some p' ∧ p' <= p) →
  ∃ document (st' : Store) r s,
    parse self doc st = (inr document, st') ∧
    sections document !! i = Some r ∧ st' !! r = Some s ∧
    page_number s = p ∧ raw_text s = EmptyString.
Proof.
  intros Hp Hcase.
  destruct (parse_ok self doc st) as (document & st' & Hrun & _ & _ & [H _]).
  rewrite list_lookup_fmap in Hp.
  destruct (parse_entries doc !! i) as [entry|] eqn:He; [|done].
  cbn in Hp. injection Hp as Hp.
  assert (imap (parsed_section self doc) (parse_entries doc) !! i
          = Some (parsed_section self doc i entry)) as Hs
    by by rewrite list_lookup_imap, He.
  destruct (Forall2_lookup_r _ _ _ _ _ H Hs) as (r & Hr & Hst).
  exists document, st', r, (parsed_section self doc i entry).
  split_and!; [done..|].
  cbn. apply (section_text_empty doc _ i p); [|done].
  by rewrite list_lookup_fmap, He, <- Hp.
Qed.

(** ** Chunking *)

Lemma string_ind2 (P : string → Prop) :
  P EmptyString →
  (∀ c, P (String c EmptyString)) →
  (∀ c c' s, P s → P (String c' s) → P (String c (String c' s))) →
  ∀ s, P s.
Proof.
  intros H0 H1 H2 s.
  assert (P s ∧ ∀ c, P (String c s)) as [? _]; [|done].
  induction s as [|c' s [IH1 IH2]]; [by split|].
  split; [apply IH2|]. intros c. apply H2; [done|apply IH2].
Qed.

Lemma py_split_nn_step c c' s :
  py_split_nn (String c (String c' s))
  = if is_newline c && is_newline c' then EmptyString :: py_split_nn s
    else cons_head c (py_split_nn (String c' s)).
Proof. done. Qed.

Lemma py_split_nn_all_space s :
  all_space s = true → Forall (λ p, all_space p = true) (py_split_nn s).
Proof.
  induction s as [| c | c c' s IH1 IH2] using string_ind2; intros H.
  - by constructor.
  - by constructor.
  - rewrite py_split_nn_step. cbn [all_space] in H.
    apply andb_true_iff in H as [Hc H].
    destruct (is_newline c && is_newline c').
    + constructor; [done|]. apply IH1.
      cbn [all_space] in H. by apply andb_true_iff in H as [_ ?].
    + specialize (IH2 H). unfold cons_head.
      destruct (py_split_nn (String c' s)) as [|p ps].
      * constructor; [|done]. cbn. by rewrite Hc.
      * apply Forall_cons in IH2 as [Hp Hps].
        constructor; [|done]. cbn. by rewrite Hc, Hp.
Qed.

Lemma py_split_nn_no_double s : no_double_newline s → py_split_nn s = [s].
Proof.
  induction s as [| c | c c' s IH1 IH2] using string_ind2; intros H;
    [done..|].
  rewrite py_split_nn_step. cbn [no_double_newline] in H.
  destruct H as [-> H]. by rewrite IH2.
Qed.

Lemma paragraphs_of_all_space text :
  all_space text = true → paragraphs_of text = [].
Proof.
  intros H. unfold paragraphs_of.
  pose proof (py_split_nn_all_space text H) as Hall.
  induction Hall as [|p ps Hp _ IH]; [done|].
  cbn. by rewrite (py_strip_all_space p Hp).
Qed.

Lemma _chunk_text_with_overlap_paragraphs self text :
  _chunk_text_with_overlap self text
  = overlap_chunks self (paragraphs_of text).
Proof.
  unfold _chunk_text_with_overlap. destruct text as [|c text]; [done|].
  by destruct (paragraphs_of (String c text)).
Qed.

(** X8 (chunking, blank text).  A text that is empty or consists of
    whitespace only gives no chunk. *)
Theorem blank_text_gives_no_chunk (self : EmbeddingEngine) (text : string) :
  all_space text = true → _chunk_text_with_overlap self text = [].
Proof.
  intros H. rewrite _chunk_text_with_overlap_paragraphs.
  by rewrite paragraphs_of_all_space.
Qed.

Lemma py_lstrip_empty s : py_lstrip s = EmptyString → all_space s = true.
Proof.
  induction s as [|c s IH]; [done|]. cbn.
  destruct (py_isspace c); [exact IH|done].
Qed.

Lemma ends_clean_not_all_space s :
  s ≠ EmptyString → ends_clean s → all_space s = false.
Proof.
  induction s as [|c s IH]; [done|]. intros _ H.
  destruct s as [|c' s'].
  - cbn in *. by rewrite H.
  - change (py_isspace c && all_space (String c' s') = false).
    rewrite IH; [apply andb_false_r|done|exact H].
Qed.

Lemma py_rstrip_empty s : py_rstrip s = EmptyString → all_space s = true.
Proof.
  induction s as [|c s IH]; [done|]. cbn.
  destruct (py_rstrip s) as [|d t]; [|done].
  destruct (py_isspace c); [|done]. intros _. by rewrite IH.
Qed.

Lemma py_strip_empty s : py_strip s = EmptyString → all_space s = true.
Proof.
  unfold py_strip. intros H. apply py_lstrip_empty in H.
  destruct (py_rstrip s) as [|d t] eqn:Hr; [by apply py_rstrip_empty|].
  rewrite ends_clean_not_all_space in H; [done..|].
  rewrite <- Hr. apply py_rstrip_ends_clean.
Qed.

(** X9 (chunking, one paragraph).  A text without blank line that is not
    all whitespace gives exactly one chunk, the stripped text: nothing is
    appended to a paragraph that has no successor. *)
Theorem text_without_blank_line_is_one_chunk
    (self : EmbeddingEngine) (text : string) :
  no_double_newline text → all_space text = false →
  _chunk_text_with_overlap self text = [py_strip text].
Proof.
  intros Hnd Hsp. rewrite _chunk_text_with_overlap_paragraphs.
  unfold paragraphs_of. rewrite py_split_nn_no_double by done. cbn.
  destruct (py_strip text) eqn:Hs; [|done].
  apply py_strip_empty in Hs. congruence.
Qed.

Lemma paragraphs_of_clean text :
  Forall (λ p, p ≠ EmptyString ∧ starts_clean p ∧ ends_clean p)
    (paragraphs_of text).
Proof.
  unfold paragraphs_of. apply Forall_forall. intros p Hp.
  apply list_elem_of_omap in Hp as (piece & _ & Hp).
  destruct (py_strip piece) as [|c t] eqn:Hs; [done|].
  injection Hp as <-. rewrite <- Hs.
  split; [by rewrite Hs|apply py_strip_clean].
Qed.

Lemma overlap_chunks_shape self ps :
  Forall2 starts_with ps (overlap_chunks self ps) ∧
  last (overlap_chunks self ps) = last ps.
Proof.
  induction ps as [|p ps [IH1 IH2]]; [by split; [constructor|]|].
  cbn [overlap_chunks]. split.
  - constructor; [|done].
    destruct ps as [|next ps']; [exists EmptyString; by rewrite append_empty_r|].
    destruct (sent_tokenize self next) as [|sentence ?];
      [exists EmptyString; by rewrite append_empty_r|].
    by eexists.
  - destruct ps as [|next ps']; [done|].
    rewrite !last_cons. rewrite IH2.
    rewrite last_cons. by destruct (last ps').
Qed.

(** X10 (chunking, shape).  The chunks of a text correspond one to one, in
    order, to its paragraphs (the stripped, non-empty pieces between blank
    lines): each chunk begins with its paragraph, and the last chunk is
    the last paragraph.  So no chunk is empty or begins with whitespace. *)
Theorem chunks_follow_paragraphs (self : EmbeddingEngine) (text : string) :
  Forall2 starts_with (paragraphs_of text)
    (_chunk_text_with_overlap self text) ∧
  last (_chunk_text_with_overlap self text) = last (paragraphs_of text) ∧
  Forall (λ c, c ≠ EmptyString ∧ starts_clean c)
    (_chunk_text_with_overlap self text).
Proof.
  rewrite _chunk_text_with_overlap_paragraphs.
  destruct (overlap_chunks_shape self (paragraphs_of text)) as [H1 H2].
  split_and!; [done..|].
  pose proof (paragraphs_of_clean text) as Hp.
  apply Forall_forall. intros c Hc.
  apply list_elem_of_lookup in Hc as [i Hi].
  destruct (Forall2_lookup_r _ _ _ _ _ H1 Hi) as (p & Hpi & rest & ->).
  rewrite Forall_lookup in Hp. destruct (Hp i p Hpi) as (Hne & Hst & _).
  destruct p as [|ch p']; [done|]. by split.
Qed.

(** ** Embedding a section *)

Lemma process_section_ok self r (st : Store) s :
  st !! r = Some s →
  process_section self r st = (inr tt, <[r := embedded self s]> st).
Proof.
  intros Hs. unfold process_section, bind, get_section. rewrite Hs.
  unfold embedded, embedded_chunks.
  destruct (_chunk_text_with_overlap self (raw_text s));
    unfold update_section; by rewrite Hs.
Qed.

Lemma embedded_idemp self s : embedded self (embedded self s) = embedded self s.
Proof. done. Qed.

(** X11 (process_section).  [process_section] replaces the chunk list of
    the section and touches nothing else (title, page, text, aggregated
    score and rank of the section stay, other sections stay).  The new
    chunks pair the chunk texts with the encoder's rows, in order and as
    far as both reach; each carries the section's document name and title
    and has no similarity score. *)
Theorem process_section_replaces_chunks
    (self : EmbeddingEngine) (r : nat) (st : Store) (s : DocSection) :
  st !! r = Some s →
  ∃ cs,
    process_section self r st = (inr tt, <[r := set_chunks cs s]> st) ∧
    length cs
    = (length (_chunk_text_with_overlap self (raw_text s))
       `min` length (model_encode self (_chunk_text_with_overlap self (raw_text s))))%nat ∧
    ∀ i c, cs !! i = Some c →
      _chunk_text_with_overlap self (raw_text s) !! i = Some (text c) ∧
      Some <$> model_encode self (_chunk_text_with_overlap self (raw_text s)) !! i
      = Some (embedding c) ∧
      chunk_source_doc_name c = source_doc_name s ∧
      source_section_title c = title s ∧
      similarity_score c = None.
Proof.
  intros Hs. exists (embedded_chunks self s).
  split_and!.
  - by apply process_section_ok.
  - unfold embedded_chunks. apply length_zip_with.
  - intros i c Hc. unfold embedded_chunks in Hc.
    apply lookup_zip_with_Some in Hc as (t & e & -> & Ht & He).
    cbn. by rewrite Ht, He.
Qed.

(** ** From PDFs to a ranking *)

Lemma embedded_aligned self q s :
  encodes_dim self (length q) → section_aligned q (embedded self s).
Proof.
  intros Hdim. unfold section_aligned, embedded, embedded_chunks. cbn.
  apply Forall_forall. intros c Hc.
  apply list_elem_of_lookup in Hc as [i Hi].
  apply lookup_zip_with_Some in Hi as (t & e & -> & Ht & He).
  exists e. split; [done|].
  specialize (Hdim (_chunk_text_with_overlap self (raw_text s))).
  rewrite Forall_lookup in Hdim. by eapply Hdim.
Qed.

Lemma process_sections_ok self rs objs (st : Store) :
  Forall2 (λ r s, st !! r = Some s) rs objs →
  NoDup rs →
  ∃ st' : Store,
    for_each rs (process_section self) st = (inr tt, st') ∧
    extends_with st st' rs (embedded self <$> objs).
Proof.
  intros Hobjs Hnd. exists (apply_to (embedded self) rs st). split.
  - apply for_each_apply_to with (P := λ _, True); [| done | done |].
    + intros r st0 s Hs _. by apply process_section_ok.
    + apply Forall_forall. intros r Hr.
      apply list_elem_of_lookup in Hr as [i Hi].
      destruct (Forall2_lookup_l _ _ _ _ _ Hobjs Hi) as (s & _ & Hs). eauto.
  - split.
    + apply Forall2_fmap_r. apply Forall2_same_length_lookup.
      split; [by eapply Forall2_length|]. intros i r s Hr Hs.
      rewrite lookup_apply_to_elem by by eapply list_elem_of_lookup_2.
      by rewrite (Forall2_lookup_lr _ _ _ _ _ _ Hobjs Hr Hs).
    + intros r Hr. by apply lookup_apply_to_not_elem.
Qed.

Lemma process_single_pdf_ok self path doc (st : Store) :
  ∃ document (st' : Store),
    process_single_pdf self path doc st = (inr document, st') ∧
    filename document = basename path ∧
    fresh_refs st (sections document) ∧
    extends_with st st' (sections document)
      (embedded self
         <$> imap (parsed_section (DocumentParser_init path) doc)
               (parse_entries doc)).
Proof.
  destruct (parse_ok (DocumentParser_init path) doc st)
    as (document & st1 & Hrun & Hname & [Hnd Hfresh] & [Hobjs Hrest]).
  destruct (process_sections_ok self _ _ st1 Hobjs Hnd)
    as (st' & Hproc & [Hobjs' Hrest']).
  exists document, st'. split_and!; [|done|by split|split].
  - unfold process_single_pdf. unfold bind at 1. rewrite Hrun.
    unfold bind. by rewrite Hproc.
  - done.
  - intros r Hr. by rewrite Hrest', Hrest.
Qed.

Lemma process_pdfs_ok self q pdfs :
  encodes_dim self (length q) →
  ∀ st : Store,
  ∃ docs (st' : Store),
    process_pdfs self pdfs st = (inr docs, st') ∧
    fresh_refs st (_get_all_sections docs) ∧
    (∀ r, r ∉ _get_all_sections docs → st' !! r = st !! r) ∧
    inputs_ok q (_get_all_sections docs) st' ∧
    Forall2 (λ d pdf, filename d = basename (fst pdf) ∧
                      length (sections d) = length (parse_entries (snd pdf)))
      docs pdfs.
Proof.
  intros Hdim. unfold process_pdfs.
  induction pdfs as [|[path doc] pdfs IH]; intros st.
  - exists [], st. split_and!; [done| |done| |]; try by constructor.
    split; constructor.
  - destruct (process_single_pdf_ok self path doc st)
      as (d & st1 & Hrun & Hname & [Hnd Hfresh] & [Hobjs Hrest]).
    destruct (IH st1)
      as (docs & st' & Hruns & [Hnd' Hfresh'] & Hrest' & Hok & Hdocs).
    exists (d :: docs), st'.
    change (_get_all_sections (d :: docs))
      with (sections d ++ _get_all_sections docs).
    assert (∀ r, r ∈ sections d → r ∉ _get_all_sections docs) as Hdisj.
    { intros r Hr Hr'. rewrite Forall_forall in Hfresh'.
      specialize (Hfresh' r Hr').
      apply list_elem_of_lookup in Hr as [i Hi].
      destruct (Forall2_lookup_l _ _ _ _ _ Hobjs Hi) as (s & _ & Hs).
      congruence. }
    split_and!.
    + cbn [for_collect]. unfold bind at 1. cbn [fst snd]. rewrite Hrun.
      unfold bind at 1. by rewrite Hruns.
    + split.
      * apply NoDup_app. by split_and!.
      * apply Forall_app. split; [done|].
        eapply Forall_impl; [exact Hfresh'|]. intros r Hr.
        destruct (decide (r ∈ sections d)) as [Hin|Hin].
        -- apply list_elem_of_lookup in Hin as [i Hi].
           destruct (Forall2_lookup_l _ _ _ _ _ Hobjs Hi) as (s & _ & Hs).
           congruence.
        -- by rewrite <- Hrest.
    + intros r Hr.
      assert ((r ∉ sections d) ∧ (r ∉ _get_all_sections docs)) as [Hr1 Hr2].
      { split; intros Hin; apply Hr, elem_of_app; [by left|by right]. }
      by rewrite Hrest', Hrest.
    + apply Forall_app. split; [|exact Hok].
      apply Forall_forall. intros r Hr.
      apply list_elem_of_lookup in Hr as Hi. destruct Hi as [i Hi].
      destruct (Forall2_lookup_l _ _ _ _ _ Hobjs Hi) as (s & Hs & Hst).
      apply list_lookup_fmap_Some in Hs as (s0 & -> & _).
      exists (embedded self s0). split; [|by apply embedded_aligned].
      rewrite Hrest'; [done|]. by apply Hdisj.
    + constructor; [|done]. cbn. split; [done|].
      apply Forall2_length in Hobjs.
      by rewrite Hobjs, length_fmap, length_imap.
Qed.

(** X12 (the pipeline).  For PDFs processed by [process_single_pdf] with
    an encoder whose rows all have the query's length, in whatever order
    the results are collected and whatever the tokenizer, the table of
    contents and the page texts are: parsing, embedding, ranking, analysis
    and [build] all succeed.  There is one
    document per PDF, named after its file, with one section per entry;
    the ranked list holds every section of every document exactly once,
    and the section at index i has rank i + 1. *)
Theorem pipeline_never_fails
    (embedder : EmbeddingEngine) (engine : RankingEngine)
    (builder : OutputBuilder) (pdfs : list (string * PdfDoc)) (q : list Q)
    (st : Store) :
  encodes_dim embedder (length q) →
  ∃ docs (st1 : Store) out recs (st2 : Store) final,
    process_pdfs embedder pdfs st = (inr docs, st1) ∧
    rank_sections_globally engine docs q st1 = (inr out, st2) ∧
    perform_sub_section_analysis engine out st2 = (inr recs, st2) ∧
    build builder out recs st2 = (inr final, st2) ∧
    Forall2 (λ d pdf, filename d = basename (fst pdf) ∧
                      length (sections d) = length (parse_entries (snd pdf)))
      docs pdfs ∧
    out ≡ₚ _get_all_sections docs ∧ NoDup out ∧
    (∀ i r, out !! i = Some r → rank_of st2 r = Some (Z.of_nat i + 1)).
Proof.
  intros Hdim.
  destruct (process_pdfs_ok embedder q pdfs Hdim st)
    as (docs & st1 & Hrun & [Hnd _] & _ & Hok & Hdocs).
  destruct (engine_then_build engine builder docs q st1 Hok Hnd)
    as (out & recs & st2 & final & Hrank & Hrecs & Hbuild & _).
  exists docs, st1, out, recs, st2, final.
  rewrite rank_sections_globally_ok in Hrank by done.
  injection Hrank as <- <-.
  split_and!; [done|by apply rank_sections_globally_ok|done..| | |].
  - apply ranking_perm.
  - by rewrite ranking_perm.
  - intros i r Hi. by apply ranked_store_rank.
Qed.

(** ** Edge cases of the ranking engine *)

Lemma mean_top_k_zero (qs : list Q) : mean_top_k 0 qs = 0%Q.
Proof.
  destruct qs as [|x qs]; [done|]. unfold mean_top_k.
  by rewrite Z.min_l by lia.
Qed.

Lemma sort_desc_sorted_id {A} (l : list (Q * A)) :
  StronglySorted desc l → sort_desc l = l.
Proof.
  induction 1 as [|x l Hs IH Hx]; [done|].
  cbn. rewrite IH. destruct l as [|y l']; [done|].
  cbn. apply Forall_cons in Hx as [Hxy _]. unfold desc in Hxy.
  by rewrite (proj2 (Qle_bool_iff _ _) Hxy).
Qed.

Lemma sorted_by_constant {A} (f : A → Q) (v : Q) (l : list A) :
  Forall (λ x, f x = v) l → sorted_by f l = l.
Proof.
  intros H. unfold sorted_by. rewrite sort_desc_sorted_id.
  - rewrite <- list_fmap_compose. by rewrite list_fmap_id.
  - induction H as [|x l Hx H IH]; cbn; constructor; [done|].
    apply Forall_fmap. eapply Forall_impl; [exact H|].
    intros y Hy. unfold desc. cbn. rewrite Hx, Hy. apply Qle_refl.
Qed.

(** X14 (ranking, K = 0).  With [top_k_chunks = 0] no chunk is averaged:
    every section gets the aggregated score 0, and the ranking is the
    flattened input order. *)
Theorem ranking_with_zero_top_k
    (self : RankingEngine) (docs : list Document) (q : list Q) (st : Store) :
  top_k_chunks self = 0 →
  inputs_ok q (_get_all_sections docs) st →
  ∃ st' : Store,
    rank_sections_globally self docs q st
    = (inr (_get_all_sections docs), st') ∧
    ∀ r, r ∈ _get_all_sections docs → aggregated_score_of st' r = Some 0%Q.
Proof.
  intros HK Hok. set (rs := _get_all_sections docs) in *.
  assert (∀ r, r ∈ rs →
            aggregated_score_of (aggregated_store self q rs st) r = Some 0%Q)
    as Hzero.
  { intros r Hr. destruct (inputs_ok_lookup _ _ _ _ Hok Hr) as (s & Hs & _).
    unfold aggregated_score_of.
    rewrite lookup_aggregated_store, Hs by done. cbn. rewrite HK.
    by rewrite mean_top_k_zero. }
  exists (ranked_store self q rs st). split.
  - rewrite rank_sections_globally_ok by done. f_equal. f_equal.
    unfold ranking. apply (sorted_by_constant _ 0%Q).
    apply Forall_forall. intros r Hr. unfold score_key.
    by rewrite Hzero.
  - intros r Hr. rewrite aggregated_score_of_ranked_store. by apply Hzero.
Qed.

Lemma py_sorted_reverse_unscored (cs : list Chunk) :
  Exists (λ c, similarity_score c = None) cs →
  match py_sorted_reverse similarity_score cs with
  | inl e => e = TypeError
  | inr sorted => ∃ c, sorted = [c] ∧ similarity_score c = None
  end.
Proof.
  intros Hex. destruct cs as [|c [|c' cs]].
  - by apply Exists_nil in Hex.
  - cbn. exists c. split; [done|].
    apply Exists_cons in Hex as [?|Hex]; [done|by apply Exists_nil in Hex].
  - unfold py_sorted_reverse.
    assert (mapM (decorate similarity_score) (c :: c' :: cs) = None) as ->;
      [|done].
    apply mapM_None. eapply Exists_impl; [exact Hex|].
    intros c0 Hc0. unfold decorate. by rewrite Hc0.
Qed.

Lemma analysis_loop_unscored l (st : Store) :
  sections_exist l st →
  Exists (has_unscored_chunk st) l →
  analysis_loop l st = (inl TypeError, st).
Proof.
  induction 1 as [|r l [s Hs] Hl IH]; intros Hex.
  { by apply Exists_nil in Hex. }
  cbn [analysis_loop]. unfold bind at 1, get_section. rewrite Hs.
  destruct (decide (Exists (λ c, similarity_score c = None) (chunks s)))
    as [Hbad|Hgood].
  - pose proof (py_sorted_reverse_unscored _ Hbad) as Hsorted.
    destruct (chunks s) as [|c cs] eqn:Hcs; [by apply Exists_nil in Hbad|].
    unfold bind at 1.
    destruct (py_sorted_reverse similarity_score (c :: cs)) as [e|sorted].
    + by subst e.
    + destruct Hsorted as (c0 & -> & Hc0). cbn [lift ret].
      unfold bind at 1. by rewrite Hc0.
  - assert (Exists (has_unscored_chunk st) l) as Hex'.
    { apply Exists_cons in Hex as [(s0 & Hs0 & Hb)|?]; [|done].
      rewrite Hs in Hs0. by injection Hs0 as <-. }
    specialize (IH Hex').
    destruct (chunks s) as [|c cs] eqn:Hcs; [done|].
    assert (Forall (λ c, is_Some (similarity_score c)) (c :: cs)) as Hsc.
    { apply not_Exists_Forall in Hgood; [|apply _].
      eapply Forall_impl; [exact Hgood|]. intros c0 Hc0. cbn in Hc0.
      by destruct (similarity_score c0); [eexists|]. }
    rewrite py_sorted_reverse_chunks by done. unfold bind at 1.
    cbn [lift ret].
    pose proof (sorted_by_perm chunk_key (c :: cs)) as Hperm.
    destruct (sorted_by chunk_key (c :: cs)) as [|top rest] eqn:Hsorted.
    { apply Permutation_nil_l in Hperm. done. }
    assert (top ∈ c :: cs) as Htop by (rewrite <- Hperm; left).
    rewrite Forall_forall in Hsc. destruct (Hsc top Htop) as [v Hv].
    unfold bind at 1. rewrite Hv. cbn [py_round lift ret].
    unfold bind at 1. by rewrite IH.
Qed.

(** X15 (analysis before scoring).  When among the sections taken for
    analysis there is one with a chunk that has no similarity score
    (sections that were embedded but never ranked, say),
    [perform_sub_section_analysis] raises a TypeError, returns no record
    and leaves the store as it is. *)
Theorem analysis_of_unscored_chunks_raises
    (self : RankingEngine) (ranked_sections : list nat) (st : Store) :
  sections_exist ranked_sections st →
  Exists (has_unscored_chunk st)
    (py_slice_to (top_n_sections_for_analysis self) ranked_sections) →
  perform_sub_section_analysis self ranked_sections st = (inl TypeError, st).
Proof.
  intros Hwf Hex. unfold perform_sub_section_analysis.
  apply analysis_loop_unscored; [|done]. by apply sections_exist_slice.
Qed.

(** ** The theorems above on the running examples *)

Module Stage_facts.
Import Examples Stage_examples.

Lemma ranked_exist : sections_exist ranked st_ranked.
Proof. repeat constructor; by eexists. Defined.

Lemma two_exist : sections_exist [0; 1]%nat st_two.
Proof. repeat constructor; by eexists. Defined.

Lemma two_unscored :
  Exists (has_unscored_chunk st_two)
    (py_slice_to (top_n_sections_for_analysis default_engine) [0; 1]%nat).
Proof.
  apply Exists_cons_hd. eexists. split; [reflexivity|].
  apply Exists_cons_hd. reflexivity.
Defined.

Lemma embedder_2d_dim : encodes_dim embedder_2d 2.
Proof.
  intros texts. cbn. induction texts as [|t texts IH]; constructor; done.
Defined.

Lemma names_two_plain :
  Forall (λ name, has_slash name = false) ["a.pdf"; "b.pdf"].
Proof. repeat constructor. Defined.


End Stage_facts.

Lemma build_succeeds_iff_ranks_in_range_witness :
  snd (build Stage_examples.builder_two Examples.ranked
         Stage_examples.recs_ranked Examples.st_ranked) = Examples.st_ranked ∧
  ((∃ out, build Stage_examples.builder_two Examples.ranked
             Stage_examples.recs_ranked Examples.st_ranked
           = (inr out, Examples.st_ranked)) ↔
   Forall (rank_in_range (length Examples.ranked)) Stage_examples.recs_ranked).
Proof.
  apply build_succeeds_iff_ranks_in_range. exact Stage_facts.ranked_exist.
Defined.


Lemma build_refined_text_tidy_witness :
  ∃ final : FinalOutput,
    Forall2 (λ a e,
               tidy (Refined.refined_text e) ∧
               (tidy (refined_text_snippet a) →
                Refined.refined_text e = refined_text_snippet a))
      Stage_examples.recs_ranked (sub_section_analysis final).
Proof.
  eexists.
  eapply (build_refined_text_tidy Stage_examples.builder_two Examples.ranked
            Stage_examples.recs_ranked Examples.st_ranked).
  vm_compute. reflexivity.
Defined.

Lemma file_names_survive_paths_witness :
  Metadata.input_documents
    (input_metadata
       (OutputBuilder_init
          (mkSystemInput (os_path_join "Challenge_1b/Collection_1/PDFs"
                            <$> ["a.pdf"; "b.pdf"]) "Analyst" "Review")))
  = ["a.pdf"; "b.pdf"] ∧
  Forall (λ name,
            parser_filename
              (DocumentParser_init
                 (os_path_join "Challenge_1b/Collection_1/PDFs" name))
            = name) ["a.pdf"; "b.pdf"].
Proof.
  apply file_names_survive_paths. exact Stage_facts.names_two_plain.
Defined.

Lemma parse_without_toc_makes_a_section_per_page_witness :
  ∃ document (st' : Store),
    parse (DocumentParser_init "in/b.pdf") Stage_examples.pdf_plain ∅
    = (inr document, st') ∧
    Forall2 (λ r it,
               st' !! r
               = Some (page_section (DocumentParser_init "in/b.pdf") it))
      (sections document) (enumerate (page_texts Stage_examples.pdf_plain)).
Proof.
  apply parse_without_toc_makes_a_section_per_page. reflexivity.
Defined.

Lemma parse_entry_without_pages_has_no_text_witness :
  ∃ document (st' : Store) r s,
    parse (DocumentParser_init "in/a.pdf") Stage_examples.pdf_with_toc ∅
    = (inr document, st') ∧
    sections document !! 0%nat = Some r ∧ st' !! r = Some s ∧
    page_number s = 1 ∧ raw_text s = EmptyString.
Proof.
  apply parse_entry_without_pages_has_no_text.
  - reflexivity.
  - right. exists 1. split; [reflexivity|lia].
Defined.

Lemma blank_text_gives_no_chunk_witness :
  _chunk_text_with_overlap Stage_examples.embedder_2d "   " = [].
Proof. apply blank_text_gives_no_chunk. reflexivity. Defined.

Lemma text_without_blank_line_is_one_chunk_witness :
  _chunk_text_with_overlap Stage_examples.embedder_2d " one line "
  = [py_strip " one line "].
Proof.
  apply text_without_blank_line_is_one_chunk.
  - cbn. repeat split.
  - reflexivity.
Defined.

Lemma process_section_replaces_chunks_witness :
  ∃ s cs,
    Stage_examples.st_parsed !! 0%nat = Some s ∧
    process_section Stage_examples.embedder_2d 0%nat Stage_examples.st_parsed
    = (inr tt, <[0%nat := set_chunks cs s]> Stage_examples.st_parsed) ∧
    length cs
    = (length (_chunk_text_with_overlap Stage_examples.embedder_2d (raw_text s))
       `min` length (model_encode Stage_examples.embedder_2d
                       (_chunk_text_with_overlap Stage_examples.embedder_2d
                          (raw_text s))))%nat ∧
    ∀ i c, cs !! i = Some c →
      _chunk_text_with_overlap Stage_examples.embedder_2d (raw_text s) !! i
      = Some (text c) ∧
      Some <$> model_encode Stage_examples.embedder_2d
                 (_chunk_text_with_overlap Stage_examples.embedder_2d
                    (raw_text s)) !! i
      = Some (embedding c) ∧
      chunk_source_doc_name c = source_doc_name s ∧
      source_section_title c = title s ∧
      similarity_score c = None.
Proof.
  eexists. 
  assert (Stage_examples.st_parsed !! 0%nat
          = Some (mkSection "A" 1 "a.pdf"
                    ("One." +:+ String newline (String newline "Two."))
                    [] None None)) as Hs by reflexivity.
  destruct (process_section_replaces_chunks Stage_examples.embedder_2d 0%nat
              Stage_examples.st_parsed _ Hs) as (cs & Hrun & Hlen & Hcs).
  exists cs. split; [exact Hs|]. split; [exact Hrun|]. split; [exact Hlen|].
  exact Hcs.
Defined.

Lemma pipeline_never_fails_witness :
  ∃ docs (st1 : Store) out recs (st2 : Store) final,
    process_pdfs Stage_examples.embedder_2d Stage_examples.pdfs_two ∅
    = (inr docs, st1) ∧
    rank_sections_globally Examples.default_engine docs [1; 0]%Q st1
    = (inr out, st2) ∧
    perform_sub_section_analysis Examples.default_engine out st2
    = (inr recs, st2) ∧
    build Stage_examples.builder_two out recs st2 = (inr final, st2) ∧
    Forall2 (λ d pdf, filename d = basename (fst pdf) ∧
                      length (sections d) = length (parse_entries (snd pdf)))
      docs Stage_examples.pdfs_two ∧
    out ≡ₚ _get_all_sections docs ∧ NoDup out ∧
    (∀ i r, out !! i = Some r → rank_of st2 r = Some (Z.of_nat i + 1)).
Proof.
  apply (pipeline_never_fails Stage_examples.embedder_2d
           Examples.default_engine Stage_examples.builder_two
           Stage_examples.pdfs_two [1; 0]%Q ∅).
  exact Stage_facts.embedder_2d_dim.
Defined.

Lemma ranking_with_zero_top_k_witness :
  ∃ st' : Store,
    rank_sections_globally Stage_examples.engine_k0 Examples.docs_two [1%Q]
      Examples.st_two
    = (inr (_get_all_sections Examples.docs_two), st') ∧
    ∀ r, r ∈ _get_all_sections Examples.docs_two →
         aggregated_score_of st' r = Some 0%Q.
Proof.
  apply ranking_with_zero_top_k.
  - reflexivity.
  - exact Example_facts.inputs_ok_two.
Defined.

Lemma analysis_of_unscored_chunks_raises_witness :
  perform_sub_section_analysis Examples.default_engine [0; 1]%nat
    Examples.st_two = (inl TypeError, Examples.st_two).
Proof.
  apply analysis_of_unscored_chunks_raises.
  - exact Stage_facts.two_exist.
  - exact Stage_facts.two_unscored.
Defined.
